(** * esbuild-plugin-html: the HTML/asset injection pipeline

    A shallow embedding of [packages/esbuild-plugin-html/src/html-plugin.ts]
    and the properties its specification states about it.

    JavaScript strings are sequences of UTF-16 code units; indices and the
    results of [indexOf]/[findIndex] are integers where [-1] means "not found",
    so they are kept in [Z] exactly as the source compares them. *)

From Stdlib Require Import String Ascii.
From Stdlib Require Import List ZArith NArith Lia Bool.
Import ListNotations.

Open Scope Z_scope.

(** ** JavaScript strings *)

Module JS.

(** A UTF-16 code unit. *)
Definition char := N.
Definition jsstring := list char.

(** A literal: every character of a Rocq string is one code unit. *)
Definition js (s : string) : jsstring :=
  map N_of_ascii (list_ascii_of_string s).

(** A character literal as a code unit. *)
Definition ch (a : ascii) : char := N_of_ascii a.

(** The double quote, code unit 34. *)
Definition dquote : char := 34%N.

Definition len (s : jsstring) : Z := Z.of_nat (length s).

Definition char_eqb (a b : char) : bool := N.eqb a b.

Fixpoint eqb (a b : jsstring) : bool :=
  match a, b with
  | [], [] => true
  | x :: a', y :: b' => char_eqb x y && eqb a' b'
  | _, _ => false
  end.

(** [s[i]]: [undefined] (here [None]) outside [0 .. length-1]. *)
Definition charAt (s : jsstring) (i : Z) : option char :=
  if i <? 0 then None else nth_error s (Z.to_nat i).

(** [a === b] on values that are a one-unit string or [undefined]. *)
Definition strict_eq (a b : option char) : bool :=
  match a, b with
  | Some x, Some y => char_eqb x y
  | None, None => true
  | _, _ => false
  end.

Fixpoint isPrefix (p s : jsstring) : bool :=
  match p, s with
  | [], _ => true
  | x :: p', y :: s' => char_eqb x y && isPrefix p' s'
  | _ :: _, [] => false
  end.

(** Search of [pat] in the suffix [s] that starts at absolute position [k]. *)
Fixpoint indexOf_from (pat s : jsstring) (k : Z) : Z :=
  if isPrefix pat s then k
  else match s with
       | [] => -1
       | _ :: s' => indexOf_from pat s' (k + 1)
       end.

(** [text.indexOf(pat, position)]: the start is clamped to [0 .. length]. *)
Definition indexOf (text pat : jsstring) (position : Z) : Z :=
  let start := Z.min (Z.max position 0) (len text) in
  indexOf_from pat (skipn (Z.to_nat start) text) start.

Definition includes (text pat : jsstring) : bool :=
  0 <=? indexOf text pat 0.

Definition startsWith (text pat : jsstring) : bool := isPrefix pat text.

Definition endsWith (text pat : jsstring) : bool :=
  isPrefix (rev pat) (rev text).

(** A relative index of [slice]: negative counts from the end. *)
Definition rel_index (n i : Z) : Z :=
  if i <? 0 then Z.max (n + i) 0 else Z.min i n.

(** [text.slice(from, to)]. *)
Definition slice (text : jsstring) (from to : Z) : jsstring :=
  let n := len text in
  let a := rel_index n from in
  let b := rel_index n to in
  firstn (Z.to_nat (Z.max (b - a) 0)) (skipn (Z.to_nat a) text).

(** [text.slice(from)]. *)
Definition slice_from (text : jsstring) (from : Z) : jsstring :=
  slice text from (len text).

(** The code units matched by [\s], which are also those [trim] strips:
    WhiteSpace and LineTerminator of ECMAScript. *)
Definition isWhiteSpace (c : char) : bool :=
  ((9 <=? c) && (c <=? 13) || (c =? 32) || (c =? 160) || (c =? 5760)
   || (8192 <=? c) && (c <=? 8202) || (c =? 8232) || (c =? 8233)
   || (c =? 8239) || (c =? 8287) || (c =? 12288) || (c =? 65279))%N.

(** [/\s/.test(x)] for [x] a one-unit string or [undefined]; [undefined]
    is converted to the text "undefined", which has no white space. *)
Definition test_ws (x : option char) : bool :=
  match x with
  | Some c => isWhiteSpace c
  | None => false
  end.

Fixpoint trimStart (s : jsstring) : jsstring :=
  match s with
  | c :: s' => if isWhiteSpace c then trimStart s' else s
  | [] => []
  end.

Definition trimEnd (s : jsstring) : jsstring := rev (trimStart (rev s)).

Definition trim (s : jsstring) : jsstring := trimEnd (trimStart s).

End JS.

Import JS.

(** ** The CSS URL scanner ([parseURLs], [skipWhitespace]) *)

(** The loops are run with a bound [gas] on the number of iterations, [None]
    meaning that the bound was reached, and count every iteration they make in
    a tick counter, so that both termination and the amount of work can be
    stated.  Nothing in the scanner can throw: an access outside the text
    reads [undefined]. *)

Definition closingToken (key : option char) : option char :=
  match key with
  | Some c =>
      if char_eqb c (ch "(") then Some (ch ")")
      else if char_eqb c dquote then Some dquote
      else if char_eqb c (ch "'") then Some (ch "'")
      else None
  | None => None
  end.

(** [while (/\s/.test(text[index + offset])) offset++], from [offset]. *)
Fixpoint skipWhitespace_loop (gas : nat) (text : jsstring) (index offset : Z)
    (ticks : nat) : option (Z * nat) :=
  match gas with
  | O => None
  | S gas' =>
      if test_ws (charAt text (index + offset))
      then skipWhitespace_loop gas' text index (offset + 1) (S ticks)
      else Some (offset, S ticks)
  end.

Definition skipWhitespace (gas : nat) (text : jsstring) (index : Z)
    (ticks : nat) : option (Z * nat) :=
  skipWhitespace_loop gas text index 0 ticks.

(** The state of the capturing loop of [parseURLs]. *)
Record capture := mkCapture {
  c_index : Z;
  c_end : Z;
  c_stack : list char;
  c_ticks : nat
}.

(** [stack[stack.length - 1]] and [stack.pop()]: the top is the last pushed. *)
Definition top (stack : list char) : option char :=
  match rev stack with
  | c :: _ => Some c
  | [] => None
  end.

Definition pop (stack : list char) : list char := removelast stack.

Definition push (stack : list char) (c : char) : list char := stack ++ [c].

(** [while (stack.length > 0 && index < length) { ... index++ }]. *)
Fixpoint capture_loop (gas : nat) (text : jsstring) (s : capture)
    : option capture :=
  match gas with
  | O => None
  | S gas' =>
      if negb (0 <? Z.of_nat (length (c_stack s))) || negb (c_index s <? len text)
      then Some s
      else
        if strict_eq (charAt text (c_index s)) (closingToken (top (c_stack s)))
        then
          match skipWhitespace gas' text (c_index s) (S (c_ticks s)) with
          | None => None
          | Some (ws, t) =>
              capture_loop gas' text
                (mkCapture (c_index s + ws + 1) (c_end s) (pop (c_stack s)) t)
          end
        else
          capture_loop gas' text
            (mkCapture (c_index s + 1) (c_end s + 1) (c_stack s) (S (c_ticks s)))
  end.

Definition isQuote (x : option char) : bool :=
  strict_eq x (Some (ch "'")) || strict_eq x (Some dquote).

(** The outer loop of [parseURLs]:
    [while ((index = text.indexOf('url', index)) > 0) { ... }]. *)
Fixpoint parseURLs_loop (gas : nat) (text : jsstring) (index : Z)
    (stack : list char) (urls : list jsstring) (ticks : nat)
    : option (list jsstring * nat) :=
  match gas with
  | O => None
  | S gas' =>
      let index := indexOf text (js "url") index in
      if negb (index >? 0) then Some (urls, S ticks)
      else
        (* Skip over "url" *)
        let index := index + 3 in
        match skipWhitespace gas' text index (S ticks) with
        | None => None
        | Some (ws, ticks) =>
            let index := index + ws in
            (* Find opening "(" *)
            if negb (strict_eq (charAt text index) (Some (ch "(")))
            then parseURLs_loop gas' text index stack urls ticks
            else
              let stack := push stack (ch "(") in
              let index := index + 1 in
              match skipWhitespace gas' text index ticks with
              | None => None
              | Some (ws, ticks) =>
                  let index := index + ws in
                  (* Quotes are optional, but need to balance *)
                  let '(stack, index) :=
                    match charAt text index with
                    | Some q =>
                        if isQuote (Some q) then (push stack q, index + 1)
                        else (stack, index)
                    | None => (stack, index)
                    end in
                  match skipWhitespace gas' text index ticks with
                  | None => None
                  | Some (ws, ticks) =>
                      let index := index + ws in
                      (* Start capturing the actual URL *)
                      match capture_loop gas' text
                              (mkCapture index index stack ticks) with
                      | None => None
                      | Some c =>
                          parseURLs_loop gas' text (c_index c) (c_stack c)
                            (urls ++ [trim (slice text index (c_end c))])
                            (c_ticks c)
                      end
                  end
              end
        end
  end.

(** Enough iterations for every loop of the scanner (see [parseURLs_gas]). *)
Definition scan_gas (text : jsstring) : nat := S (length text).

Definition parseURLs_run (text : jsstring) : option (list jsstring * nat) :=
  parseURLs_loop (scan_gas text) text 0 [] [] 0.

(** [parseURLs(text)]. *)
Definition parseURLs (text : jsstring) : list jsstring :=
  match parseURLs_run text with
  | Some (urls, _) => urls
  | None => []
  end.

(** ** Errors *)

(** What a pass or the setup can throw. *)
Inductive Error :=
| MissingOutdir            (* html-plugin: "outdir" esbuild build option is required *)
| TemplateUnreadable (templatePath : jsstring)
| MissingMetafile
| InvalidURL               (* the TypeError of [new URL] *)
| NotAString.              (* a TypeError: a property of [undefined] was read *)

Inductive result (A : Type) :=
| Ok (a : A)
| Throw (e : Error).

Arguments Ok {A} a.
Arguments Throw {A} e.

Definition bind {A B : Type} (m : result A) (f : A -> result B) : result B :=
  match m with
  | Ok a => f a
  | Throw e => Throw e
  end.

Notation "x <- m ;; k" := (bind m (fun x => k))
  (at level 61, m at next level, right associativity).
Notation "' p <- m ;; k" := (bind m (fun x => let 'p := x in k))
  (at level 61, p pattern, m at next level, right associativity).

(** ** The document tree of parse5 *)

Record Attribute := mkAttr {
  attr_name : jsstring;
  attr_value : jsstring
}.

#[local] Set Warnings "-register-all".

Inductive Node :=
| Element (tagName : jsstring) (attrs : list Attribute) (childNodes : list Node)
| TextNode (value : jsstring)
| CommentNode (data : jsstring)
| DocumentType (name publicId systemId : jsstring).

(** A document is the sequence [document.childNodes]. *)
Definition Document := list Node.

(** ** The collaborators of the plugin *)

(** Node's [path] module (with the process's current directory behind
    [resolve]), the WHATWG [URL] constructor and parse5's [parse] and
    [serialize].  They are not code of this repository: the plugin is stated
    over any implementation of them.  The document type they exchange is
    declared first. *)
Record Host := mkHost {
  path_isAbsolute : jsstring -> bool;
  path_basename : jsstring -> jsstring;
  path_basename_ext : jsstring -> jsstring -> jsstring;  (* basename(p, ext) *)
  path_extname : jsstring -> jsstring;
  path_dirname : jsstring -> jsstring;
  path_join : jsstring -> jsstring -> jsstring;
  path_resolve : jsstring -> jsstring -> jsstring;
  (** [new URL(relative, base).href]; [None] when the constructor throws. *)
  URL_href : jsstring -> jsstring -> option jsstring;
  process_cwd : jsstring;
  html_parse : jsstring -> Document;
  html_serialize : Document -> jsstring
}.

(** JavaScript truthiness of a [string | undefined]. *)
Definition truthy (s : option jsstring) : bool :=
  match s with
  | Some (_ :: _) => true
  | _ => false
  end.

(** ** Rebasing of asset URLs ([isAbsoluteOrURL], [rebaseAssetURL]) *)

Record Rebased := mkRebased {
  basename : jsstring;
  rebasedURL : jsstring;
  inputPath : jsstring
}.

Section Rebasing.

Variable host : Host.

Definition isAbsoluteOrURL (src : jsstring) : bool :=
  path_isAbsolute host src || includes src (js "://") || startsWith src (js "data:").

Definition pathEndOf (inputURL : jsstring) : Z :=
  let queryPos := indexOf inputURL (js "?") 0 in
  let hashPos := indexOf inputURL (js "#") 0 in
  if queryPos <? 0 then hashPos
  else if hashPos <? 0 then queryPos
  else Z.min queryPos hashPos.

Definition rebaseAssetURL (inputURL templatePath : jsstring)
    (publicPath : option jsstring) : result Rebased :=
  let pathEnd := pathEndOf inputURL in
  let url := if pathEnd <? 0 then inputURL else slice inputURL 0 pathEnd in
  (* The input URL is relative to the template file, so
     rebase it relative to publicPath *)
  let basename := path_basename host url in
  let inputPath := path_resolve host (path_dirname host templatePath) url in
  rebased <-
    match publicPath with
    | Some (c :: p) =>
        if includes (c :: p) (js "://")
        then match URL_href host basename (c :: p) with
             | Some href => Ok href
             | None => Throw InvalidURL
             end
        else Ok (path_join host (c :: p) basename)
    | _ => Ok basename
    end ;;
  Ok {| rebasedURL :=
          if pathEnd <? 0 then rebased else rebased ++ slice_from inputURL pathEnd;
        inputPath := inputPath;
        basename := basename |}.

End Rebasing.

(** ** Reading the document tree *)

Definition defaultDoctype : Node := DocumentType (js "html") [] [].

Definition nodeName (n : Node) : jsstring :=
  match n with
  | Element t _ _ => t
  | TextNode _ => js "#text"
  | CommentNode _ => js "#comment"
  | DocumentType _ _ _ => js "#documentType"
  end.

(** [node.tagName], [undefined] on what is not an element. *)
Definition tagNameOf (n : Node) : option jsstring :=
  match n with
  | Element t _ _ => Some t
  | _ => None
  end.

Definition childNodesOf (n : Node) : list Node :=
  match n with
  | Element _ _ kids => kids
  | _ => []
  end.

Definition attrsOf (n : Node) : list Attribute :=
  match n with
  | Element _ a _ => a
  | _ => []
  end.

(** [node.value], [undefined] on what has no text payload. *)
Definition valueOf (n : Node) : option jsstring :=
  match n with
  | TextNode v => Some v
  | _ => None
  end.

(** The assignment [node.childNodes = kids], on an element. *)
Definition setChildNodes (n : Node) (kids : list Node) : Node :=
  match n with
  | Element t a _ => Element t a kids
  | _ => n
  end.

Definition tagIs (n : Node) (tag : jsstring) : bool :=
  match tagNameOf n with
  | Some t => eqb t tag
  | None => false
  end.

(** [isElement(node)], whose argument may be [undefined]. *)
Definition isElement (node : option Node) : bool :=
  match node with
  | Some n => negb (eqb (nodeName n) (js "#comment"))
              && negb (eqb (nodeName n) (js "#text"))
  | None => false
  end.

Definition isTextNode (n : Node) : bool := eqb (nodeName n) (js "#text").

Definition isScript (node : option Node) : bool :=
  isElement node
  && match node with Some n => tagIs n (js "script") | None => false end.

Definition isLinkOrStyle (node : option Node) : bool :=
  isElement node
  && match node with
     | Some n => tagIs n (js "style") || tagIs n (js "link")
     | None => false
     end.

Definition createElement (tagName : jsstring) (attrs : list Attribute) : Node :=
  Element tagName attrs [].

(** [arr.findIndex(pred)], from position [k]. *)
Fixpoint findIndex_from {A : Type} (pred : A -> bool) (l : list A) (k : Z) : Z :=
  match l with
  | [] => -1
  | x :: l' => if pred x then k else findIndex_from pred l' (k + 1)
  end.

Definition findIndex {A : Type} (pred : A -> bool) (l : list A) : Z :=
  findIndex_from pred l 0.

(** The loop of [findLastChildIndex]:
    [for (let i = length; i >= 0; i--) if (predicate(childNodes[i])) return i]
    and [return 0] after it.  The first element read, [childNodes[length]],
    is [undefined]. *)
Fixpoint findLastChildIndex_loop (kids : list Node) (predicate : option Node -> bool)
    (i : nat) : Z :=
  if predicate (nth_error kids i) then Z.of_nat i
  else match i with
       | O => 0
       | S j => findLastChildIndex_loop kids predicate j
       end.

Definition findLastChildIndex (kids : list Node) (predicate : option Node -> bool) : Z :=
  findLastChildIndex_loop kids predicate (length kids).

(** [arr.splice(start, 0, ...items)]: the array after the insertion. *)
Definition splice_insert {A : Type} (l : list A) (start : Z) (items : list A) : list A :=
  let a := Z.to_nat (rel_index (Z.of_nat (length l)) start) in
  firstn a l ++ items ++ skipn a l.

(** The index of the first child element with the given tag name
    ([findChildElement]). *)
Definition findChildElement (kids : list Node) (tag : jsstring) : Z :=
  findIndex (fun n => isElement (Some n) && tagIs n tag) kids.

(** [findChildElement(parent, tag) ?? addEmptyElement(parent, tag)]: the child
    list of the parent afterwards and the position of the element in it. *)
Definition findOrAddElement (kids : list Node) (tag : jsstring) : list Node * nat :=
  let i := findChildElement kids tag in
  if i <? 0 then (kids ++ [createElement tag []], length kids)
  else (kids, Z.to_nat i).

(** The update of the object at position [i] of a child list. *)
Fixpoint update_nth {A : Type} (i : nat) (f : A -> A) (l : list A) : list A :=
  match l, i with
  | [], _ => []
  | x :: l', O => f x :: l'
  | x :: l', S j => x :: update_nth j f l'
  end.

(** [getUrl(node)]: the first attribute named [href] or [src]. *)
Definition isUrlAttr (a : Attribute) : bool :=
  eqb (attr_name a) (js "href") || eqb (attr_name a) (js "src").

Definition getUrl (n : Node) : option Attribute :=
  if isElement (Some n) then find isUrlAttr (attrsOf n) else None.


(** [str.replace(pattern, replacement)] with a string pattern: the first
    occurrence is replaced, and in the replacement [$$], [$&], [$`] and [$']
    stand for a dollar, the match, the text before it and the text after it.
    With a string pattern there are no captures, so every other [$] is kept. *)
Fixpoint getSubstitution (matched before after replacement : jsstring) : jsstring :=
  match replacement with
  | [] => []
  | c :: r =>
      if char_eqb c (ch "$") then
        match r with
        | d :: r' =>
            if char_eqb d (ch "$") then ch "$" :: getSubstitution matched before after r'
            else if char_eqb d (ch "&") then matched ++ getSubstitution matched before after r'
            else if char_eqb d (ch "`") then before ++ getSubstitution matched before after r'
            else if char_eqb d (ch "'") then after ++ getSubstitution matched before after r'
            else c :: getSubstitution matched before after r
        | [] => [c]
        end
      else c :: getSubstitution matched before after r
  end.

Definition replace (text pattern replacement : jsstring) : jsstring :=
  let pos := indexOf text pattern 0 in
  if pos <? 0 then text
  else
    let before := slice text 0 pos in
    let after := slice_from text (pos + len pattern) in
    before ++ getSubstitution pattern before after replacement ++ after.

(** An asset to copy: [[inputPath, outputPath]]. *)
Definition Asset := (jsstring * jsstring)%type.

Section AssetDiscovery.

Variable host : Host.
Variable templatePath absOutDir : jsstring.
Variable publicPath : option jsstring.

(** The body of [for (const tag of tags)], on the attribute list of the tag:
    the first [href]/[src] attribute is the one [getUrl] returns, and its value
    is assigned in place. *)
Fixpoint rebaseAttrs (attrs : list Attribute) : result (list Attribute * list Asset) :=
  match attrs with
  | [] => Ok ([], [])
  | a :: rest =>
      if isUrlAttr a then
        if isAbsoluteOrURL host (attr_value a) then Ok (attrs, [])
        else
          r <- rebaseAssetURL host (attr_value a) templatePath publicPath ;;
          Ok (mkAttr (attr_name a) (rebasedURL r) :: rest,
              [(inputPath r, path_resolve host absOutDir (basename r))])
      else
        '(rest', assets) <- rebaseAttrs rest ;;
        Ok (a :: rest', assets)
  end.

Definition rebaseTag (n : Node) : result (Node * list Asset) :=
  match n with
  | Element t attrs kids =>
      if isElement (Some n) then
        '(attrs', assets) <- rebaseAttrs attrs ;;
        Ok (Element t attrs' kids, assets)
      else Ok (n, [])
  | _ => Ok (n, [])
  end.

(** The tags of one [filter(node => node.nodeName === name)] group, visited in
    the order of the child list. *)
Fixpoint rebaseTags (name : jsstring) (kids : list Node)
    : result (list Node * list Asset) :=
  match kids with
  | [] => Ok ([], [])
  | n :: rest =>
      '(n', a1) <- (if eqb (nodeName n) name then rebaseTag n else Ok (n, [])) ;;
      '(rest', a2) <- rebaseTags name rest ;;
      Ok (n' :: rest', a1 ++ a2)
  end.

(** The body of [for (const url of parseURLs(text.value))]: the state is the
    current [text.value] and the assets pushed so far. *)
Definition rebaseStyleURL (state : jsstring * list Asset) (url : jsstring)
    : result (jsstring * list Asset) :=
  let '(text, assets) := state in
  if negb (truthy (Some url)) || isAbsoluteOrURL host url then Ok (text, assets)
  else
    r <- rebaseAssetURL host url templatePath publicPath ;;
    Ok (replace text url (rebasedURL r),
        assets ++ [(inputPath r, path_resolve host absOutDir (basename r))]).

Fixpoint rebaseStyleURLs (urls : list jsstring) (state : jsstring * list Asset)
    : result (jsstring * list Asset) :=
  match urls with
  | [] => Ok state
  | url :: rest =>
      state' <- rebaseStyleURL state url ;;
      rebaseStyleURLs rest state'
  end.

(** The text of a style element: [parseURLs] is called once, on the value the
    text has when the loop is entered. *)
Definition rebaseStyleText (text : jsstring) : result (jsstring * list Asset) :=
  rebaseStyleURLs (parseURLs text) (text, []).

(** [tag.childNodes.find(isTextNode)] and the assignments to its [value]: the
    first text child of a style element is rewritten. *)
Fixpoint rebaseFirstText (kids : list Node) : result (list Node * list Asset) :=
  match kids with
  | [] => Ok ([], [])
  | n :: rest =>
      if isTextNode n then
        match valueOf n with
        | Some v =>
            '(v', assets) <- rebaseStyleText v ;;
            Ok (TextNode v' :: rest, assets)
        | None => Throw NotAString
        end
      else
        '(rest', assets) <- rebaseFirstText rest ;;
        Ok (n :: rest', assets)
  end.

Definition rebaseStyle (n : Node) : result (Node * list Asset) :=
  match n with
  | Element t attrs kids =>
      if isElement (Some n) then
        '(kids', assets) <- rebaseFirstText kids ;;
        Ok (Element t attrs kids', assets)
      else Ok (n, [])
  | _ => Ok (n, [])
  end.

Fixpoint rebaseStyles (kids : list Node) : result (list Node * list Asset) :=
  match kids with
  | [] => Ok ([], [])
  | n :: rest =>
      '(n', a1) <- (if eqb (nodeName n) (js "style") then rebaseStyle n else Ok (n, [])) ;;
      '(rest', a2) <- rebaseStyles rest ;;
      Ok (n' :: rest', a1 ++ a2)
  end.

(** The block [if (!ignoreAssets) { ... }]: the children of head and body
    after the rewriting, and the assets in the order they are pushed. *)
Definition discoverAssets (ignoreAssets : bool) (head body : list Node)
    : result (list Node * list Node * list Asset) :=
  if ignoreAssets then Ok (head, body, [])
  else
    '(head1, a1) <- rebaseTags (js "link") head ;;
    '(head2, a2) <- rebaseTags (js "script") head1 ;;
    '(body1, a3) <- rebaseTags (js "script") body ;;
    '(head3, a4) <- rebaseStyles head2 ;;
    Ok (head3, body1, a1 ++ a2 ++ a3 ++ a4).

End AssetDiscovery.


(** ** Options and build configuration *)

Inductive Crossorigin := Anonymous | UseCredentials.
Inductive EmitTarget := Head | Body.
Inductive EmitPosition := Above | Below.
Inductive HashAlgorithm := Sha256 | Sha384 | Sha512.

(** [TagPlacement] is the string [`${EmitTarget}-${EmitPosition}`]; the code
    reads it with [startsWith('head')] and [endsWith('below')]. *)
Record TagPlacement := mkPlacement {
  emitTarget : EmitTarget;
  emitPosition : EmitPosition
}.

Definition crossoriginText (c : Crossorigin) : jsstring :=
  match c with
  | Anonymous => js "anonymous"
  | UseCredentials => js "use-credentials"
  end.

Definition hashAlgorithmText (h : HashAlgorithm) : jsstring :=
  match h with
  | Sha256 => js "sha256"
  | Sha384 => js "sha384"
  | Sha512 => js "sha512"
  end.

Definition placement_startsWith_head (p : TagPlacement) : bool :=
  match emitTarget p with Head => true | Body => false end.

Definition placement_endsWith_below (p : TagPlacement) : bool :=
  match emitPosition p with Below => true | Above => false end.

Record HtmlPluginOptions := mkOptions {
  opt_crossorigin : option Crossorigin;
  opt_defer : option bool;
  opt_filename : option jsstring;
  opt_ignoreAssets : option bool;
  opt_integrity : option HashAlgorithm;
  opt_linkPosition : option EmitPosition;
  opt_scriptPlacement : option TagPlacement;
  opt_template : jsstring
}.

Inductive Format := Iife | Cjs | Esm.

(** [entryPoints] is an array of paths or an object keyed by output name. *)
Inductive EntryPoints :=
| EntryArray (paths : list jsstring)
| EntryObject (entries : list (jsstring * jsstring)).

(** The fields of [build.initialOptions] that the plugin reads. *)
Record BuildOptions := mkBuildOptions {
  absWorkingDir : option jsstring;
  entryPoints : option EntryPoints;
  format : option Format;
  publicPath : option jsstring;
  outdir : option jsstring
}.

(** ** The file system *)

(** The state of the file system as one pass meets it: what a read, a stat, a
    digest or a write would answer.  [None] and [false] are rejections. *)
Record FileSystem := mkFS {
  fs_readFile : jsstring -> option jsstring;
  fs_mtimeMs : jsstring -> option Z;
  fs_digest : HashAlgorithm -> jsstring -> option jsstring;  (* base64 digest *)
  fs_mkdir : jsstring -> bool;
  fs_writeFile : jsstring -> jsstring -> bool;
  fs_copyFile : jsstring -> jsstring -> bool
}.

(** The operations a pass issues to the file system. *)
Inductive FsOp :=
| ReadFile (path : jsstring)
| HashFile (path : jsstring)
| Stat (path : jsstring)
| Mkdir (path : jsstring)
| WriteFile (path content : jsstring)
| CopyFile (input output : jsstring).

Definition isWrite (op : FsOp) : bool :=
  match op with
  | Mkdir _ | WriteFile _ _ | CopyFile _ _ => true
  | _ => false
  end.

(** ** Tag synthesis ([createLinkElement], [createScriptElement]) *)

Record CreateElementOptions := mkCreate {
  ce_basedir : jsstring;
  ce_crossorigin : option Crossorigin;
  ce_defer : option bool;
  ce_integrity : option HashAlgorithm;
  ce_outputPath : jsstring;
  ce_publicPath : option jsstring;
  ce_useModuleType : bool
}.

(** [collect(values)]: the values that are not falsy. *)
Definition collect {A : Type} (values : list (option A)) : list A :=
  flat_map (fun v => match v with Some a => [a] | None => [] end) values.

(** [cond && value]. *)
Definition and_then {A : Type} (cond : bool) (value : A) : option A :=
  if cond then Some value else None.

Section TagSynthesis.

Variable host : Host.
Variable fs : FileSystem.

(** [calculateIntegrityHash]; [None] when the read stream fails. *)
Definition calculateIntegrityHash (filePath : jsstring) (integrity : HashAlgorithm)
    : option jsstring :=
  match fs_digest fs integrity filePath with
  | Some digest => Some (hashAlgorithmText integrity ++ js "-" ++ digest)
  | None => None
  end.

(** [integrity && { name: 'integrity', value: await ... }]; the outer [None]
    is the rejection of the awaited digest. *)
Definition integrityAttr (absOutputPath : jsstring) (integrity : option HashAlgorithm)
    : option (option Attribute) :=
  match integrity with
  | None => Some None
  | Some alg =>
      match calculateIntegrityHash absOutputPath alg with
      | Some v => Some (Some (mkAttr (js "integrity") v))
      | None => None
      end
  end.

Definition crossoriginAttr (crossorigin : option Crossorigin) : option Attribute :=
  match crossorigin with
  | Some c => Some (mkAttr (js "crossorigin") (crossoriginText c))
  | None => None
  end.

(** [publicPath ? path.join(publicPath, filename) : `${filename}`]. *)
Definition tagURL (publicPath : option jsstring) (filename : jsstring) : jsstring :=
  match publicPath with
  | Some (c :: p) => path_join host (c :: p) filename
  | _ => filename
  end.

Definition createLinkElement (o : CreateElementOptions) : option Node :=
  let absOutputPath := path_resolve host (ce_basedir o) (ce_outputPath o) in
  let filename := path_basename host absOutputPath in
  let url := tagURL (ce_publicPath o) filename in
  match integrityAttr absOutputPath (ce_integrity o) with
  | None => None
  | Some integrity =>
      Some (createElement (js "link")
              (collect [ Some (mkAttr (js "href") url);
                         Some (mkAttr (js "rel") (js "stylesheet"));
                         crossoriginAttr (ce_crossorigin o);
                         integrity ]))
  end.

Definition createScriptElement (o : CreateElementOptions) : option Node :=
  let absOutputPath := path_resolve host (ce_basedir o) (ce_outputPath o) in
  let filename := path_basename host absOutputPath in
  let url := tagURL (ce_publicPath o) filename in
  match integrityAttr absOutputPath (ce_integrity o) with
  | None => None
  | Some integrity =>
      Some (createElement (js "script")
              (collect [ Some (mkAttr (js "src") url);
                         and_then (ce_useModuleType o) (mkAttr (js "type") (js "module"));
                         and_then (negb (ce_useModuleType o)
                                   && match ce_defer o with Some d => d | None => false end)
                                  (mkAttr (js "defer") []);
                         crossoriginAttr (ce_crossorigin o);
                         integrity ]))
  end.

(** [await Promise.all(outputs.map(create))]: every element, or [None] as soon
    as one creation is rejected. *)
Fixpoint createAll (create : CreateElementOptions -> option Node)
    (os : list CreateElementOptions) : option (list Node) :=
  match os with
  | [] => Some []
  | o :: rest =>
      match create o, createAll create rest with
      | Some n, Some ns => Some (n :: ns)
      | _, _ => None
      end
  end.

End TagSynthesis.

(** The insertion positions computed for the synthesized tags. *)
Definition linkIndex (linkPosition : EmitPosition) (head : list Node) : Z :=
  match linkPosition with
  | Below => findLastChildIndex head isLinkOrStyle + 1
  | Above => findIndex (fun n => isLinkOrStyle (Some n)) head
  end.

Definition scriptIndex (scriptPlacement : TagPlacement) (scriptParent : list Node) : Z :=
  if placement_endsWith_below scriptPlacement
  then findLastChildIndex scriptParent isScript + 1
  else findIndex (fun n => isScript (Some n)) scriptParent.


(** ** The state that outlives a pass *)

(** A JavaScript [Set] of strings: its elements in insertion order. *)
Definition StringSet := list jsstring.

Definition set_has (s : StringSet) (x : jsstring) : bool := existsb (eqb x) s.

Definition set_add (s : StringSet) (x : jsstring) : StringSet :=
  if set_has s x then s else s ++ [x].

Definition set_delete (s : StringSet) (x : jsstring) : StringSet :=
  filter (fun y => negb (eqb y x)) s.

(** [new Set(values)]. *)
Definition set_from (values : list jsstring) : StringSet :=
  fold_left set_add values [].

(** The [Map] from input path to modification time of [cachedCopyFile]. *)
Definition Ledger := list (jsstring * Z).

Fixpoint ledger_get (m : Ledger) (k : jsstring) : option Z :=
  match m with
  | [] => None
  | (k', v) :: m' => if eqb k' k then Some v else ledger_get m' k
  end.

Fixpoint ledger_set (m : Ledger) (k : jsstring) (v : Z) : Ledger :=
  match m with
  | [] => [(k, v)]
  | (k', v') :: m' => if eqb k' k then (k', v) :: m' else (k', v') :: ledger_set m' k v
  end.

(** [outputCache] and the map of [cachedCopyFile]: created once by
    [htmlPlugin(options)], shared by every pass. *)
Record PluginState := mkState {
  outputCache : StringSet;
  copyLedger : Ledger
}.

Definition initialState : PluginState := mkState [] [].

(** ** Change detection *)

(** The body of [for (const output of currentOutputs)]:
    [if (!outputCache.has(output)) { outputCache.add(output); modified = true; }],
    on the cache and the [modified] flag. *)
Definition addStep (acc : StringSet * bool) (output : jsstring) : StringSet * bool :=
  if negb (set_has (fst acc) output) then (set_add (fst acc) output, true) else acc.

Definition addMissing (current : StringSet) (cache : StringSet) (modified : bool)
    : StringSet * bool :=
  fold_left addStep current (cache, modified).

(** The body of [for (const output of outputCache)]:
    [if (!currentOutputs.has(output)) { outputCache.delete(output); modified = true; }].
    The elements of the cache are visited once each, and deleting the visited
    one leaves the others to be visited: the loop runs over the elements the
    cache has when it starts. *)
Definition deleteStep (current : StringSet) (acc : StringSet * bool) (output : jsstring)
    : StringSet * bool :=
  if negb (set_has current output) then (set_delete (fst acc) output, true) else acc.

Definition deleteStale (current : StringSet) (cache : StringSet) (modified : bool)
    : StringSet * bool :=
  fold_left (deleteStep current) cache (cache, modified).

Definition detectChange (current : StringSet) (cache : StringSet) : StringSet * bool :=
  let '(cache1, modified1) := addMissing current cache false in
  deleteStale current cache1 modified1.

(** ** The emitter *)

(** One call of the function returned by [cachedCopyFile]: the ledger after
    it, what it issued, and whether it completed. *)
Definition copyFile (fs : FileSystem) (ledger : Ledger) (input output : jsstring)
    : Ledger * list FsOp * bool :=
  match fs_mtimeMs fs input with
  | None => (ledger, [Stat input], false)
  | Some mtimeMs =>
      match ledger_get ledger input with
      | Some seen =>
          if seen =? mtimeMs then (ledger, [Stat input], true)
          else (ledger_set ledger input mtimeMs,
                [Stat input; CopyFile input output], fs_copyFile fs input output)
      | None =>
          (ledger_set ledger input mtimeMs,
           [Stat input; CopyFile input output], fs_copyFile fs input output)
      end
  end.

Fixpoint copyAssets (fs : FileSystem) (ledger : Ledger) (assets : list Asset)
    : Ledger * list FsOp * bool :=
  match assets with
  | [] => (ledger, [], true)
  | (input, output) :: rest =>
      let '(ledger1, ops1, ok1) := copyFile fs ledger input output in
      let '(ledger2, ops2, ok2) := copyAssets fs ledger1 rest in
      (ledger2, ops1 ++ ops2, ok1 && ok2)
  end.

(** [fsp.mkdir(absOutDir).then(() => fsp.writeFile(file, content))]. *)
Definition writeHTMLOutput (fs : FileSystem) (absOutDir file content : jsstring)
    : list FsOp * bool :=
  if fs_mkdir fs absOutDir
  then ([Mkdir absOutDir; WriteFile file content], fs_writeFile fs file content)
  else ([Mkdir absOutDir], false).

(** ** The plugin: [setup] and the build-end handler *)

(** What [setup] computes once and the handler closes over. *)
Record Context := mkContext {
  ctx_basedir : jsstring;
  ctx_publicPath : option jsstring;
  ctx_absOutDir : jsstring;
  ctx_useModuleType : bool;
  ctx_templatePath : jsstring;
  ctx_entries : list jsstring;
  ctx_templateContent : jsstring
}.

(** How a pass ends. *)
Inductive PassResult :=
| Threw (e : Error)
    (* thrown before change detection; nothing was issued *)
| NotModified
    (* the [return] taken when no output file name has changed *)
| DigestFailed (issued : list FsOp)
    (* an integrity digest was rejected: no tag was spliced, nothing written *)
| Emitted (document : Document) (issued : list FsOp) (completed : bool).
    (* the tags were spliced into [document] and the writes issued;
       [completed] tells whether all of them succeeded *)

Definition issuedOps (r : PassResult) : list FsOp :=
  match r with
  | DigestFailed ops => ops
  | Emitted _ ops _ => ops
  | _ => []
  end.

Definition emissionCompleted (r : PassResult) : bool :=
  match r with
  | Emitted _ _ ok => ok
  | _ => false
  end.

(** The document a pass has spliced tags into, if it did. *)
Definition splicedDocument (r : PassResult) : option Document :=
  match r with
  | Emitted d _ _ => Some d
  | _ => None
  end.

Section Plugin.

Variable host : Host.
Variable options : HtmlPluginOptions.

Definition filename : jsstring :=
  match opt_filename options with
  | Some f => f
  | None => path_basename host (opt_template options)
  end.

Definition ignoreAssets : bool :=
  match opt_ignoreAssets options with Some b => b | None => false end.

Definition linkPosition : EmitPosition :=
  match opt_linkPosition options with Some p => p | None => Below end.

Definition scriptPlacement : TagPlacement :=
  match opt_scriptPlacement options with Some p => p | None => mkPlacement Head Below end.

Definition entryName (entry : jsstring) : jsstring :=
  path_basename_ext host entry (path_extname host entry).

(** [setup(build)]: what it issues to the file system and what it returns;
    [Ok None] is the return without a handler, [Ok (Some ctx)] the
    registration of the build-end handler. *)
Definition setup (fs : FileSystem) (build : BuildOptions)
    : list FsOp * result (option Context) :=
  let basedir :=
    match absWorkingDir build with Some d => d | None => process_cwd host end in
  (* Nothing to do if there are no entry points *)
  match entryPoints build with
  | None => ([], Ok None)
  | Some entryPoints =>
      if negb (truthy (outdir build)) then ([], Throw MissingOutdir)
      else
        let outdir := match outdir build with Some d => d | None => [] end in
        let absOutDir := path_resolve host basedir outdir in
        let useModuleType :=
          match format build with Some Esm => true | _ => false end in
        let templatePath := path_resolve host basedir (opt_template options) in
        let entries :=
          match entryPoints with
          | EntryArray paths => map entryName paths
          | EntryObject entries => map (fun e => entryName (fst e)) entries
          end in
        match fs_readFile fs templatePath with
        | None => ([ReadFile templatePath], Throw (TemplateUnreadable templatePath))
        | Some templateContent =>
            ([ReadFile templatePath],
             Ok (Some (mkContext basedir (publicPath build) absOutDir useModuleType
                         templatePath entries templateContent)))
        end
  end.

Variable ctx : Context.

(** The outputs of the build report that belong to the entry points. *)
Definition matchedOutputs (outputPaths : list jsstring) : list jsstring :=
  filter (fun o => existsb (eqb (entryName o)) (ctx_entries ctx)) outputPaths.

Definition cssOutputs (outputPaths : list jsstring) : list jsstring :=
  filter (fun o => endsWith o (js ".css")) (matchedOutputs outputPaths).

Definition jsOutputs (outputPaths : list jsstring) : list jsstring :=
  filter (fun o => endsWith o (js ".js")) (matchedOutputs outputPaths).

(** [new Set([...cssOutput, ...jsOutput])]. *)
Definition currentOutputs (outputPaths : list jsstring) : StringSet :=
  set_from (cssOutputs outputPaths ++ jsOutputs outputPaths).

Definition createOptions (filePath : jsstring) : CreateElementOptions :=
  mkCreate (ctx_basedir ctx) (opt_crossorigin options) (opt_defer options)
    (opt_integrity options) filePath (ctx_publicPath ctx) (ctx_useModuleType ctx).

(** The reads started by the creation of the elements of [filePaths]. *)
Definition digestOps (filePaths : list jsstring) : list FsOp :=
  match opt_integrity options with
  | Some _ => map (fun f => HashFile (path_resolve host (ctx_basedir ctx) f)) filePaths
  | None => []
  end.

(** The tree of one pass, from [parse(templateContent)] to the end of asset
    discovery: [html], [head] and [body] are the objects at positions [hi],
    [hdi] and [bdi] of their parents' child lists, and [p_head] and [p_body]
    are the child lists of head and body as the pass has left them. *)
Record Prepared := mkPrepared {
  p_docKids : list Node;
  p_hi : nat;
  p_htmlKids : list Node;
  p_hdi : nat;
  p_bdi : nat;
  p_head : list Node;
  p_body : list Node;
  p_assets : list Asset
}.

(** Lines 208-255: parsing, the html, head and body elements, asset discovery. *)
Definition prepare : result Prepared :=
  let document := html_parse host (ctx_templateContent ctx) in
  let '(docKids, hi) := findOrAddElement document (js "html") in
  let html := nth hi docKids defaultDoctype in
  let '(htmlKids1, hdi) := findOrAddElement (childNodesOf html) (js "head") in
  let '(htmlKids, bdi) := findOrAddElement htmlKids1 (js "body") in
  let head := childNodesOf (nth hdi htmlKids defaultDoctype) in
  let body := childNodesOf (nth bdi htmlKids defaultDoctype) in
  '(head, body, assets) <-
    discoverAssets host (ctx_templatePath ctx) (ctx_absOutDir ctx)
      (ctx_publicPath ctx) ignoreAssets head body ;;
  Ok (mkPrepared docKids hi htmlKids hdi bdi head body assets).

(** The document handed to [serialize]: the child lists of head and body are
    written back to their elements, and the doctype is the first child.
    ([unshift] of the default doctype happens, in the source, before asset
    discovery; it moves no element out of its parent.) *)
Definition assemble (p : Prepared) (head body : list Node) : Document :=
  let document :=
    update_nth (p_hi p)
      (fun html =>
         setChildNodes html
           (update_nth (p_hdi p) (fun n => setChildNodes n head)
              (update_nth (p_bdi p) (fun n => setChildNodes n body) (p_htmlKids p))))
      (p_docKids p) in
  (* Add a doctype if it's missing *)
  match find (fun n => eqb (nodeName n) (js "#documentType")) (p_docKids p) with
  | Some _ => document
  | None => defaultDoctype :: document
  end.

(** Lines 315-326: the child lists of head and body after the two splices.
    When scripts go to head, their index is computed on the head that already
    holds the links. *)
Definition spliceTags (p : Prepared) (links scripts : list Node)
    : list Node * list Node :=
  let head := splice_insert (p_head p) (linkIndex linkPosition (p_head p)) links in
  if placement_startsWith_head scriptPlacement
  then (splice_insert head (scriptIndex scriptPlacement head) scripts, p_body p)
  else (head, splice_insert (p_body p) (scriptIndex scriptPlacement (p_body p)) scripts).

(** Lines 284-332: tag synthesis and emission, reached when [modified]. *)
Definition synthesizeAndEmit (fs : FileSystem) (p : Prepared)
    (cssOutput jsOutput : list jsstring) (st : PluginState)
    : PluginState * PassResult :=
  match createAll (createLinkElement host fs) (map createOptions cssOutput) with
  | None => (st, DigestFailed (digestOps cssOutput))
  | Some links =>
      match createAll (createScriptElement host fs) (map createOptions jsOutput) with
      | None => (st, DigestFailed (digestOps cssOutput ++ digestOps jsOutput))
      | Some scripts =>
          let '(head, body) := spliceTags p links scripts in
          let document := assemble p head body in
          let '(writeOps, writeOk) :=
            writeHTMLOutput fs (ctx_absOutDir ctx)
              (path_resolve host (ctx_absOutDir ctx) filename)
              (html_serialize host document) in
          let '(ledger, copyOps, copyOk) :=
            copyAssets fs (copyLedger st) (p_assets p) in
          (mkState (outputCache st) ledger,
           Emitted document
             (digestOps cssOutput ++ digestOps jsOutput ++ writeOps ++ copyOps)
             (writeOk && copyOk))
      end
  end.

(** [build.onEnd(async result => ...)]: one pass.  [metafile] is
    [Object.keys(result.metafile.outputs)], or [None] without a metafile. *)
Definition onEnd (fs : FileSystem) (metafile : option (list jsstring))
    (st : PluginState) : PluginState * PassResult :=
  match metafile with
  | None => (st, Threw MissingMetafile)
  | Some outputPaths =>
      match prepare with
      | Throw e => (st, Threw e)
      | Ok p =>
          (* Check whether any of the output file names have changed since
             the last build finished *)
          let '(cache, modified) :=
            detectChange (currentOutputs outputPaths) (outputCache st) in
          let st := mkState cache (copyLedger st) in
          (* If no output filenames have changed, then there is no need to
             emit the HTML *)
          if negb modified then (st, NotModified)
          else synthesizeAndEmit fs p (cssOutputs outputPaths) (jsOutputs outputPaths) st
      end
  end.

(** A sequence of passes, each with the file system and the build report it
    meets: the state after the last one and the result of each. *)
Fixpoint runPasses (passes : list (FileSystem * option (list jsstring)))
    (st : PluginState) : PluginState * list PassResult :=
  match passes with
  | [] => (st, [])
  | (fs, metafile) :: rest =>
      let '(st1, r) := onEnd fs metafile st in
      let '(st2, rs) := runPasses rest st1 in
      (st2, r :: rs)
  end.

(** Two observers of a run, for stating what the cache holds.  The matched
    outputs of the latest pass that reached change detection (it had a build
    report and asset discovery threw nothing), and the matched outputs of the
    latest pass whose emission completed; [initial] stands before the first
    such pass. *)
Definition reachedDetection (r : PassResult) : bool :=
  match r with
  | Threw _ => false
  | _ => true
  end.

Fixpoint lastDetected (passes : list (FileSystem * option (list jsstring)))
    (results : list PassResult) (initial : list jsstring) : list jsstring :=
  match passes, results with
  | (_, metafile) :: passes', r :: results' =>
      lastDetected passes' results'
        (match metafile with
         | Some outputPaths =>
             if reachedDetection r
             then cssOutputs outputPaths ++ jsOutputs outputPaths
             else initial
         | None => initial
         end)
  | _, _ => initial
  end.

Fixpoint lastCompleted (passes : list (FileSystem * option (list jsstring)))
    (results : list PassResult) (initial : list jsstring) : list jsstring :=
  match passes, results with
  | (_, metafile) :: passes', r :: results' =>
      lastCompleted passes' results'
        (match metafile with
         | Some outputPaths =>
             if emissionCompleted r
             then cssOutputs outputPaths ++ jsOutputs outputPaths
             else initial
         | None => initial
         end)
  | _, _ => initial
  end.

(** A pass whose emission was started and did not complete. *)
Definition emissionFailed (r : PassResult) : bool :=
  match r with
  | DigestFailed _ => true
  | Emitted _ _ completed => negb completed
  | _ => false
  end.

End Plugin.


(** ** A host to evaluate the plugin on

    Node's POSIX [path] functions, written after their documentation, and a
    [URL] join restricted to a hierarchical base without query or fragment.
    The theorems below hold for every host; this one serves to run the
    definitions on concrete inputs. *)

Module Posix.

Definition slash : char := ch "/".
Definition dot : char := ch ".".

Fixpoint splitOn (sep : char) (s : jsstring) : list jsstring :=
  match s with
  | [] => [[]]
  | c :: s' =>
      let r := splitOn sep s' in
      if char_eqb c sep then [] :: r
      else match r with
           | seg :: rest => (c :: seg) :: rest
           | [] => [[c]]
           end
  end.

Fixpoint joinWith (sep : char) (segs : list jsstring) : jsstring :=
  match segs with
  | [] => []
  | [s] => s
  | s :: rest => s ++ sep :: joinWith sep rest
  end.

Definition isAbsolute (p : jsstring) : bool :=
  match p with
  | c :: _ => char_eqb c slash
  | [] => false
  end.

(** The segments of a path without the empty ones and [.], with [..] resolved;
    the accumulator holds the kept segments, last first. *)
Definition normalizeSegments (allowAboveRoot : bool) (segs : list jsstring) : list jsstring :=
  rev (fold_left
         (fun acc seg =>
            if eqb seg [] || eqb seg [dot] then acc
            else if eqb seg [dot; dot] then
              match acc with
              | last :: acc' =>
                  if eqb last [dot; dot] then seg :: acc else acc'
              | [] => if allowAboveRoot then [seg] else []
              end
            else seg :: acc)
         segs []).

Definition normalizeString (p : jsstring) (allowAboveRoot : bool) : jsstring :=
  joinWith slash (normalizeSegments allowAboveRoot (splitOn slash p)).

Definition endsWithSlash (p : jsstring) : bool :=
  match rev p with
  | c :: _ => char_eqb c slash
  | [] => false
  end.

Definition normalize (p : jsstring) : jsstring :=
  match p with
  | [] => [dot]
  | _ =>
      let s := normalizeString p (negb (isAbsolute p)) in
      match s with
      | [] => if isAbsolute p then [slash]
              else if endsWithSlash p then [dot; slash] else [dot]
      | _ =>
          let s := if endsWithSlash p then s ++ [slash] else s in
          if isAbsolute p then slash :: s else s
      end
  end.

Definition join (a b : jsstring) : jsstring :=
  match a, b with
  | [], [] => [dot]
  | [], _ => normalize b
  | _, [] => normalize a
  | _, _ => normalize (a ++ slash :: b)
  end.

(** [resolve(a, b)]: the arguments are taken from the right, then the
    current directory, until the path is absolute; empty ones are skipped. *)
Definition resolveStep (acc : jsstring * bool) (p : jsstring) : jsstring * bool :=
  if snd acc then acc
  else match p with
       | [] => acc
       | _ => (p ++ slash :: fst acc, isAbsolute p)
       end.

Definition resolve (cwd a b : jsstring) : jsstring :=
  let r := fold_left resolveStep [b; a; cwd] ([], false) in
  let s := normalizeString (fst r) (negb (snd r)) in
  if snd r then slash :: s
  else match s with [] => [dot] | _ => s end.

Fixpoint dropWhileSlash (s : jsstring) : jsstring :=
  match s with
  | c :: s' => if char_eqb c slash then dropWhileSlash s' else s
  | [] => []
  end.

Fixpoint takeUntilSlash (s : jsstring) : jsstring :=
  match s with
  | c :: s' => if char_eqb c slash then [] else c :: takeUntilSlash s'
  | [] => []
  end.

Fixpoint dropUntilSlash (s : jsstring) : jsstring :=
  match s with
  | c :: s' => if char_eqb c slash then s else dropUntilSlash s'
  | [] => []
  end.

(** The last segment, trailing slashes ignored. *)
Definition basename (p : jsstring) : jsstring :=
  rev (takeUntilSlash (dropWhileSlash (rev p))).

Definition basename_ext (p ext : jsstring) : jsstring :=
  let base := basename p in
  match ext with
  | [] => base
  | _ =>
      if eqb ext p then []
      else if endsWith base ext && negb (eqb base ext)
      then firstn (length base - length ext) base
      else base
  end.

Fixpoint takeUntilDot (s : jsstring) : jsstring :=
  match s with
  | c :: s' => if char_eqb c dot then [] else c :: takeUntilDot s'
  | [] => []
  end.

(** From the last dot of the last segment, unless that dot starts it. *)
Definition extname (p : jsstring) : jsstring :=
  let base := basename p in
  let tail := rev (takeUntilDot (rev base)) in
  if (length tail <? length base)%nat
     && negb (length tail + 1 =? length base)%nat
     && negb (eqb base [dot; dot])
  then dot :: tail
  else [].

(** Up to the slash before the last segment; the first character is never
    taken for that slash. *)
Definition dirname (p : jsstring) : jsstring :=
  match p with
  | [] => [dot]
  | c :: rest =>
      match dropUntilSlash (dropWhileSlash (rev rest)) with
      | _ :: before =>
          match before with
          | [] => if isAbsolute p then [slash; slash] else [c]
          | _ => c :: rev before
          end
      | [] => if isAbsolute p then [slash] else [dot]
      end
  end.

(** A stand-in for [new URL(relative, base).href], for the examples only, on
    a base [scheme://authority/path] without query or fragment and a relative
    reference that is a plain file name: the file name replaces the last
    segment of the path, and a base without a scheme before [://] is
    rejected.  It is not the WHATWG parser: it does no percent-encoding and
    no case folding of the host, and it rejects no other malformed base.  No
    theorem below depends on its values; the theorems take [URL_href] as a
    parameter of the host. *)
Definition joinURL (relative base : jsstring) : option jsstring :=
  let i := indexOf base (js "://") 0 in
  if i <=? 0 then None
  else
    let origin_len := i + 3 in
    let after := slice_from base origin_len in
    let slashPos := indexOf after [slash] 0 in
    if slashPos <? 0 then Some (base ++ slash :: relative)
    else
      let dir := rev (dropUntilSlash (rev base)) in
      Some (dir ++ relative).

End Posix.

(** The host with Node's POSIX paths, for a given current directory and
    given [parse] and [serialize]. *)
Definition posixHost (cwd : jsstring) (parse : jsstring -> Document)
    (serialize : Document -> jsstring) : Host :=
  mkHost Posix.isAbsolute Posix.basename Posix.basename_ext Posix.extname
    Posix.dirname Posix.join (Posix.resolve cwd) Posix.joinURL cwd parse serialize.

(** A template as parse5 returns it:
    [<!DOCTYPE html><html><head><meta charset="utf-8"><title>App</title>
     <base href="/"></head><body><div id="root"></div></body></html>]. *)
Definition sampleHead : list Node :=
  [ Element (js "meta") [mkAttr (js "charset") (js "utf-8")] [];
    Element (js "title") [] [TextNode (js "App")];
    Element (js "base") [mkAttr (js "href") (js "/")] [] ].

Definition sampleBody : list Node :=
  [ Element (js "div") [mkAttr (js "id") (js "root")] [] ].

Definition sampleDocument : Document :=
  [ DocumentType (js "html") [] [];
    Element (js "html") []
      [ Element (js "head") [] sampleHead;
        Element (js "body") [] sampleBody ] ].

(** The host of the examples: the project lives in [/proj] and the template is
    [sampleDocument]; the serializer is left out (it writes the empty text). *)
Definition sampleHost : Host :=
  posixHost (js "/proj") (fun _ => sampleDocument) (fun _ => []).

(** A file system on which everything succeeds, and one on which writing a
    file fails. *)
Definition goodFS : FileSystem :=
  mkFS (fun _ => Some []) (fun _ => Some 1) (fun _ _ => Some (js "AAAA"))
    (fun _ => true) (fun _ _ => true) (fun _ _ => true).

Definition readOnlyFS : FileSystem :=
  mkFS (fun _ => Some []) (fun _ => Some 1) (fun _ _ => Some (js "AAAA"))
    (fun _ => true) (fun _ _ => false) (fun _ _ => false).

Definition sampleOptions : HtmlPluginOptions :=
  mkOptions None None None None None None None (js "src/index.html").

Definition sampleBuild : BuildOptions :=
  mkBuildOptions None (Some (EntryArray [js "src/app.ts"])) None None (Some (js "dist")).

Definition sampleContext : Context :=
  mkContext (js "/proj") None (js "/proj/dist") false (js "/proj/src/index.html")
    [js "app"] [].


(** The options of a script for [dist/app.js] in an ESM build with
    [defer: true], and the element synthesized for them. *)
Definition esmDeferOptions : CreateElementOptions :=
  mkCreate (js "/proj") None (Some true) None (js "dist/app.js") None true.

Definition esmDeferScript : Node :=
  Element (js "script")
    [mkAttr (js "src") (js "app.js"); mkAttr (js "type") (js "module")] [].

(** The options of a script for [dist/app.js] in a build that is not ESM,
    with [defer: true] and without a [defer] option, and the elements
    synthesized for them. *)
Definition iifeDeferOptions : CreateElementOptions :=
  mkCreate (js "/proj") None (Some true) None (js "dist/app.js") None false.

Definition iifeDeferScript : Node :=
  Element (js "script")
    [mkAttr (js "src") (js "app.js"); mkAttr (js "defer") []] [].

Definition iifeOptions : CreateElementOptions :=
  mkCreate (js "/proj") None None None (js "dist/app.js") None false.

Definition iifeScript : Node :=
  Element (js "script") [mkAttr (js "src") (js "app.js")] [].

(** The options of a tag for [dist/app.js] under an absolute-URL public path. *)
Definition cdnOptions : CreateElementOptions :=
  mkCreate (js "/proj") None None None (js "dist/app.js")
    (Some (js "https://cdn.example.com/")) false.

(** The link and the script synthesized for them: [path.join] has normalized
    the two slashes of the scheme separator to one. *)
Definition cdnLink : Node :=
  Element (js "link")
    [ mkAttr (js "href") (js "https:/cdn.example.com/app.js");
      mkAttr (js "rel") (js "stylesheet") ] [].

Definition cdnScript : Node :=
  Element (js "script") [mkAttr (js "src") (js "https:/cdn.example.com/app.js")] [].

(** A build configuration without entry points and without output directory,
    and one with entry points only. *)
Definition emptyBuild : BuildOptions := mkBuildOptions None None None None None.

Definition noOutdirBuild : BuildOptions :=
  mkBuildOptions None (Some (EntryArray [js "src/app.ts"])) None None None.


(** ** The split of a URL, as the specification words it

    The path of a URL ends before the earliest [?] or [#]; what follows, from
    that character on, is the suffix.  [rebaseAssetURL] computes the split
    with two [indexOf] and a minimum; theorem [rebaseAssetURL_splits] relates
    the two. *)

Definition isQueryOrHash (c : char) : bool :=
  char_eqb (ch "?") c || char_eqb (ch "#") c.

Fixpoint pathPart (url : jsstring) : jsstring :=
  match url with
  | [] => []
  | c :: rest => if isQueryOrHash c then [] else c :: pathPart rest
  end.

Fixpoint suffixPart (url : jsstring) : jsstring :=
  match url with
  | [] => []
  | c :: rest => if isQueryOrHash c then url else suffixPart rest
  end.

(** An image next to the template's parent directory, with a query and a
    fragment. *)
Definition catURL : jsstring := js "../img/cat.png?v=1#top".


(** ** The URLs asset discovery visits

    The loops of lines 225-254 visit the [href] or [src] of the link elements
    of head, of the script elements of head and of the script elements of
    body, and then the payloads scanned from the first text of each style
    element of head.  A discovered URL is listed with the loop that visits
    it, in the order of the visits. *)

Inductive Origin := FromTag | FromStyle.

Definition Discovered := (Origin * jsstring)%type.

Section Queued.

Variable host : Host.
Variable templatePath absOutDir : jsstring.
Variable publicPath : option jsstring.

(** The pair pushed for a rebased URL: [[inputPath, path.resolve(absOutDir, basename)]]. *)
Definition assetOf (r : Rebased) : Asset :=
  (inputPath r, path_resolve host absOutDir (basename r)).

(** [getUrl(tag)], for the tags of one [filter(node => node.nodeName === name)]
    group that have such an attribute. *)
Definition tagURLs (name : jsstring) (kids : list Node) : list Discovered :=
  flat_map
    (fun n =>
       if eqb (nodeName n) name
       then match getUrl n with
            | Some a => [(FromTag, attr_value a)]
            | None => []
            end
       else [])
    kids.

(** [isElement(tag) && tag.childNodes.find(isTextNode)]. *)
Definition styleTextNode (n : Node) : option Node :=
  if isElement (Some n) then find isTextNode (childNodesOf n) else None.

(** [parseURLs(text.value)], for a style element with a text. *)
Definition styleURLsOf (n : Node) : list Discovered :=
  match styleTextNode n with
  | Some t =>
      match valueOf t with
      | Some v => map (pair FromStyle) (parseURLs v)
      | None => []
      end
  | None => []
  end.

Definition styleURLs (kids : list Node) : list Discovered :=
  flat_map (fun n => if eqb (nodeName n) (js "style") then styleURLsOf n else []) kids.

Definition discovered (head body : list Node) : list Discovered :=
  tagURLs (js "link") head ++ tagURLs (js "script") head
  ++ tagURLs (js "script") body ++ styleURLs head.

(** The guards of the two loops: [!url || isAbsoluteOrURL(url.value)], where
    [url] is the attribute that was found, and [!url || isAbsoluteOrURL(url)],
    where [url] is the scanned text. *)
Definition skipped (d : Discovered) : bool :=
  match fst d with
  | FromTag => isAbsoluteOrURL host (snd d)
  | FromStyle => negb (truthy (Some (snd d))) || isAbsoluteOrURL host (snd d)
  end.

Definition isLocal (d : Discovered) : bool := negb (skipped d).

(** The rebaser accepts the URL, and the pair pushed for it. *)
Definition rebasable (d : Discovered) : Prop :=
  exists r, rebaseAssetURL host (snd d) templatePath publicPath = Ok r.

Definition queuedAs (d : Discovered) (a : Asset) : Prop :=
  exists r, rebaseAssetURL host (snd d) templatePath publicPath = Ok r /\ a = assetOf r.

(** The assignment [url.value = v], on the attribute [getUrl] returns. *)
Fixpoint setUrlValue (attrs : list Attribute) (v : jsstring) : list Attribute :=
  match attrs with
  | [] => []
  | a :: rest =>
      if isUrlAttr a then mkAttr (attr_name a) v :: rest
      else a :: setUrlValue rest v
  end.

Definition setUrl (n : Node) (v : jsstring) : Node :=
  match n with
  | Element t attrs kids => Element t (setUrlValue attrs v) kids
  | _ => n
  end.

(** What the tag loop leaves of a tag [n]: the tag itself when it has no URL
    or a skipped one, and the tag with the rebased URL assigned otherwise. *)
Definition tagOutcome (n n' : Node) : Prop :=
  match getUrl n with
  | None => n' = n
  | Some a =>
      if isAbsoluteOrURL host (attr_value a) then n' = n
      else exists r,
          rebaseAssetURL host (attr_value a) templatePath publicPath = Ok r
          /\ n' = setUrl n (rebasedURL r)
  end.

(** The assignment [text.value = v], on the text child that
    [childNodes.find(isTextNode)] returns. *)
Fixpoint setFirstText (kids : list Node) (v : jsstring) : list Node :=
  match kids with
  | [] => []
  | n :: rest =>
      if isTextNode n then TextNode v :: rest else n :: setFirstText rest v
  end.

Definition setStyleText (n : Node) (v : jsstring) : Node :=
  match n with
  | Element t attrs kids => Element t attrs (setFirstText kids v)
  | _ => n
  end.

(** [text.value.replace(url, rebasedURL)], for a URL the rebaser accepts. *)
Definition writeLocal (text : jsstring) (d : Discovered) : jsstring :=
  match rebaseAssetURL host (snd d) templatePath publicPath with
  | Ok r => replace text (snd d) (rebasedURL r)
  | Throw _ => text
  end.

(** What the style loop leaves of a style element [n]: the element itself
    when it has no text or when every URL scanned from its text is skipped;
    otherwise its text is the result of one [replace] per scanned URL that is
    not skipped, in the order of the scan. *)
Definition styleOutcome (n n' : Node) : Prop :=
  (Forall (fun d => skipped d = true) (styleURLsOf n) -> n' = n)
  /\ match styleTextNode n with
     | None => n' = n
     | Some t =>
         exists v,
           valueOf t = Some v
           /\ n' = setStyleText n
                     (fold_left writeLocal
                        (filter isLocal (map (pair FromStyle) (parseURLs v))) v)
     end.

(** The text found in a style element has a [value]. *)
Definition textReadable (n : Node) : Prop :=
  match styleTextNode n with
  | Some t => valueOf t <> None
  | None => True
  end.

Definition headOutcome (n n' : Node) : Prop :=
  if eqb (nodeName n) (js "link") || eqb (nodeName n) (js "script") then tagOutcome n n'
  else if eqb (nodeName n) (js "style") then styleOutcome n n'
  else n' = n.

Definition bodyOutcome (n n' : Node) : Prop :=
  if eqb (nodeName n) (js "script") then tagOutcome n n' else n' = n.

End Queued.

(** A pass over the tags of one name keeps every name and touches no node of
    another name, so the URLs of the later groups are those of the template. *)
Definition untouched (name : jsstring) (n n' : Node) : Prop :=
  nodeName n' = nodeName n /\ (eqb (nodeName n) name = false -> n' = n).


(** A style text with an empty [url()], and one whose URLs are an absolute URL
    and a file name that occurs inside it. *)
Definition emptyUrlStyle : jsstring := js "a{background:url()}".

Definition remoteStyle : jsstring :=
  js "a{background:url(http://x.org/a.png)} b{background:url(a.png)}".

(** A head with a local icon and a remote style sheet. *)
Definition iconLink : Node :=
  Element (js "link") [mkAttr (js "rel") (js "icon"); mkAttr (js "href") (js "favicon.ico")] [].

Definition remoteLink : Node :=
  Element (js "link")
    [mkAttr (js "rel") (js "stylesheet"); mkAttr (js "href") (js "http://x.org/s.css")] [].


(** Runs of the sample plugin: a build whose report lists [dist/app.js], met
    twice by a file system that works, and met by one that cannot write. *)
Definition appReport : option (list jsstring) := Some [js "dist/app.js"].

Definition goodRun : list (FileSystem * option (list jsstring)) :=
  [(goodFS, appReport); (goodFS, appReport)].

Definition failingRun : list (FileSystem * option (list jsstring)) :=
  [(readOnlyFS, appReport); (goodFS, appReport)].

(** The state in which the cache holds [dist/app.js]. *)
Definition appCached : PluginState := mkState [js "dist/app.js"] [].


(** A head that already holds a style sheet link, and a body that already
    holds a script. *)
Definition styleLink : Node :=
  Element (js "link")
    [mkAttr (js "rel") (js "stylesheet"); mkAttr (js "href") (js "a.css")] [].

Definition vendorScript : Node :=
  Element (js "script") [mkAttr (js "src") (js "vendor.js")] [].

Definition newLink : Node :=
  Element (js "link")
    [mkAttr (js "href") (js "app.css"); mkAttr (js "rel") (js "stylesheet")] [].

Definition newScript : Node :=
  Element (js "script") [mkAttr (js "src") (js "app.js")] [].


(** The child list of the first child element named [tag], as
    [findChildElement(parent, tag).childNodes] reads it; [None] when there is
    no such child. *)
Definition childrenOfChild (kids : list Node) (tag : jsstring) : option (list Node) :=
  let i := findChildElement kids tag in
  if i <? 0 then None
  else option_map childNodesOf (nth_error kids (Z.to_nat i)).

(** The test of [document.childNodes.find(node => node.nodeName === '#documentType')]. *)
Definition isDocumentType (n : Node) : bool := eqb (nodeName n) (js "#documentType").

(** A fragment as parse5 could hand it over without html element and
    without doctype. *)
Definition fragmentKids : list Node :=
  [ CommentNode (js "generated"); Element (js "div") [] [TextNode (js "x")] ].


(** The test that [findChildElement(parent, tag)] makes on a child. *)
Definition namedElement (tag : jsstring) (n : Node) : bool :=
  isElement (Some n) && tagIs n tag.


(** What [prepare] computes for the sample plugin. *)
Definition samplePrepared : Prepared :=
  mkPrepared sampleDocument 1
    [Element (js "head") [] sampleHead; Element (js "body") [] sampleBody]
    0 1 sampleHead sampleBody [].

(** A build report with a style sheet, a script, a source map and the script
    of another entry. *)
Definition mixedReport : list jsstring :=
  [js "dist/app.css"; js "dist/app.js"; js "dist/app.js.map"; js "dist/other.js"].


(** The test that an operation is a copy of the file [input]. *)
Definition isCopyOf (input : jsstring) (op : FsOp) : bool :=
  match op with
  | CopyFile i _ => eqb i input
  | _ => false
  end.

(** Two tags that refer to the same image, queued for two outputs. *)
Definition twiceQueued : list Asset :=
  [ (js "/proj/img/cat.png", js "/proj/dist/cat.png");
    (js "/proj/src/favicon.ico", js "/proj/dist/favicon.ico");
    (js "/proj/img/cat.png", js "/proj/dist/cat.png") ].


(** What asset discovery leaves of a node: its name, the names of its
    attributes and the names of its children, in order. *)
Definition skeleton (n : Node) : jsstring * list jsstring * list jsstring :=
  (nodeName n, map attr_name (attrsOf n), map nodeName (childNodesOf n)).

(** A head with the local icon, the remote style sheet and an inline style. *)
Definition styledHead : list Node :=
  [ iconLink; remoteLink; Element (js "style") [] [TextNode remoteStyle] ].

(** A style text whose URLs are a data URI, an empty one and a local image;
    a head with the local icon, the remote style sheet and that style; and
    the same head as asset discovery under the public path [/public] leaves
    it. *)
Definition mixedStyle : jsstring :=
  js "a{background:url(data:image/gif;base64,AAAA)} b{background:url()} c{background:url(img/bg.png)}".

Definition mixedHead : list Node :=
  [ iconLink; remoteLink; Element (js "style") [] [TextNode mixedStyle] ].

Definition mixedHeadAfter : list Node :=
  [ Element (js "link")
      [mkAttr (js "rel") (js "icon"); mkAttr (js "href") (js "/public/favicon.ico")] [];
    remoteLink;
    Element (js "style") []
      [TextNode
         (js "a{background:url(data:image/gif;base64,AAAA)} b{background:url()} c{background:url(/public/bg.png)}")] ].

Definition mixedAssets : list Asset :=
  [ (js "/proj/src/favicon.ico", js "/proj/dist/favicon.ico");
    (js "/proj/src/img/bg.png", js "/proj/dist/bg.png") ].

(** ** The template of a pass, and the document it writes *)

(** The child lists of head and body when asset discovery starts (lines
    208-211). *)
Definition templateParts (host : Host) (ctx : Context) : list Node * list Node :=
  let document := html_parse host (ctx_templateContent ctx) in
  let '(docKids, hi) := findOrAddElement document (js "html") in
  let html := nth hi docKids defaultDoctype in
  let '(htmlKids1, hdi) := findOrAddElement (childNodesOf html) (js "head") in
  let '(htmlKids, bdi) := findOrAddElement htmlKids1 (js "body") in
  (childNodesOf (nth hdi htmlKids defaultDoctype),
   childNodesOf (nth bdi htmlKids defaultDoctype)).

(** The URLs of the template that asset discovery visits and does not skip,
    in the order of the visits; none with [ignoreAssets]. *)
Definition templateURLs (host : Host) (options : HtmlPluginOptions) (ctx : Context)
    : list Discovered :=
  if ignoreAssets options then []
  else filter (isLocal host)
         (discovered (fst (templateParts host ctx)) (snd (templateParts host ctx))).

(** The document of a pass once [links] and [scripts] are spliced in (lines
    315-326), as it is handed to [serialize]. *)
Definition splicedWith (options : HtmlPluginOptions) (p : Prepared)
    (links scripts : list Node) : Document :=
  let '(head, body) := spliceTags options p links scripts in
  assemble p head body.

(** A serializer for the examples, which shows every node of the document:
    elements are written with their attributes, unquoted, and always with an
    end tag.  It is not parse5's [serialize]. *)
Fixpoint outline (n : Node) : jsstring :=
  match n with
  | Element t attrs kids =>
      js "<" ++ t
      ++ flat_map (fun a => js " " ++ attr_name a ++ js "=" ++ attr_value a) attrs
      ++ js ">" ++ flat_map outline kids ++ js "</" ++ t ++ js ">"
  | TextNode v => v
  | CommentNode v => js "<!--" ++ v ++ js "-->"
  | DocumentType name _ _ => js "<!DOCTYPE " ++ name ++ js ">"
  end.

(** A template whose head holds the local icon and the remote style sheet,
    the host that parses every template to it, and the page written for it
    once the icon is rebased and the script for [dist/app.js] is spliced in. *)
Definition iconDocument : Document :=
  [ DocumentType (js "html") [] [];
    Element (js "html") []
      [ Element (js "head") [] [iconLink; remoteLink];
        Element (js "body") [] [] ] ].

Definition iconHost : Host :=
  posixHost (js "/proj") (fun _ => iconDocument) (flat_map outline).

Definition iconPage : jsstring :=
  js "<!DOCTYPE html><html><head><link rel=icon href=favicon.ico></link><script src=app.js></script><link rel=stylesheet href=http://x.org/s.css></link></head><body></body></html>".

(** * Properties *)

(** ** The scanner terminates, with linear work *)

Section ScannerTermination.

Variable text : jsstring.

Lemma charAt_Some (i : Z) (c : char) :
  charAt text i = Some c -> 0 <= i < len text.
Proof.
  unfold charAt, len. destruct (Z.ltb_spec i 0) as [Hi | Hi]; [discriminate |].
  intros H. assert (Hn : nth_error text (Z.to_nat i) <> None) by congruence.
  apply nth_error_Some in Hn. lia.
Qed.

Lemma test_ws_in_range (i : Z) :
  test_ws (charAt text i) = true -> 0 <= i < len text.
Proof.
  destruct (charAt text i) as [c |] eqn:E; [| discriminate].
  intros _. eapply charAt_Some; eassumption.
Qed.

(** The closing tokens are not white space, so the [skipWhitespace] call made
    at the position of a closing token never advances. *)
Lemma closing_not_ws (x k : option char) :
  strict_eq x (closingToken k) = true -> x <> None -> test_ws x = false.
Proof.
  destruct x as [c |]; [| congruence]. intros H _.
  destruct k as [d |]; [| discriminate].
  unfold closingToken, strict_eq, char_eqb in H.
  repeat match type of H with
         | context [if ?b then _ else _] => destruct b
         end;
    try discriminate; apply N.eqb_eq in H; subst; reflexivity.
Qed.

Lemma skipWhitespace_loop_ok (gas : nat) :
  forall (index offset : Z) (ticks : nat),
    Z.of_nat gas > Z.max 0 (len text - (index + offset)) ->
    exists off',
      skipWhitespace_loop gas text index offset ticks
        = Some (off', (ticks + Z.to_nat (off' - offset) + 1)%nat)
      /\ offset <= off'
      /\ index + off' <= Z.max (len text) (index + offset).
Proof.
  induction gas as [| gas IH]; intros index offset ticks Hgas; [lia |].
  simpl. destruct (test_ws (charAt text (index + offset))) eqn:E.
  - apply test_ws_in_range in E.
    destruct (IH index (offset + 1) (S ticks)) as (off' & Hrun & Hle & Hup); [lia |].
    exists off'. rewrite Hrun. repeat split; try lia.
    do 2 f_equal. lia.
  - exists offset. repeat split; try lia.
    do 2 f_equal. lia.
Qed.

Lemma skipWhitespace_ok (gas : nat) (index : Z) (ticks : nat) :
  Z.of_nat gas > Z.max 0 (len text - index) ->
  exists ws,
    skipWhitespace gas text index ticks = Some (ws, (ticks + Z.to_nat ws + 1)%nat)
    /\ 0 <= ws
    /\ index + ws <= Z.max (len text) index.
Proof.
  intros Hgas. unfold skipWhitespace.
  destruct (skipWhitespace_loop_ok gas index 0 ticks) as (ws & Hrun & Hle & Hup).
  { replace (index + 0) with index by lia. exact Hgas. }
  exists ws. rewrite Hrun. replace (ws - 0) with ws by lia.
  replace (index + 0) with index in Hup by lia. auto.
Qed.

Lemma skipWhitespace_at_closing (gas : nat) (index : Z) (ticks : nat) (k : option char) :
  strict_eq (charAt text index) (closingToken k) = true ->
  charAt text index <> None ->
  skipWhitespace (S gas) text index ticks = Some (0, S ticks).
Proof.
  intros Heq Hdef. unfold skipWhitespace. simpl.
  replace (index + 0) with index by lia.
  rewrite (closing_not_ws _ _ Heq Hdef). reflexivity.
Qed.

Lemma charAt_in_range (i : Z) : 0 <= i < len text -> charAt text i <> None.
Proof.
  intros Hi. unfold charAt, len in *.
  destruct (Z.ltb_spec i 0); [lia |].
  apply nth_error_Some. lia.
Qed.

Lemma capture_loop_ok (gas : nat) :
  forall s : capture,
    0 <= c_index s <= len text ->
    Z.of_nat gas > len text - c_index s ->
    exists s',
      capture_loop gas text s = Some s'
      /\ c_index s <= c_index s' <= len text
      /\ Z.of_nat (c_ticks s') <= Z.of_nat (c_ticks s) + 2 * (c_index s' - c_index s).
Proof.
  induction gas as [| gas IH]; intros s Hidx Hgas; [lia |].
  cbn [capture_loop].
  destruct (negb (0 <? Z.of_nat (length (c_stack s))) || negb (c_index s <? len text)) eqn:Hexit.
  - exists s. split; [reflexivity | lia].
  - apply orb_false_elim in Hexit. destruct Hexit as [_ Hlt].
    apply negb_false_iff, Z.ltb_lt in Hlt.
    destruct (strict_eq (charAt text (c_index s)) (closingToken (top (c_stack s)))) eqn:Hclose.
    + destruct gas as [| gas']; [lia |].
      rewrite (skipWhitespace_at_closing gas' _ _ _ Hclose)
        by (apply charAt_in_range; lia).
      destruct (IH (mkCapture (c_index s + 0 + 1) (c_end s) (pop (c_stack s)) (S (S (c_ticks s)))))
        as (s' & Hrun & Hi & Ht); cbn [c_index c_end c_stack c_ticks] in *; try lia.
      exists s'. rewrite Hrun. split; [reflexivity | lia].
    + destruct (IH (mkCapture (c_index s + 1) (c_end s + 1) (c_stack s) (S (c_ticks s))))
        as (s' & Hrun & Hi & Ht); cbn [c_index c_end c_stack c_ticks] in *; try lia.
      exists s'. rewrite Hrun. split; [reflexivity | lia].
Qed.

Lemma isPrefix_length (p s : jsstring) :
  isPrefix p s = true -> (length p <= length s)%nat.
Proof.
  revert s. induction p as [| x p IH]; intros [| y s] H; simpl in *;
    try lia; try discriminate.
  apply andb_prop in H. destruct H as [_ H]. apply IH in H. lia.
Qed.

Lemma indexOf_from_range (pat s : jsstring) :
  forall k, indexOf_from pat s k = -1
            \/ (k <= indexOf_from pat s k
                /\ indexOf_from pat s k + len pat <= k + len s).
Proof.
  induction s as [| c s IH]; intros k; simpl.
  - destruct (isPrefix pat []) eqn:E; [| left; reflexivity].
    right. apply isPrefix_length in E. unfold len. simpl in *. lia.
  - destruct (isPrefix pat (c :: s)) eqn:E.
    + right. apply isPrefix_length in E. unfold len. simpl in *. lia.
    + destruct (IH (k + 1)) as [H | H]; [left; exact H | right].
      unfold len in *. simpl length. lia.
Qed.

(** The search never reports a match before the (clamped) start or one that
    would run past the end of the text. *)
Lemma indexOf_range (pat : jsstring) (position : Z) :
  0 <= position <= len text ->
  indexOf text pat position = -1
  \/ (position <= indexOf text pat position
      /\ indexOf text pat position + len pat <= len text).
Proof.
  intros Hpos. unfold indexOf.
  replace (Z.min (Z.max position 0) (len text)) with position by lia.
  destruct (indexOf_from_range pat (skipn (Z.to_nat position) text) position)
    as [H | [H1 H2]]; [left; exact H | right].
  split; [exact H1 |].
  unfold len in *. rewrite length_skipn in H2. lia.
Qed.

Lemma parseURLs_loop_ok (gas : nat) :
  forall (index : Z) (stack : list char) (urls : list jsstring) (ticks : nat),
    0 <= index <= len text ->
    Z.of_nat gas > len text - index ->
    exists urls' ticks',
      parseURLs_loop gas text index stack urls ticks = Some (urls', ticks')
      /\ Z.of_nat ticks' <= Z.of_nat ticks + 2 * (len text - index) + 1.
Proof.
  induction gas as [| gas IH]; intros index stack urls ticks Hidx Hgas; [lia |].
  cbn [parseURLs_loop].
  destruct (indexOf_range (js "url") index Hidx) as [Hnone | [Hlo Hhi]].
  { rewrite Hnone. change (negb (-1 >? 0)) with true. cbv iota.
    exists urls, (S ticks). split; [reflexivity | lia]. }
  change (len (js "url")) with 3 in Hhi.
  set (p := indexOf text (js "url") index) in *.
  destruct (negb (p >? 0)) eqn:Hpos.
  { exists urls, (S ticks). split; [reflexivity | lia]. }
  destruct (skipWhitespace_ok gas (p + 3) (S ticks)) as (ws1 & R1 & W1 & U1); [lia |].
  rewrite R1.
  destruct (negb (strict_eq (charAt text (p + 3 + ws1)) (Some (ch "(")))) eqn:Hparen.
  { destruct (IH (p + 3 + ws1) stack urls (S ticks + Z.to_nat ws1 + 1)%nat)
      as (urls' & ticks' & Hrun & Ht); try lia.
    exists urls', ticks'. split; [exact Hrun | lia]. }
  assert (Hin : 0 <= p + 3 + ws1 < len text).
  { destruct (charAt text (p + 3 + ws1)) as [c |] eqn:E; [| discriminate].
    eapply charAt_Some; eassumption. }
  destruct (skipWhitespace_ok gas (p + 3 + ws1 + 1) (S ticks + Z.to_nat ws1 + 1)%nat)
    as (ws2 & R2 & W2 & U2); [lia |].
  rewrite R2.
  set (i2 := p + 3 + ws1 + 1 + ws2) in *.
  set (t2 := (S ticks + Z.to_nat ws1 + 1 + Z.to_nat ws2 + 1)%nat) in *.
  assert (Hquote : exists stack' i3,
             match charAt text i2 with
             | Some q => if isQuote (Some q) then (push (push stack (ch "(")) q, i2 + 1)
                         else (push stack (ch "("), i2)
             | None => (push stack (ch "("), i2)
             end = (stack', i3) /\ i2 <= i3 <= len text).
  { destruct (charAt text i2) as [q |] eqn:E.
    - apply charAt_Some in E.
      destruct (isQuote (Some q)); eexists; eexists; (split; [reflexivity | lia]).
    - eexists; eexists; (split; [reflexivity | lia]). }
  destruct Hquote as (stack' & i3 & Hq & Hi3). rewrite Hq.
  destruct (skipWhitespace_ok gas i3 t2) as (ws3 & R3 & W3 & U3); [lia |].
  rewrite R3.
  destruct (capture_loop_ok gas
              (mkCapture (i3 + ws3) (i3 + ws3) stack' (t2 + Z.to_nat ws3 + 1)%nat))
    as (c & Rc & Hc & Tc); cbn [c_index c_ticks] in *; try lia.
  rewrite Rc.
  destruct (IH (c_index c) (c_stack c)
              (urls ++ [trim (slice text (i3 + ws3) (c_end c))]) (c_ticks c))
    as (urls' & ticks' & Hrun & Ht); try lia.
  exists urls', ticks'. split; [exact Hrun | lia].
Qed.

End ScannerTermination.

(** More iterations than needed never change the outcome of a loop. *)
Lemma skipWhitespace_loop_mono (gas : nat) :
  forall text index offset ticks r,
    skipWhitespace_loop gas text index offset ticks = Some r ->
    skipWhitespace_loop (S gas) text index offset ticks = Some r.
Proof.
  induction gas as [| gas IH]; intros text index offset ticks r H; [discriminate |].
  cbn [skipWhitespace_loop] in *.
  destruct (test_ws (charAt text (index + offset))); [| exact H].
  apply IH in H. exact H.
Qed.

Lemma capture_loop_mono (gas : nat) :
  forall text s r, capture_loop gas text s = Some r ->
                   capture_loop (S gas) text s = Some r.
Proof.
  induction gas as [| gas IH]; intros text s r H; [discriminate |].
  cbn [capture_loop] in *.
  destruct (negb (0 <? Z.of_nat (length (c_stack s))) || negb (c_index s <? len text));
    [exact H |].
  destruct (strict_eq (charAt text (c_index s)) (closingToken (top (c_stack s)))).
  - unfold skipWhitespace in *.
    destruct (skipWhitespace_loop gas text (c_index s) 0 (S (c_ticks s)))
      as [[ws t] |] eqn:E; [| discriminate].
    rewrite (skipWhitespace_loop_mono _ _ _ _ _ _ E). apply IH. exact H.
  - apply IH. exact H.
Qed.

Lemma parseURLs_loop_mono (gas : nat) :
  forall text index stack urls ticks r,
    parseURLs_loop gas text index stack urls ticks = Some r ->
    parseURLs_loop (S gas) text index stack urls ticks = Some r.
Proof.
  induction gas as [| gas IH]; intros text index stack urls ticks r H; [discriminate |].
  cbn [parseURLs_loop] in *.
  destruct (negb (indexOf text (js "url") index >? 0)); [exact H |].
  unfold skipWhitespace in *.
  destruct (skipWhitespace_loop gas text _ 0 (S ticks)) as [[ws1 t1] |] eqn:E1;
    [| discriminate].
  rewrite (skipWhitespace_loop_mono _ _ _ _ _ _ E1).
  destruct (negb (strict_eq (charAt text _) (Some (ch "(")))); [apply IH; exact H |].
  destruct (skipWhitespace_loop gas text _ 0 t1) as [[ws2 t2] |] eqn:E2;
    [| discriminate].
  rewrite (skipWhitespace_loop_mono _ _ _ _ _ _ E2).
  destruct (match charAt text _ with Some q => _ | None => _ end) as [stack' i3].
  destruct (skipWhitespace_loop gas text i3 0 t2) as [[ws3 t3] |] eqn:E3;
    [| discriminate].
  rewrite (skipWhitespace_loop_mono _ _ _ _ _ _ E3).
  destruct (capture_loop gas text _) as [c |] eqn:Ec; [| discriminate].
  rewrite (capture_loop_mono _ _ _ _ Ec). apply IH. exact H.
Qed.

Lemma parseURLs_loop_more_gas (gas gas' : nat) text index stack urls ticks r :
  (gas <= gas')%nat ->
  parseURLs_loop gas text index stack urls ticks = Some r ->
  parseURLs_loop gas' text index stack urls ticks = Some r.
Proof.
  induction 1 as [| gas' _ IH]; [auto |].
  intros H. apply parseURLs_loop_mono, IH, H.
Qed.

(** C8: the CSS URL scanner returns on every text.  Each of its loops needs at
    most [length text + 1] iterations, the loops make at most
    [2 * length text + 1] iterations in all, more iterations allowed change
    nothing, and the scanner has no operation that can throw: reads outside
    the text give [undefined]. *)
Theorem parseURLs_terminates (text : jsstring) :
  exists urls ticks,
    parseURLs_run text = Some (urls, ticks)
    /\ parseURLs text = urls
    /\ (ticks <= 2 * length text + 1)%nat
    /\ forall gas, (scan_gas text <= gas)%nat ->
                   parseURLs_loop gas text 0 [] [] 0 = Some (urls, ticks).
Proof.
  destruct (parseURLs_loop_ok text (scan_gas text) 0 [] [] 0)
    as (urls & ticks & Hrun & Hticks).
  - unfold len. lia.
  - unfold scan_gas, len. lia.
  - exists urls, ticks. repeat split.
    + exact Hrun.
    + unfold parseURLs, parseURLs_run. rewrite Hrun. reflexivity.
    + unfold len in Hticks. lia.
    + intros gas Hgas. eapply parseURLs_loop_more_gas; eassumption.
Qed.

(** C3: on the text of the specification's example the scanner returns
    ["a/b.png'"; "c.png"]: the white space between the closing quote and the
    closing parenthesis is counted into the captured span, so the first
    payload keeps its closing quote. *)
Theorem parseURLs_example_keeps_quote :
  parseURLs (js "background: url( 'a/b.png' ) , url(c.png)")
    = [js "a/b.png'"; js "c.png"]
  /\ parseURLs (js "background: url( 'a/b.png' ) , url(c.png)")
    <> [js "a/b.png"; js "c.png"].
Proof.
  split; [vm_compute; reflexivity | vm_compute; discriminate].
Qed.

(** Without white space before the closing parenthesis the quotes are
    stripped. *)
Example parseURLs_quoted :
  parseURLs (js "background: url( 'a/b.png') , url(c.png)")
    = [js "a/b.png"; js "c.png"].
Proof. vm_compute. reflexivity. Qed.

(** An unterminated token is abandoned at the end of the text, with what was
    captured so far. *)
Example parseURLs_unterminated :
  parseURLs (js "a{background:url('img/a.png") = [js "img/a.png"]
  /\ parseURLs (js "a{background:url(") = [[]].
Proof. split; vm_compute; reflexivity. Qed.

(** A [url] token at the very start of the text is never scanned: the loop
    tests [indexOf(...) > 0]. *)
Example parseURLs_at_start : parseURLs (js "url(a.png)") = [].
Proof. vm_compute. reflexivity. Qed.

(** ** Tag placement *)

Lemma findIndex_from_none {A : Type} (pred : A -> bool) (l : list A) :
  forall k, (forall x, In x l -> pred x = false) -> findIndex_from pred l k = -1.
Proof.
  induction l as [| x l IH]; intros k H; simpl; [reflexivity |].
  rewrite (H x) by (left; reflexivity).
  apply IH. intros y Hy. apply H. right. exact Hy.
Qed.

Lemma findLastChildIndex_loop_none (kids : list Node) (predicate : option Node -> bool) :
  predicate None = false ->
  (forall n, In n kids -> predicate (Some n) = false) ->
  forall i, findLastChildIndex_loop kids predicate i = 0.
Proof.
  intros Hundef Hnone i.
  assert (Hat : forall j, predicate (nth_error kids j) = false).
  { intros j. destruct (nth_error kids j) as [n |] eqn:E; [| exact Hundef].
    apply Hnone. eapply nth_error_In. eassumption. }
  induction i as [| i IH]; cbn [findLastChildIndex_loop]; rewrite Hat;
    [reflexivity | exact IH].
Qed.

(** Where a parent has no tag of the relevant kind, "below" computes 1 and
    "above" computes -1. *)
Lemma linkIndex_without_tags (head : list Node) :
  (forall n, In n head -> isLinkOrStyle (Some n) = false) ->
  linkIndex Below head = 1 /\ linkIndex Above head = -1.
Proof.
  intros H. unfold linkIndex, findLastChildIndex, findIndex. split.
  - rewrite findLastChildIndex_loop_none; auto.
  - apply findIndex_from_none. exact H.
Qed.

Lemma scriptIndex_without_tags (parent : list Node) (target : EmitTarget) :
  (forall n, In n parent -> isScript (Some n) = false) ->
  scriptIndex (mkPlacement target Below) parent = 1
  /\ scriptIndex (mkPlacement target Above) parent = -1.
Proof.
  intros H. unfold scriptIndex, findLastChildIndex, findIndex. simpl. split.
  - rewrite findLastChildIndex_loop_none; auto.
  - apply findIndex_from_none. exact H.
Qed.

(** C2: in a head [meta; title; base] without link, style or script, the
    policy "below" computes index 1 and "above" computes -1, for links and for
    scripts; the splice then puts the new tag after the first child and
    before the last child, not at the start. *)
Theorem placement_index_without_tags :
  let meta := Element (js "meta") [mkAttr (js "charset") (js "utf-8")] [] in
  let title := Element (js "title") [] [TextNode (js "App")] in
  let base := Element (js "base") [mkAttr (js "href") (js "/")] [] in
  let link := createElement (js "link") [] in
  sampleHead = [meta; title; base]
  /\ linkIndex Below sampleHead = 1
  /\ linkIndex Above sampleHead = -1
  /\ scriptIndex (mkPlacement Head Below) sampleHead = 1
  /\ scriptIndex (mkPlacement Head Above) sampleHead = -1
  /\ splice_insert sampleHead (linkIndex Below sampleHead) [link]
     = [meta; link; title; base]
  /\ splice_insert sampleHead (linkIndex Above sampleHead) [link]
     = [meta; title; link; base].
Proof.
  cbv zeta. repeat split; vm_compute; reflexivity.
Qed.


(** ** Rebasing *)

Lemma len_nonneg (s : jsstring) : 0 <= len s.
Proof. unfold len. lia. Qed.

Lemma indexOf_from_single (c : char) (s : jsstring) :
  forall k, indexOf_from [c] s k = findIndex_from (char_eqb c) s k.
Proof.
  induction s as [| x s IH]; intros k; simpl; [reflexivity |].
  rewrite andb_true_r. destruct (char_eqb c x); [reflexivity | apply IH].
Qed.

Lemma indexOf_single (c : char) (text : jsstring) :
  indexOf text [c] 0 = findIndex (char_eqb c) text.
Proof.
  unfold indexOf, findIndex. pose proof (len_nonneg text).
  replace (Z.min (Z.max 0 0) (len text)) with 0 by lia.
  apply indexOf_from_single.
Qed.

Lemma findIndex_from_range {A : Type} (pred : A -> bool) (l : list A) :
  forall k, findIndex_from pred l k = -1
            \/ k <= findIndex_from pred l k < k + Z.of_nat (length l).
Proof.
  induction l as [| x l IH]; intros k; simpl; [left; reflexivity |].
  destruct (pred x); [right; lia |].
  destruct (IH (k + 1)) as [H | H]; [left; exact H | right; lia].
Qed.

(** The minimum of the two searches is the search for either character. *)
Lemma pathEnd_from (url : jsstring) :
  forall k, 0 <= k ->
    (let queryPos := findIndex_from (char_eqb (ch "?")) url k in
     let hashPos := findIndex_from (char_eqb (ch "#")) url k in
     if queryPos <? 0 then hashPos
     else if hashPos <? 0 then queryPos
     else Z.min queryPos hashPos)
    = findIndex_from isQueryOrHash url k.
Proof.
  induction url as [| x url IH]; intros k Hk; [reflexivity |].
  cbn [findIndex_from]. unfold isQueryOrHash at 1.
  destruct (char_eqb (ch "?") x) eqn:Eq, (char_eqb (ch "#") x) eqn:Eh; cbn [orb].
  - destruct (Z.ltb_spec k 0) as [Hk0 | Hk0]; [lia |]. rewrite Z.min_id. reflexivity.
  - destruct (Z.ltb_spec k 0) as [Hk0 | Hk0]; [lia |].
    destruct (findIndex_from_range (char_eqb (ch "#")) url (k + 1)) as [Hr | Hr].
    + rewrite Hr. reflexivity.
    + destruct (Z.ltb_spec (findIndex_from (char_eqb (ch "#")) url (k + 1)) 0); lia.
  - destruct (findIndex_from_range (char_eqb (ch "?")) url (k + 1)) as [Hr | Hr].
    + rewrite Hr. reflexivity.
    + destruct (Z.ltb_spec (findIndex_from (char_eqb (ch "?")) url (k + 1)) 0); [lia |].
      destruct (Z.ltb_spec k 0); lia.
  - apply IH. lia.
Qed.

Lemma pathEndOf_findIndex (url : jsstring) :
  pathEndOf url = findIndex isQueryOrHash url.
Proof.
  unfold pathEndOf.
  change (js "?") with [ch "?"]. change (js "#") with [ch "#"].
  rewrite !indexOf_single. unfold findIndex. apply pathEnd_from. lia.
Qed.

Lemma path_suffix_app (url : jsstring) : pathPart url ++ suffixPart url = url.
Proof.
  induction url as [| c url IH]; simpl; [reflexivity |].
  destruct (isQueryOrHash c); simpl; [reflexivity | f_equal; exact IH].
Qed.

Lemma findIndex_from_pathPart (url : jsstring) :
  forall k,
    (findIndex_from isQueryOrHash url k = -1 /\ pathPart url = url /\ suffixPart url = [])
    \/ (findIndex_from isQueryOrHash url k = k + len (pathPart url)
        /\ suffixPart url <> []).
Proof.
  induction url as [| c url IH]; intros k; simpl.
  - left. auto.
  - destruct (isQueryOrHash c) eqn:E.
    + right. split; [unfold len; simpl; lia | discriminate].
    + destruct (IH (k + 1)) as [(H1 & H2 & H3) | (H1 & H2)].
      * left. rewrite H1, H2. auto.
      * right. rewrite H1. split; [unfold len; simpl length; lia | exact H2].
Qed.

Lemma slice_prefix (text : jsstring) (e : Z) :
  0 <= e <= len text -> slice text 0 e = firstn (Z.to_nat e) text.
Proof.
  intros He. unfold slice, rel_index.
  destruct (Z.ltb_spec 0 0); [lia |]. destruct (Z.ltb_spec e 0); [lia |].
  replace (Z.min 0 (len text)) with 0 by lia.
  replace (Z.min e (len text)) with e by lia.
  replace (Z.max (e - 0) 0) with e by lia. reflexivity.
Qed.

Lemma slice_from_suffix (text : jsstring) (e : Z) :
  0 <= e <= len text -> slice_from text e = skipn (Z.to_nat e) text.
Proof.
  intros He. unfold slice_from, slice, rel_index.
  destruct (Z.ltb_spec e 0); [lia |]. destruct (Z.ltb_spec (len text) 0); [lia |].
  replace (Z.min e (len text)) with e by lia.
  rewrite Z.min_id. apply firstn_all2. rewrite length_skipn. unfold len in *. lia.
Qed.

Lemma firstn_pathPart (url : jsstring) :
  firstn (length (pathPart url)) url = pathPart url.
Proof.
  rewrite <- (path_suffix_app url) at 2. rewrite firstn_app, firstn_all, Nat.sub_diag.
  simpl. apply app_nil_r.
Qed.

Lemma skipn_pathPart (url : jsstring) :
  skipn (length (pathPart url)) url = suffixPart url.
Proof.
  rewrite <- (path_suffix_app url) at 2. rewrite skipn_app, skipn_all, Nat.sub_diag.
  reflexivity.
Qed.

Lemma pathPart_length (url : jsstring) : len (pathPart url) <= len url.
Proof.
  rewrite <- (path_suffix_app url) at 2. unfold len. rewrite length_app. lia.
Qed.

(** What the source takes for the path and for the suffix are the two parts
    of the split. *)
Lemma source_split (inputURL : jsstring) :
  (if pathEndOf inputURL <? 0 then inputURL
   else slice inputURL 0 (pathEndOf inputURL)) = pathPart inputURL
  /\ forall rebased : jsstring,
      (if pathEndOf inputURL <? 0 then rebased
       else rebased ++ slice_from inputURL (pathEndOf inputURL))
      = rebased ++ suffixPart inputURL.
Proof.
  rewrite pathEndOf_findIndex. unfold findIndex.
  pose proof (pathPart_length inputURL) as Hlen.
  pose proof (len_nonneg (pathPart inputURL)) as Hnn.
  destruct (findIndex_from_pathPart inputURL 0) as [(H1 & H2 & H3) | (H1 & H2)];
    rewrite H1.
  - split; [symmetry; exact H2 |]. intros rebased. rewrite H3, app_nil_r. reflexivity.
  - destruct (Z.ltb_spec (0 + len (pathPart inputURL)) 0); [lia |].
    rewrite slice_prefix, slice_from_suffix by lia.
    replace (Z.to_nat (0 + len (pathPart inputURL))) with (length (pathPart inputURL))
      by (unfold len; lia).
    rewrite firstn_pathPart, skipn_pathPart. split; reflexivity.
Qed.

Lemma pathPart_clean (url : jsstring) :
  Forall (fun c => isQueryOrHash c = false) (pathPart url).
Proof.
  induction url as [| c url IH]; simpl; [constructor |].
  destruct (isQueryOrHash c) eqn:E; constructor; assumption.
Qed.

Lemma suffixPart_head (url : jsstring) :
  match suffixPart url with
  | [] => True
  | c :: _ => isQueryOrHash c = true
  end.
Proof.
  induction url as [| c url IH]; simpl; [exact I |].
  destruct (isQueryOrHash c) eqn:E; [exact E | exact IH].
Qed.

(** The result of the rebaser in terms of the split. *)
Lemma rebaseAssetURL_eq (host : Host) (inputURL templatePath : jsstring)
    (publicPath : option jsstring) :
  let url := pathPart inputURL in
  let suffix := suffixPart inputURL in
  let name := path_basename host url in
  let input := path_resolve host (path_dirname host templatePath) url in
  rebaseAssetURL host inputURL templatePath publicPath
  = match publicPath with
    | Some (c :: p) =>
        if includes (c :: p) (js "://")
        then match URL_href host name (c :: p) with
             | Some href => Ok (mkRebased name (href ++ suffix) input)
             | None => Throw InvalidURL
             end
        else Ok (mkRebased name (path_join host (c :: p) name ++ suffix) input)
    | _ => Ok (mkRebased name (name ++ suffix) input)
    end.
Proof.
  intros url suffix name input. unfold rebaseAssetURL.
  destruct (source_split inputURL) as [Hurl Hsuffix].
  rewrite Hurl. fold url name input.
  destruct publicPath as [[| c p] |]; cbn [bind]; try (rewrite Hsuffix; reflexivity).
  destruct (includes (c :: p) (js "://")).
  - destruct (URL_href host name (c :: p)); cbn [bind]; [rewrite Hsuffix |]; reflexivity.
  - cbn [bind]. rewrite Hsuffix. reflexivity.
Qed.

(** C6: the rebaser splits the URL before the earliest [?] or [#] (the whole
    URL is the path when there is none), resolves the path against the
    directory of the template for the input path, takes the base name of the
    path, joins it under the public path (with [new URL] when the public
    path contains [://], whose failure is thrown, with [path.join] otherwise,
    and not at all when the public path is undefined or empty), and appends
    the suffix unchanged. *)
Theorem rebaseAssetURL_splits (host : Host) (inputURL templatePath : jsstring)
    (publicPath : option jsstring) :
  let url := pathPart inputURL in
  let suffix := suffixPart inputURL in
  let name := path_basename host url in
  let input := path_resolve host (path_dirname host templatePath) url in
  inputURL = url ++ suffix
  /\ Forall (fun c => c <> ch "?" /\ c <> ch "#") url
  /\ (suffix = [] \/ exists c rest, suffix = c :: rest /\ (c = ch "?" \/ c = ch "#"))
  /\ rebaseAssetURL host inputURL templatePath publicPath
     = match publicPath with
       | Some (c :: p) =>
           if includes (c :: p) (js "://")
           then match URL_href host name (c :: p) with
                | Some href => Ok (mkRebased name (href ++ suffix) input)
                | None => Throw InvalidURL
                end
           else Ok (mkRebased name (path_join host (c :: p) name ++ suffix) input)
       | _ => Ok (mkRebased name (name ++ suffix) input)
       end.
Proof.
  intros url suffix name input.
  assert (Hqh : forall c, isQueryOrHash c = true <-> c = ch "?" \/ c = ch "#").
  { intros c. unfold isQueryOrHash, char_eqb. rewrite orb_true_iff, !N.eqb_eq.
    intuition congruence. }
  split; [symmetry; apply path_suffix_app |].
  split.
  { eapply Forall_impl; [| apply pathPart_clean].
    cbv beta. intros c Hc. split; intros ->; discriminate Hc. }
  split.
  { pose proof (suffixPart_head inputURL) as Hs. fold suffix in Hs.
    destruct suffix as [| c rest]; [left; reflexivity | right].
    exists c, rest. split; [reflexivity | apply Hqh; exact Hs]. }
  apply rebaseAssetURL_eq.
Qed.

(** The example of the specification: [../img/cat.png] under [/public], here
    with a query and a fragment, and under an absolute URL. *)
Example rebase_cat_public :
  rebaseAssetURL sampleHost catURL (js "/proj/src/index.html") (Some (js "/public"))
  = Ok (mkRebased (js "cat.png") (js "/public/cat.png?v=1#top") (js "/proj/img/cat.png")).
Proof. vm_compute. reflexivity. Qed.

Example rebase_cat_cdn :
  rebaseAssetURL sampleHost catURL (js "/proj/src/index.html")
    (Some (js "https://cdn.example.com/"))
  = Ok (mkRebased (js "cat.png") (js "https://cdn.example.com/cat.png?v=1#top")
          (js "/proj/img/cat.png")).
Proof. vm_compute. reflexivity. Qed.


(** ** Tag synthesis *)

Lemma integrityAttr_name fs path integrity a :
  integrityAttr fs path integrity = Some (Some a) ->
  attr_name a = js "integrity".
Proof.
  unfold integrityAttr. destruct integrity as [alg |]; [| discriminate].
  destruct (calculateIntegrityHash _ _ _); [| discriminate].
  intros [= <-]. reflexivity.
Qed.

Lemma crossoriginAttr_name crossorigin a :
  crossoriginAttr crossorigin = Some a -> attr_name a = js "crossorigin".
Proof.
  unfold crossoriginAttr. destruct crossorigin; [| discriminate].
  intros [= <-]. reflexivity.
Qed.

(** Splits membership in a literal attribute list, and closes the cases in
    which two different attribute names would be equal. *)
Ltac attr_members :=
  repeat match goal with
         | H : In _ (_ :: _) |- _ => destruct H as [H | H]
         | H : In _ [] |- _ => destruct H
         end;
  subst; cbn [attr_name attr_value] in *.

Ltac name_clash :=
  match goal with
  | H : js _ = js _ |- _ => vm_compute in H; discriminate H
  | H1 : attr_name ?a = js _, H2 : attr_name ?a = js _ |- _ =>
      rewrite H1 in H2; vm_compute in H2; discriminate H2
  end.

(** When a tag cannot be created: the digest of the resolved output file is
    asked for and cannot be read.  Nothing else rejects the creation. *)
Lemma integrityAttr_cases (fs : FileSystem) (path : jsstring)
    (integrity : option HashAlgorithm) :
  match integrityAttr fs path integrity with
  | None => exists alg, integrity = Some alg /\ fs_digest fs alg path = None
  | Some None => integrity = None
  | Some (Some a) =>
      exists alg d,
        integrity = Some alg /\ fs_digest fs alg path = Some d
        /\ a = mkAttr (js "integrity") (hashAlgorithmText alg ++ js "-" ++ d)
  end.
Proof.
  unfold integrityAttr, calculateIntegrityHash.
  destruct integrity as [alg |]; [| reflexivity].
  destruct (fs_digest fs alg path) as [d |] eqn:E; eauto.
Qed.

Lemma integrityAttr_rejects (fs : FileSystem) (path : jsstring)
    (integrity : option HashAlgorithm) :
  integrityAttr fs path integrity = None
  <-> exists alg, integrity = Some alg /\ fs_digest fs alg path = None.
Proof.
  pose proof (integrityAttr_cases fs path integrity) as H.
  destruct (integrityAttr fs path integrity) as [[a |] |].
  - split; [discriminate |]. intros (alg & Ha & Hd).
    destruct H as (alg' & d & Ha' & Hd' & _). congruence.
  - split; [discriminate |]. intros (alg & Ha & _). congruence.
  - split; [intros _; exact H | reflexivity].
Qed.

Lemma createLinkElement_rejects (host : Host) (fs : FileSystem) (o : CreateElementOptions) :
  createLinkElement host fs o = None
  <-> exists alg,
      ce_integrity o = Some alg
      /\ fs_digest fs alg (path_resolve host (ce_basedir o) (ce_outputPath o)) = None.
Proof.
  rewrite <- integrityAttr_rejects. unfold createLinkElement.
  destruct (integrityAttr fs _ (ce_integrity o)); [split; discriminate | tauto].
Qed.

Lemma createScriptElement_rejects (host : Host) (fs : FileSystem) (o : CreateElementOptions) :
  createScriptElement host fs o = None
  <-> exists alg,
      ce_integrity o = Some alg
      /\ fs_digest fs alg (path_resolve host (ce_basedir o) (ce_outputPath o)) = None.
Proof.
  rewrite <- integrityAttr_rejects. unfold createScriptElement.
  destruct (integrityAttr fs _ (ce_integrity o)); [split; discriminate | tauto].
Qed.

(** C5: a script element is synthesized unless an integrity digest is asked
    for and cannot be read, and every synthesized script element carries
    [type="module"] and no [defer] attribute when the output format is ESM,
    whatever the [defer] option; in any other format it carries a [defer]
    attribute, with the empty value, exactly when the [defer] option is
    true. *)
Theorem script_module_excludes_defer (host : Host) (fs : FileSystem)
    (o : CreateElementOptions) :
  (createScriptElement host fs o = None
   <-> exists alg,
       ce_integrity o = Some alg
       /\ fs_digest fs alg (path_resolve host (ce_basedir o) (ce_outputPath o)) = None)
  /\ forall el,
      createScriptElement host fs o = Some el ->
      (ce_useModuleType o = true ->
       In (mkAttr (js "type") (js "module")) (attrsOf el)
       /\ forall a, In a (attrsOf el) -> attr_name a <> js "defer")
      /\ (ce_useModuleType o = false ->
          ((exists a, In a (attrsOf el) /\ attr_name a = js "defer")
           <-> ce_defer o = Some true)
          /\ forall a, In a (attrsOf el) -> attr_name a = js "defer" ->
                       a = mkAttr (js "defer") []).
Proof.
  split; [apply createScriptElement_rejects |].
  intros el. unfold createScriptElement.
  destruct (integrityAttr fs _ (ce_integrity o)) as [ia |] eqn:Hia; [| discriminate].
  intros [= <-]. cbn [attrsOf createElement].
  assert (Hi : forall a, ia = Some a -> attr_name a = js "integrity").
  { intros a ->. eapply integrityAttr_name. eassumption. }
  assert (Hc : forall a, crossoriginAttr (ce_crossorigin o) = Some a ->
                         attr_name a = js "crossorigin").
  { intros a. apply crossoriginAttr_name. }
  clear Hia.
  destruct (crossoriginAttr (ce_crossorigin o)) as [ca |];
    [specialize (Hc ca eq_refl) | clear Hc];
    (destruct ia as [a0 |]; [specialize (Hi a0 eq_refl) | clear Hi]);
    (split; intros Hm; rewrite Hm; cbn [negb andb and_then collect flat_map app]).
  all: try (split; [right; left; reflexivity |
                    intros a Ha Hn; attr_members; name_clash]).
  all: destruct (ce_defer o) as [[|] |]; cbn [and_then collect flat_map app].
  all: split;
    [ split;
      [ intros (a & Ha & Hn); attr_members; try name_clash; try reflexivity
      | intros Hd;
        first [ discriminate Hd
              | exists (mkAttr (js "defer") []);
                split; [right; left; reflexivity | reflexivity] ] ]
    | intros a Ha Hn; attr_members; try name_clash; try reflexivity ].
Qed.


Lemma script_module_excludes_defer_witness :
  (createScriptElement sampleHost goodFS esmDeferOptions = Some esmDeferScript
   /\ In (mkAttr (js "type") (js "module")) (attrsOf esmDeferScript)
   /\ forall a, In a (attrsOf esmDeferScript) -> attr_name a <> js "defer")
  /\ (createScriptElement sampleHost goodFS iifeDeferOptions = Some iifeDeferScript
      /\ exists a, In a (attrsOf iifeDeferScript) /\ attr_name a = js "defer")
  /\ (createScriptElement sampleHost goodFS iifeOptions = Some iifeScript
      /\ ~ exists a, In a (attrsOf iifeScript) /\ attr_name a = js "defer").
Proof.
  assert (Hesm : createScriptElement sampleHost goodFS esmDeferOptions = Some esmDeferScript)
    by (vm_compute; reflexivity).
  assert (Hdefer : createScriptElement sampleHost goodFS iifeDeferOptions
                   = Some iifeDeferScript)
    by (vm_compute; reflexivity).
  assert (Hplain : createScriptElement sampleHost goodFS iifeOptions = Some iifeScript)
    by (vm_compute; reflexivity).
  split; [| split].
  - split; [exact Hesm |].
    apply (proj2 (script_module_excludes_defer sampleHost goodFS esmDeferOptions)
             esmDeferScript Hesm).
    reflexivity.
  - split; [exact Hdefer |].
    apply (proj2 (script_module_excludes_defer sampleHost goodFS iifeDeferOptions)
             iifeDeferScript Hdefer).
    + reflexivity.
    + reflexivity.
  - split; [exact Hplain |]. intros Hex.
    apply (proj2 (script_module_excludes_defer sampleHost goodFS iifeOptions)
             iifeScript Hplain) in Hex; [discriminate Hex | reflexivity].
Defined.

Lemma getUrl_first (t : jsstring) (a : Attribute) (attrs : list Attribute) (kids : list Node) :
  isElement (Some (Element t (a :: attrs) kids)) = true ->
  isUrlAttr a = true ->
  getUrl (Element t (a :: attrs) kids) = Some a.
Proof.
  intros He Ha. unfold getUrl. rewrite He. cbn [attrsOf find]. rewrite Ha. reflexivity.
Qed.

(** C10: with a configured (non-empty) public path, a link and a script are
    synthesized unless an integrity digest is asked for and cannot be read,
    and the [href] of every synthesized link and the [src] of every
    synthesized script are [path.join(publicPath, basename)] of the resolved
    output file, whether or not the public path contains [://]: tag synthesis
    has no URL-join branch, while asset rebasing under a public path with
    [://] goes through [new URL]. *)
Theorem tag_url_joins_as_path (host : Host) (fs : FileSystem)
    (o : CreateElementOptions) (p : jsstring) :
  ce_publicPath o = Some p ->
  p <> [] ->
  let file := path_resolve host (ce_basedir o) (ce_outputPath o) in
  let filename := path_basename host file in
  let unreadable :=
    exists alg, ce_integrity o = Some alg /\ fs_digest fs alg file = None in
  (createLinkElement host fs o = None <-> unreadable)
  /\ (createScriptElement host fs o = None <-> unreadable)
  /\ (forall el, createLinkElement host fs o = Some el ->
                 getUrl el = Some (mkAttr (js "href") (path_join host p filename)))
  /\ (forall el, createScriptElement host fs o = Some el ->
                 getUrl el = Some (mkAttr (js "src") (path_join host p filename)))
  /\ (includes p (js "://") = true ->
      forall inputURL templatePath,
        let name := path_basename host (pathPart inputURL) in
        rebaseAssetURL host inputURL templatePath (ce_publicPath o)
        = match URL_href host name p with
          | Some href =>
              Ok (mkRebased name (href ++ suffixPart inputURL)
                    (path_resolve host (path_dirname host templatePath)
                       (pathPart inputURL)))
          | None => Throw InvalidURL
          end).
Proof.
  intros Hp Hne file filename unreadable.
  assert (Hurl : tagURL host (ce_publicPath o) filename = path_join host p filename).
  { rewrite Hp. destruct p as [| c p]; [congruence | reflexivity]. }
  split; [apply createLinkElement_rejects |].
  split; [apply createScriptElement_rejects |].
  split; [| split].
  1, 2: intros el; [> unfold createLinkElement | unfold createScriptElement];
    fold file; fold filename; rewrite Hurl;
    (destruct (integrityAttr fs _ (ce_integrity o)) as [ia |]; [| discriminate]);
    intros [= <-]; unfold createElement; cbn [collect flat_map app];
    apply getUrl_first; reflexivity.
  intros Hurljoin inputURL templatePath name.
  rewrite rebaseAssetURL_eq, Hp. fold name.
  destruct p as [| c p]; [congruence |]. rewrite Hurljoin. reflexivity.
Qed.

Lemma tag_url_joins_as_path_witness :
  includes (js "https://cdn.example.com/") (js "://") = true
  /\ (createLinkElement sampleHost goodFS cdnOptions = Some cdnLink
      /\ getUrl cdnLink = Some (mkAttr (js "href") (js "https:/cdn.example.com/app.js")))
  /\ (createScriptElement sampleHost goodFS cdnOptions = Some cdnScript
      /\ getUrl cdnScript = Some (mkAttr (js "src") (js "https:/cdn.example.com/app.js"))).
Proof.
  split; [reflexivity |].
  assert (Hne : js "https://cdn.example.com/" <> []) by discriminate.
  pose proof (tag_url_joins_as_path sampleHost goodFS cdnOptions
                (js "https://cdn.example.com/") eq_refl Hne) as H.
  cbv zeta in H. destruct H as (_ & _ & Hlink & Hscript & _).
  split.
  - assert (Hl : createLinkElement sampleHost goodFS cdnOptions = Some cdnLink)
      by (vm_compute; reflexivity).
    split; [exact Hl | exact (Hlink cdnLink Hl)].
  - assert (Hs : createScriptElement sampleHost goodFS cdnOptions = Some cdnScript)
      by (vm_compute; reflexivity).
    split; [exact Hs | exact (Hscript cdnScript Hs)].
Defined.

(** ** Setup *)

(** C9, as amended: when the output directory is absent (or the empty text),
    [setup] issues nothing to the file system; it throws the configuration
    error if entry points are configured, and returns without registering a
    handler if they are not. *)
Theorem setup_without_outdir (host : Host) (options : HtmlPluginOptions)
    (fs : FileSystem) (build : BuildOptions) :
  truthy (outdir build) = false ->
  setup host options fs build
  = ([], match entryPoints build with
         | Some _ => Throw MissingOutdir
         | None => Ok None
         end).
Proof.
  intros Hout. unfold setup.
  destruct (entryPoints build) as [entries |]; [| reflexivity].
  rewrite Hout. reflexivity.
Qed.

Lemma setup_without_outdir_witness :
  setup sampleHost sampleOptions goodFS noOutdirBuild = ([], Throw MissingOutdir).
Proof.
  apply (setup_without_outdir sampleHost sampleOptions goodFS noOutdirBuild).
  reflexivity.
Defined.

(** C9 as stated fails: without entry points and without output directory,
    [setup] returns and throws nothing. *)
Lemma setup_without_entry_points_returns :
  outdir emptyBuild = None
  /\ setup sampleHost sampleOptions goodFS emptyBuild = ([], Ok None)
  /\ snd (setup sampleHost sampleOptions goodFS emptyBuild) <> Throw MissingOutdir.
Proof.
  repeat split; discriminate.
Qed.


(** ** Equality of strings *)

Lemma eqb_eq (a b : jsstring) : eqb a b = true <-> a = b.
Proof.
  revert b. induction a as [| x a IH]; intros [| y b]; simpl; split; intros H;
    try reflexivity; try discriminate.
  - apply andb_prop in H. destruct H as [Hx Ha].
    apply N.eqb_eq in Hx. apply IH in Ha. congruence.
  - injection H as -> ->. apply andb_true_intro. split.
    + apply N.eqb_refl.
    + apply IH. reflexivity.
Qed.

(** ** Skipped and local URLs *)

Lemma Forall2_compose {A : Type} (R1 R2 R : A -> A -> Prop) (l1 l2 l3 : list A) :
  (forall a b c, R1 a b -> R2 b c -> R a c) ->
  Forall2 R1 l1 l2 -> Forall2 R2 l2 l3 -> Forall2 R l1 l3.
Proof.
  intros Hstep H1. revert l3. induction H1 as [| a b l1 l2 Hab _ IH]; intros l3 H2.
  - inversion H2. constructor.
  - inversion H2 as [| b' c l2' l3' Hbc Hrest]; subst. constructor; eauto.
Qed.

Lemma Forall2_In_r {A B : Type} (R : A -> B -> Prop) (l1 : list A) (l2 : list B) (b : B) :
  Forall2 R l1 l2 -> In b l2 -> exists a, In a l1 /\ R a b.
Proof.
  induction 1 as [| a b' l1 l2 Hab _ IH]; intros Hin; [destruct Hin |].
  destruct Hin as [<- | Hin].
  - exists a. split; [left; reflexivity | exact Hab].
  - destruct (IH Hin) as (a' & Ha' & Hr). exists a'. split; [right; exact Ha' | exact Hr].
Qed.

Lemma Forall2_Forall_l {A B : Type} (R : A -> B -> Prop) (P : A -> Prop)
    (l1 : list A) (l2 : list B) :
  (forall a b, R a b -> P a) -> Forall2 R l1 l2 -> Forall P l1.
Proof.
  intros HP. induction 1; constructor; eauto.
Qed.

Section Skip.

Variable host : Host.
Variable templatePath absOutDir : jsstring.
Variable publicPath : option jsstring.

Local Abbreviation asset := (assetOf host absOutDir).
Local Abbreviation queued := (queuedAs host templatePath absOutDir publicPath).
Local Abbreviation canRebase := (rebasable host templatePath publicPath).
Local Abbreviation locals := (filter (isLocal host)).
Local Abbreviation tagged := (tagOutcome host templatePath publicPath).
Local Abbreviation allSkipped := (Forall (fun d => skipped host d = true)).
Local Abbreviation styled := (styleOutcome host templatePath publicPath).
Local Abbreviation written := (fold_left (writeLocal host templatePath publicPath)).

Lemma isAbsoluteOrURL_iff (url : jsstring) :
  isAbsoluteOrURL host url = true
  <-> path_isAbsolute host url = true
      \/ includes url (js "://") = true
      \/ startsWith url (js "data:") = true.
Proof.
  unfold isAbsoluteOrURL. rewrite !orb_true_iff. tauto.
Qed.

(** The tag loop, read through [getUrl]. *)
Lemma rebaseAttrs_find (attrs : list Attribute) :
  rebaseAttrs host templatePath absOutDir publicPath attrs
  = match find isUrlAttr attrs with
    | None => Ok (attrs, [])
    | Some a =>
        if isAbsoluteOrURL host (attr_value a) then Ok (attrs, [])
        else
          r <- rebaseAssetURL host (attr_value a) templatePath publicPath ;;
          Ok (setUrlValue attrs (rebasedURL r), [asset r])
    end.
Proof.
  induction attrs as [| a rest IH]; cbn [rebaseAttrs find setUrlValue]; [reflexivity |].
  destruct (isUrlAttr a); [reflexivity |]. rewrite IH.
  destruct (find isUrlAttr rest) as [a0 |]; [| reflexivity].
  destruct (isAbsoluteOrURL host (attr_value a0)); [reflexivity |].
  destruct (rebaseAssetURL host (attr_value a0) templatePath publicPath); reflexivity.
Qed.

Lemma rebaseTag_getUrl (n : Node) :
  rebaseTag host templatePath absOutDir publicPath n
  = match getUrl n with
    | None => Ok (n, [])
    | Some a =>
        if isAbsoluteOrURL host (attr_value a) then Ok (n, [])
        else
          r <- rebaseAssetURL host (attr_value a) templatePath publicPath ;;
          Ok (setUrl n (rebasedURL r), [asset r])
    end.
Proof.
  unfold rebaseTag, getUrl.
  destruct n as [t attrs kids | v | v | a b c]; cbn [attrsOf find];
    try (destruct (isElement _); reflexivity).
  destruct (isElement (Some (Element t attrs kids))); [| reflexivity].
  rewrite rebaseAttrs_find.
  destruct (find isUrlAttr attrs) as [a |]; [| reflexivity].
  destruct (isAbsoluteOrURL host (attr_value a)); [reflexivity |].
  destruct (rebaseAssetURL host (attr_value a) templatePath publicPath); reflexivity.
Qed.

Lemma setUrl_nodeName (n : Node) (v : jsstring) : nodeName (setUrl n v) = nodeName n.
Proof. destruct n; reflexivity. Qed.

Lemma tagOutcome_nodeName (n n' : Node) : tagged n n' -> nodeName n' = nodeName n.
Proof.
  unfold tagOutcome. destruct (getUrl n) as [a |]; [| intros ->; reflexivity].
  destruct (isAbsoluteOrURL host (attr_value a)); [intros ->; reflexivity |].
  intros (r & _ & ->). apply setUrl_nodeName.
Qed.

(** One tag: what is left of it and what is queued for it. *)
Lemma rebaseTag_outcome (n n' : Node) (assets : list Asset) :
  rebaseTag host templatePath absOutDir publicPath n = Ok (n', assets) ->
  tagged n n'
  /\ Forall2 queued
       (locals match getUrl n with Some a => [(FromTag, attr_value a)] | None => [] end)
       assets.
Proof.
  rewrite rebaseTag_getUrl. unfold tagOutcome.
  destruct (getUrl n) as [a |]; [| intros [= <- <-]; split; [reflexivity | constructor]].
  cbn [filter]. unfold isLocal, skipped. cbn [fst snd].
  destruct (isAbsoluteOrURL host (attr_value a)); cbn [negb];
    [intros [= <- <-]; split; [reflexivity | constructor] |].
  destruct (rebaseAssetURL host (attr_value a) templatePath publicPath) as [r | e] eqn:Er;
    cbn [bind]; [| discriminate].
  intros [= <- <-]. split; [exists r; auto |].
  constructor; [| constructor]. exists r. cbn [snd]. auto.
Qed.

Lemma rebaseTag_succeeds (n : Node) :
  Forall canRebase
    (locals match getUrl n with Some a => [(FromTag, attr_value a)] | None => [] end) ->
  exists res, rebaseTag host templatePath absOutDir publicPath n = Ok res.
Proof.
  rewrite rebaseTag_getUrl.
  destruct (getUrl n) as [a |]; [| eauto].
  cbn [filter]. unfold isLocal, skipped. cbn [fst snd].
  destruct (isAbsoluteOrURL host (attr_value a)); cbn [negb]; [eauto |].
  intros H. inversion H as [| d l (r & Hr) _]; subst. cbn [snd] in Hr.
  rewrite Hr. cbn [bind]. eauto.
Qed.

Lemma rebaseTags_outcome (name : jsstring) (kids kids' : list Node) (assets : list Asset) :
  rebaseTags host templatePath absOutDir publicPath name kids = Ok (kids', assets) ->
  Forall2 (fun n n' => if eqb (nodeName n) name then tagged n n' else n' = n) kids kids'
  /\ Forall2 queued (locals (tagURLs name kids)) assets.
Proof.
  revert kids' assets. induction kids as [| n rest IH]; intros kids' assets H;
    cbn [rebaseTags] in H.
  - injection H as <- <-. split; constructor.
  - destruct (if eqb (nodeName n) name
              then rebaseTag host templatePath absOutDir publicPath n
              else Ok (n, [])) as [[n' a1] |] eqn:E1; cbn [bind] in H; [| discriminate H].
    destruct (rebaseTags host templatePath absOutDir publicPath name rest)
      as [[rest' a2] |] eqn:E2; cbn [bind] in H; [| discriminate H].
    injection H as <- <-. destruct (IH _ _ eq_refl) as [IHn IHa].
    unfold tagURLs. cbn [flat_map]. rewrite filter_app.
    destruct (eqb (nodeName n) name) eqn:En.
    + apply rebaseTag_outcome in E1. destruct E1 as [Hn Ha].
      split; [constructor; [rewrite En; exact Hn | exact IHn] |].
      apply Forall2_app; assumption.
    + injection E1 as <- <-.
      split; [constructor; [rewrite En; reflexivity | exact IHn] |].
      cbn [filter app]. exact IHa.
Qed.

Lemma rebaseTags_succeeds (name : jsstring) (kids : list Node) :
  Forall canRebase (locals (tagURLs name kids)) ->
  exists res, rebaseTags host templatePath absOutDir publicPath name kids = Ok res.
Proof.
  induction kids as [| n rest IH]; cbn [rebaseTags]; [eauto |].
  unfold tagURLs. cbn [flat_map]. rewrite filter_app, Forall_app. intros [Hn Hrest].
  destruct (IH Hrest) as ([rest' a2] & ->).
  destruct (eqb (nodeName n) name).
  - destruct (rebaseTag_succeeds n Hn) as ([n' a1] & ->). cbn [bind]. eauto.
  - cbn [bind]. eauto.
Qed.

(** The style loop. *)
Lemma locals_style_cons (url : jsstring) (ds : list Discovered) :
  locals ((FromStyle, url) :: ds)
  = if negb (truthy (Some url)) || isAbsoluteOrURL host url
    then locals ds
    else (FromStyle, url) :: locals ds.
Proof.
  cbn [filter]. unfold isLocal at 1, skipped. cbn [fst snd].
  destruct (negb (truthy (Some url)) || isAbsoluteOrURL host url); reflexivity.
Qed.

Lemma rebaseStyleURLs_outcome (urls : list jsstring) :
  forall text assets text' assets',
    rebaseStyleURLs host templatePath absOutDir publicPath urls (text, assets)
      = Ok (text', assets') ->
    exists new,
      assets' = assets ++ new
      /\ Forall2 queued (locals (map (pair FromStyle) urls)) new
      /\ text' = written (locals (map (pair FromStyle) urls)) text.
Proof.
  induction urls as [| url rest IH]; intros text assets text' assets' H;
    cbn [rebaseStyleURLs] in H.
  - injection H as <- <-. exists []. rewrite app_nil_r. repeat split. constructor.
  - cbn [map]. rewrite locals_style_cons. unfold rebaseStyleURL in H.
    destruct (negb (truthy (Some url)) || isAbsoluteOrURL host url) eqn:Eskip;
      cbn [bind] in H.
    + destruct (IH _ _ _ _ H) as (new & -> & Hq & Htext).
      exists new. repeat split; assumption.
    + destruct (rebaseAssetURL host url templatePath publicPath) as [r | e] eqn:Er;
        cbn [bind] in H; [| discriminate H].
      destruct (IH _ _ _ _ H) as (new & -> & Hq & Htext).
      exists (asset r :: new). rewrite <- app_assoc. repeat split.
      * constructor; [exists r; cbn [snd]; auto | exact Hq].
      * cbn [fold_left]. unfold writeLocal at 2. cbn [snd]. rewrite Er. exact Htext.
Qed.

Lemma locals_of_skipped (ds : list Discovered) : allSkipped ds -> locals ds = [].
Proof.
  induction 1 as [| d ds Hd _ IH]; [reflexivity |].
  cbn [filter]. unfold isLocal at 1. rewrite Hd. exact IH.
Qed.

Lemma rebaseStyleURLs_succeeds (urls : list jsstring) :
  Forall canRebase (locals (map (pair FromStyle) urls)) ->
  forall state,
    exists res, rebaseStyleURLs host templatePath absOutDir publicPath urls state = Ok res.
Proof.
  induction urls as [| url rest IH]; intros Hall [text assets]; cbn [rebaseStyleURLs];
    [eauto |].
  cbn [map] in Hall. rewrite locals_style_cons in Hall. unfold rebaseStyleURL.
  destruct (negb (truthy (Some url)) || isAbsoluteOrURL host url); cbn [bind].
  - apply IH. exact Hall.
  - inversion Hall as [| d l (r & Hr) Hrest]; subst. cbn [snd] in Hr.
    rewrite Hr. cbn [bind]. apply IH. exact Hrest.
Qed.

Lemma setFirstText_same (kids : list Node) (t : Node) (v : jsstring) :
  find isTextNode kids = Some t -> valueOf t = Some v -> setFirstText kids v = kids.
Proof.
  induction kids as [| n rest IH]; cbn [find setFirstText]; [discriminate |].
  destruct (isTextNode n).
  - intros [= ->] Hv. destruct t; try discriminate Hv. injection Hv as ->. reflexivity.
  - intros Hf Hv. rewrite (IH Hf Hv). reflexivity.
Qed.

Lemma rebaseFirstText_outcome (kids kids' : list Node) (assets : list Asset) :
  rebaseFirstText host templatePath absOutDir publicPath kids = Ok (kids', assets) ->
  match find isTextNode kids with
  | None => kids' = kids /\ assets = []
  | Some t =>
      exists v,
        valueOf t = Some v
        /\ Forall2 queued (locals (map (pair FromStyle) (parseURLs v))) assets
        /\ kids' = setFirstText kids
                     (written (locals (map (pair FromStyle) (parseURLs v))) v)
  end.
Proof.
  revert kids' assets. induction kids as [| n rest IH]; intros kids' assets H;
    cbn [rebaseFirstText find setFirstText] in *.
  - injection H as <- <-. auto.
  - destruct (isTextNode n).
    + destruct n as [t attrs ks | v | v | a b c]; cbn [valueOf] in H; try discriminate H.
      destruct (rebaseStyleText host templatePath absOutDir publicPath v)
        as [[v' assets'] |] eqn:E; cbn [bind] in H; [| discriminate H].
      injection H as <- <-. unfold rebaseStyleText in E.
      apply rebaseStyleURLs_outcome in E. destruct E as (new & -> & Hq & ->).
      exists v. cbn [valueOf app]. repeat split. exact Hq.
    + destruct (rebaseFirstText host templatePath absOutDir publicPath rest)
        as [[rest' assets'] |] eqn:E; cbn [bind] in H; [| discriminate H].
      injection H as <- <-. specialize (IH _ _ eq_refl).
      destruct (find isTextNode rest) as [t |].
      * destruct IH as (v & Hv & Hq & ->). exists v. repeat split; auto.
      * destruct IH as [-> ->]. auto.
Qed.

Lemma rebaseFirstText_succeeds (kids : list Node) :
  match find isTextNode kids with
  | None => True
  | Some t =>
      exists v,
        valueOf t = Some v
        /\ Forall canRebase (locals (map (pair FromStyle) (parseURLs v)))
  end ->
  exists res, rebaseFirstText host templatePath absOutDir publicPath kids = Ok res.
Proof.
  induction kids as [| n rest IH]; cbn [rebaseFirstText find]; [eauto |].
  destruct (isTextNode n).
  - intros (v & -> & Hall). unfold rebaseStyleText.
    destruct (rebaseStyleURLs_succeeds _ Hall (v, [])) as ([v' assets] & ->).
    cbn [bind]. eauto.
  - intros H. destruct (IH H) as ([rest' assets] & ->). cbn [bind]. eauto.
Qed.

Lemma setStyleText_nodeName (n : Node) (v : jsstring) :
  nodeName (setStyleText n v) = nodeName n.
Proof. destruct n; reflexivity. Qed.

Lemma rebaseStyle_outcome (n n' : Node) (assets : list Asset) :
  rebaseStyle host templatePath absOutDir publicPath n = Ok (n', assets) ->
  nodeName n' = nodeName n
  /\ styled n n'
  /\ textReadable n
  /\ Forall2 queued (locals (styleURLsOf n)) assets.
Proof.
  unfold rebaseStyle, styleOutcome, textReadable, styleURLsOf, styleTextNode.
  destruct n as [t attrs kids | v | v | a b c]; cbn [childNodesOf find];
    try (intros [= <- <-]; destruct (isElement _); repeat split; constructor).
  destruct (isElement (Some (Element t attrs kids)));
    [| intros [= <- <-]; repeat split; constructor].
  destruct (rebaseFirstText host templatePath absOutDir publicPath kids)
    as [[kids' assets'] |] eqn:E; cbn [bind]; [| discriminate].
  intros [= <- <-]. apply rebaseFirstText_outcome in E.
  destruct (find isTextNode kids) as [tn |] eqn:Ef.
  - destruct E as (v & Hv & Hq & ->). rewrite Hv.
    repeat split; [| exists v; split; reflexivity | discriminate | exact Hq].
    intros Hall. rewrite (locals_of_skipped _ Hall). cbn [fold_left].
    rewrite (setFirstText_same kids tn v Ef Hv). reflexivity.
  - destruct E as [-> ->]. repeat split. constructor.
Qed.

Lemma rebaseStyle_succeeds (n : Node) :
  textReadable n ->
  Forall canRebase (locals (styleURLsOf n)) ->
  exists res, rebaseStyle host templatePath absOutDir publicPath n = Ok res.
Proof.
  unfold rebaseStyle, textReadable, styleURLsOf, styleTextNode.
  destruct n as [t attrs kids | v | v | a b c]; cbn [childNodesOf]; eauto.
  destruct (isElement (Some (Element t attrs kids))); [| eauto].
  intros Hread Hall.
  destruct (rebaseFirstText_succeeds kids) as ([kids' assets] & ->); [| cbn [bind]; eauto].
  destruct (find isTextNode kids) as [tn |]; [| exact I].
  destruct (valueOf tn) as [v |]; [| congruence]. eauto.
Qed.

Lemma rebaseStyles_outcome (kids kids' : list Node) (assets : list Asset) :
  rebaseStyles host templatePath absOutDir publicPath kids = Ok (kids', assets) ->
  Forall2 (fun n n' =>
             if eqb (nodeName n) (js "style")
             then nodeName n' = nodeName n /\ styled n n'
             else n' = n) kids kids'
  /\ Forall (fun n => eqb (nodeName n) (js "style") = true -> textReadable n) kids
  /\ Forall2 queued (locals (styleURLs kids)) assets.
Proof.
  revert kids' assets. induction kids as [| n rest IH]; intros kids' assets H;
    cbn [rebaseStyles] in H.
  - injection H as <- <-. repeat split; constructor.
  - destruct (if eqb (nodeName n) (js "style")
              then rebaseStyle host templatePath absOutDir publicPath n
              else Ok (n, [])) as [[n' a1] |] eqn:E1; cbn [bind] in H; [| discriminate H].
    destruct (rebaseStyles host templatePath absOutDir publicPath rest)
      as [[rest' a2] |] eqn:E2; cbn [bind] in H; [| discriminate H].
    injection H as <- <-. destruct (IH _ _ eq_refl) as (IHn & IHr & IHa).
    unfold styleURLs. cbn [flat_map]. rewrite filter_app.
    destruct (eqb (nodeName n) (js "style")) eqn:En.
    + apply rebaseStyle_outcome in E1. destruct E1 as (Hname & Hn & Hr & Ha).
      repeat split.
      * constructor; [rewrite En; auto | exact IHn].
      * constructor; [intros _; exact Hr | exact IHr].
      * apply Forall2_app; assumption.
    + injection E1 as <- <-. repeat split.
      * constructor; [rewrite En; reflexivity | exact IHn].
      * constructor; [rewrite En; discriminate | exact IHr].
      * cbn [filter app]. exact IHa.
Qed.

Lemma rebaseStyles_succeeds (kids : list Node) :
  Forall (fun n => eqb (nodeName n) (js "style") = true -> textReadable n) kids ->
  Forall canRebase (locals (styleURLs kids)) ->
  exists res, rebaseStyles host templatePath absOutDir publicPath kids = Ok res.
Proof.
  induction kids as [| n rest IH]; cbn [rebaseStyles]; [eauto |].
  unfold styleURLs. cbn [flat_map]. rewrite filter_app, Forall_app.
  intros Hread [Hn Hrest]. inversion Hread as [| x l Hr Hreads]; subst.
  destruct (IH Hreads Hrest) as ([rest' a2] & ->).
  destruct (eqb (nodeName n) (js "style")).
  - destruct (rebaseStyle_succeeds n (Hr eq_refl) Hn) as ([n' a1] & ->). cbn [bind]. eauto.
  - cbn [bind]. eauto.
Qed.

Lemma untouched_group (name other : jsstring) (f : Node -> list Discovered)
    (kids kids' : list Node) :
  eqb name other = false ->
  Forall2 (untouched name) kids kids' ->
  flat_map (fun n => if eqb (nodeName n) other then f n else []) kids'
  = flat_map (fun n => if eqb (nodeName n) other then f n else []) kids.
Proof.
  intros Hdiff. induction 1 as [| n n' kids kids' [Hname Hsame] _ IH]; [reflexivity |].
  cbn [flat_map]. rewrite IH, Hname. f_equal.
  destruct (eqb (nodeName n) other) eqn:Eo; [| reflexivity].
  rewrite Hsame; [reflexivity |].
  apply eqb_eq in Eo. rewrite Eo.
  destruct (eqb other name) eqn:E; [| reflexivity].
  apply eqb_eq in E. subst other.
  assert (Hrefl : eqb name name = true) by (apply eqb_eq; reflexivity).
  congruence.
Qed.

Lemma untouched_readable (name other : jsstring) (P : Node -> Prop)
    (kids kids' : list Node) :
  eqb name other = false ->
  Forall2 (untouched name) kids kids' ->
  Forall (fun n => eqb (nodeName n) other = true -> P n) kids
  <-> Forall (fun n => eqb (nodeName n) other = true -> P n) kids'.
Proof.
  intros Hdiff. induction 1 as [| n n' kids kids' [Hname Hsame] _ IH]; [tauto |].
  assert (Hn : eqb (nodeName n) other = true -> n' = n).
  { intros Eo. apply Hsame. apply eqb_eq in Eo. rewrite Eo.
    destruct (eqb other name) eqn:E; [| reflexivity].
    apply eqb_eq in E. subst other.
    assert (Hrefl : eqb name name = true) by (apply eqb_eq; reflexivity).
    congruence. }
  split; intros H; inversion H as [| x l Hx Hl]; subst; constructor;
    try (apply IH; exact Hl).
  - rewrite Hname. intros Eo. rewrite (Hn Eo). auto.
  - intros Eo. rewrite <- (Hn Eo). apply Hx. rewrite Hname. exact Eo.
Qed.

Lemma tags_untouched (name : jsstring) (kids kids' : list Node) :
  Forall2 (fun n n' => if eqb (nodeName n) name then tagged n n' else n' = n) kids kids' ->
  Forall2 (untouched name) kids kids'.
Proof.
  apply Forall2_impl. intros n n' H. unfold untouched.
  destruct (eqb (nodeName n) name).
  - split; [apply tagOutcome_nodeName; exact H | discriminate].
  - subst n'. auto.
Qed.

Lemma head_outcome (n n1 n2 n3 : Node) :
  (if eqb (nodeName n) (js "link") then tagged n n1 else n1 = n) ->
  (if eqb (nodeName n1) (js "script") then tagged n1 n2 else n2 = n1) ->
  (if eqb (nodeName n2) (js "style")
   then nodeName n3 = nodeName n2 /\ styled n2 n3
   else n3 = n2) ->
  headOutcome host templatePath publicPath n n3.
Proof.
  unfold headOutcome. intros H1 H2 H3.
  destruct (eqb (nodeName n) (js "link")) eqn:El.
  - pose proof (tagOutcome_nodeName _ _ H1) as Hname.
    apply eqb_eq in El. rewrite El in Hname. rewrite Hname in H2.
    change (eqb (js "link") (js "script")) with false in H2. cbv iota in H2. subst n2.
    rewrite Hname in H3. change (eqb (js "link") (js "style")) with false in H3.
    cbv iota in H3. subst n3. exact H1.
  - subst n1. cbn [orb]. destruct (eqb (nodeName n) (js "script")) eqn:Es.
    + pose proof (tagOutcome_nodeName _ _ H2) as Hname.
      apply eqb_eq in Es. rewrite Es in Hname. rewrite Hname in H3.
      change (eqb (js "script") (js "style")) with false in H3. cbv iota in H3.
      subst n3. exact H2.
    + subst n2. destruct (eqb (nodeName n) (js "style")); [apply H3 | exact H3].
Qed.

(** Asset discovery as a whole: one pair per local URL, in the order of the
    visits, and what is left of every child of head and body. *)
Lemma discoverAssets_outcome (head body head' body' : list Node) (assets : list Asset) :
  discoverAssets host templatePath absOutDir publicPath false head body
    = Ok (head', body', assets) ->
  Forall2 queued (locals (discovered head body)) assets
  /\ Forall2 (headOutcome host templatePath publicPath) head head'
  /\ Forall2 (bodyOutcome host templatePath publicPath) body body'
  /\ Forall (fun n => eqb (nodeName n) (js "style") = true -> textReadable n) head.
Proof.
  unfold discoverAssets. intros H.
  destruct (rebaseTags _ _ _ _ (js "link") head) as [[head1 a1] |] eqn:E1;
    cbn [bind] in H; [| discriminate H].
  destruct (rebaseTags _ _ _ _ (js "script") head1) as [[head2 a2] |] eqn:E2;
    cbn [bind] in H; [| discriminate H].
  destruct (rebaseTags _ _ _ _ (js "script") body) as [[body1 a3] |] eqn:E3;
    cbn [bind] in H; [| discriminate H].
  destruct (rebaseStyles _ _ _ _ head2) as [[head3 a4] |] eqn:E4;
    cbn [bind] in H; [| discriminate H].
  injection H as <- <- <-.
  apply rebaseTags_outcome in E1, E2, E3. apply rebaseStyles_outcome in E4.
  destruct E1 as [F1 Q1], E2 as [F2 Q2], E3 as [F3 Q3], E4 as (F4 & R4 & Q4).
  pose proof (tags_untouched _ _ _ F1) as U1.
  pose proof (tags_untouched _ _ _ F2) as U2.
  assert (Hscript : tagURLs (js "script") head1 = tagURLs (js "script") head)
    by (apply (untouched_group (js "link")); [reflexivity | exact U1]).
  assert (Hstyle : styleURLs head2 = styleURLs head).
  { unfold styleURLs.
    rewrite (untouched_group (js "script") (js "style") _ head1 head2 eq_refl U2).
    apply (untouched_group (js "link")); [reflexivity | exact U1]. }
  rewrite Hscript in Q2. rewrite Hstyle in Q4.
  split; [| split; [| split]].
  - unfold discovered. rewrite !filter_app. repeat apply Forall2_app; assumption.
  - apply (Forall2_compose _ _ _ head head1 head3
             (fun a b c (Hab : if eqb (nodeName a) (js "link") then tagged a b else b = a)
                  (Hbc : exists m,
                      (if eqb (nodeName b) (js "script") then tagged b m else m = b)
                      /\ (if eqb (nodeName m) (js "style")
                          then nodeName c = nodeName m /\ styled m c
                          else c = m)) =>
                match Hbc with
                | ex_intro _ m (conj H2 H3) => head_outcome a b m c Hab H2 H3
                end) F1).
    clear - F2 F4. revert head3 F4.
    induction F2 as [| b m head1 head2 Hbm _ IH]; intros head3 F4;
      inversion F4 as [| m' c l l' Hmc Hrest]; subst; constructor; eauto.
  - exact F3.
  - apply (untouched_readable (js "link") (js "style") _ head head1 eq_refl U1).
    apply (untouched_readable (js "script") (js "style") _ head1 head2 eq_refl U2).
    exact R4.
Qed.

Lemma discoverAssets_succeeds (head body : list Node) :
  Forall canRebase (locals (discovered head body)) ->
  Forall (fun n => eqb (nodeName n) (js "style") = true -> textReadable n) head ->
  exists res,
    discoverAssets host templatePath absOutDir publicPath false head body = Ok res.
Proof.
  unfold discovered, discoverAssets. rewrite !filter_app, !Forall_app.
  intros (Hl & Hs & Hb & Hst) Hread.
  destruct (rebaseTags_succeeds (js "link") head Hl) as ([head1 a1] & E1).
  rewrite E1. cbn [bind]. apply rebaseTags_outcome in E1. destruct E1 as [F1 _].
  pose proof (tags_untouched _ _ _ F1) as U1.
  assert (Hscript : tagURLs (js "script") head1 = tagURLs (js "script") head)
    by (apply (untouched_group (js "link")); [reflexivity | exact U1]).
  rewrite <- Hscript in Hs.
  destruct (rebaseTags_succeeds (js "script") head1 Hs) as ([head2 a2] & E2).
  rewrite E2. cbn [bind]. apply rebaseTags_outcome in E2. destruct E2 as [F2 _].
  pose proof (tags_untouched _ _ _ F2) as U2.
  destruct (rebaseTags_succeeds (js "script") body Hb) as ([body1 a3] & E3).
  rewrite E3. cbn [bind].
  assert (Hstyle : styleURLs head2 = styleURLs head).
  { unfold styleURLs.
    rewrite (untouched_group (js "script") (js "style") _ head1 head2 eq_refl U2).
    apply (untouched_group (js "link")); [reflexivity | exact U1]. }
  rewrite <- Hstyle in Hst.
  apply (untouched_readable (js "link") (js "style") _ head head1 eq_refl U1) in Hread.
  apply (untouched_readable (js "script") (js "style") _ head1 head2 eq_refl U2) in Hread.
  destruct (rebaseStyles_succeeds head2 Hread Hst) as ([head3 a4] & E4).
  rewrite E4. cbn [bind]. eauto.
Qed.

Lemma skipped_iff (d : Discovered) :
  skipped host d = true
  <-> (path_isAbsolute host (snd d) = true
       \/ includes (snd d) (js "://") = true
       \/ startsWith (snd d) (js "data:") = true)
      \/ (fst d = FromStyle /\ snd d = []).
Proof.
  rewrite <- isAbsoluteOrURL_iff. unfold skipped. destruct d as [[|] url]; cbn [fst snd].
  - split; [auto | intros [H | [H _]]; [exact H | discriminate H]].
  - rewrite orb_true_iff. destruct url as [| c url]; cbn [truthy negb].
    + split; auto.
    + split; [intros [H | H]; [discriminate H | auto]
             | intros [H | [_ H]]; [auto | discriminate H]].
Qed.

End Skip.

(** C7, as amended.  A discovered URL is skipped exactly when it is an
    absolute path, contains [://] or starts with [data:], or is the empty
    payload of a style text.  Asset discovery succeeds exactly when every
    discovered URL that is not skipped can be rebased (and every style text
    has a value), and then:
    - the queue holds one pair per discovered URL that is not skipped, in the
      order of the visits, each the pair of that URL: no pair is queued for a
      skipped URL;
    - a link or script whose URL is skipped, or that has none, is left exactly
      as it was, and any other has the rebased URL assigned to that
      attribute;
    - a style element of head without text, or whose scanned URLs are all
      skipped, is left exactly as it was; the text of any other is the result
      of one [replace] per scanned URL that is not skipped;
    - every other child of head and body is left exactly as it was. *)
Theorem skipped_urls_are_left_alone (host : Host) (templatePath absOutDir : jsstring)
    (publicPath : option jsstring) (head body : list Node) :
  (forall d,
      skipped host d = true
      <-> (path_isAbsolute host (snd d) = true
           \/ includes (snd d) (js "://") = true
           \/ startsWith (snd d) (js "data:") = true)
          \/ (fst d = FromStyle /\ snd d = []))
  /\ ((exists res,
          discoverAssets host templatePath absOutDir publicPath false head body = Ok res)
      <-> Forall (rebasable host templatePath publicPath)
            (filter (isLocal host) (discovered head body))
          /\ Forall (fun n => eqb (nodeName n) (js "style") = true -> textReadable n) head)
  /\ (forall head' body' assets,
         discoverAssets host templatePath absOutDir publicPath false head body
           = Ok (head', body', assets) ->
         Forall2 (queuedAs host templatePath absOutDir publicPath)
           (filter (isLocal host) (discovered head body)) assets
         /\ Forall2 (headOutcome host templatePath publicPath) head head'
         /\ Forall2 (bodyOutcome host templatePath publicPath) body body').
Proof.
  split; [apply skipped_iff |]. split.
  - split.
    + intros ([[head' body'] assets] & H).
      apply discoverAssets_outcome in H. destruct H as (Hq & _ & _ & Hr).
      split; [| exact Hr].
      eapply Forall2_Forall_l; [| exact Hq].
      intros d a (r & Hr' & _). exists r. exact Hr'.
    + intros [Hc Hr]. apply discoverAssets_succeeds; assumption.
  - intros head' body' assets H.
    apply discoverAssets_outcome in H. tauto.
Qed.

Lemma skipped_urls_are_left_alone_witness :
  discovered mixedHead []
  = [ (FromTag, js "favicon.ico"); (FromTag, js "http://x.org/s.css");
      (FromStyle, js "data:image/gif;base64,AAAA"); (FromStyle, []);
      (FromStyle, js "img/bg.png") ]
  /\ filter (isLocal sampleHost) (discovered mixedHead [])
     = [ (FromTag, js "favicon.ico"); (FromStyle, js "img/bg.png") ]
  /\ discoverAssets sampleHost (js "/proj/src/index.html") (js "/proj/dist")
       (Some (js "/public")) false mixedHead []
     = Ok (mixedHeadAfter, [], mixedAssets)
  /\ Forall2
       (queuedAs sampleHost (js "/proj/src/index.html") (js "/proj/dist")
          (Some (js "/public")))
       (filter (isLocal sampleHost) (discovered mixedHead [])) mixedAssets
  /\ Forall2 (headOutcome sampleHost (js "/proj/src/index.html") (Some (js "/public")))
       mixedHead mixedHeadAfter.
Proof.
  assert (H : discoverAssets sampleHost (js "/proj/src/index.html") (js "/proj/dist")
                (Some (js "/public")) false mixedHead []
              = Ok (mixedHeadAfter, [], mixedAssets))
    by (vm_compute; reflexivity).
  split; [vm_compute; reflexivity |]. split; [vm_compute; reflexivity |].
  split; [exact H |].
  destruct (skipped_urls_are_left_alone sampleHost (js "/proj/src/index.html")
              (js "/proj/dist") (Some (js "/public")) mixedHead [])
    as (_ & _ & Hout).
  destruct (Hout _ _ _ H) as (Hq & Hh & _). split; assumption.
Defined.

(** C7 as stated fails in style text.  The empty URL of [url()] is none of
    the three skipped kinds, yet the guard [!url] skips it: nothing is rebased
    or queued for it.  And the text of a skipped URL can be rewritten: the
    rebased value of [a.png] replaces the first occurrence of [a.png], which
    lies inside [http://x.org/a.png], although the option's documentation
    says that absolute paths and URIs are ignored. *)
Lemma style_urls_against_the_classification :
  (parseURLs emptyUrlStyle = [[]]
   /\ isAbsoluteOrURL sampleHost [] = false
   /\ rebaseStyleText sampleHost (js "/proj/src/index.html") (js "/proj/dist") None
        emptyUrlStyle
      = Ok (emptyUrlStyle, []))
  /\ (parseURLs remoteStyle = [js "http://x.org/a.png"; js "a.png"]
      /\ isAbsoluteOrURL sampleHost (js "http://x.org/a.png") = true
      /\ rebaseStyleText sampleHost (js "/proj/src/index.html") (js "/proj/dist")
           (Some (js "/public")) remoteStyle
         = Ok (js "a{background:url(http://x.org//public/a.png)} b{background:url(a.png)}",
               [(js "/proj/src/a.png", js "/proj/dist/a.png")])).
Proof.
  repeat split; vm_compute; reflexivity.
Qed.


(** ** The output cache *)

Lemma set_has_In (s : StringSet) (x : jsstring) : set_has s x = true <-> In x s.
Proof.
  unfold set_has. rewrite existsb_exists. split.
  - intros (y & Hy & E). apply eqb_eq in E. subst. exact Hy.
  - intros H. exists x. split; [exact H | apply eqb_eq; reflexivity].
Qed.

Lemma set_has_false (s : StringSet) (x : jsstring) : set_has s x = false <-> ~ In x s.
Proof.
  rewrite <- set_has_In. destruct (set_has s x); split; congruence.
Qed.

Lemma set_add_In (s : StringSet) (x y : jsstring) :
  In y (set_add s x) <-> In y s \/ y = x.
Proof.
  unfold set_add. destruct (set_has s x) eqn:E.
  - apply set_has_In in E. split; [auto | intros [H | ->]; assumption].
  - rewrite in_app_iff. simpl. intuition.
Qed.

Lemma set_delete_In (s : StringSet) (x y : jsstring) :
  In y (set_delete s x) <-> In y s /\ y <> x.
Proof.
  unfold set_delete. rewrite filter_In, negb_true_iff. split; intros [H1 H2]; split; auto.
  - intros ->. rewrite (proj2 (eqb_eq x x) eq_refl) in H2. discriminate.
  - destruct (eqb y x) eqn:E; [apply eqb_eq in E; contradiction | reflexivity].
Qed.

Lemma set_from_In (values : list jsstring) (x : jsstring) :
  In x (set_from values) <-> In x values.
Proof.
  unfold set_from.
  assert (H : forall acc, In x (fold_left set_add values acc) <-> In x acc \/ In x values).
  { induction values as [| v values IH]; intros acc; simpl; [tauto |].
    rewrite IH, set_add_In. intuition. }
  rewrite H. simpl. tauto.
Qed.

(** The first loop of the change detection. *)
Lemma addMissing_In (current : list jsstring) :
  forall cache modified x,
    In x (fst (addMissing current cache modified)) <-> In x cache \/ In x current.
Proof.
  unfold addMissing.
  induction current as [| o current IH]; intros cache modified x; simpl; [tauto |].
  unfold addStep at 2. simpl. destruct (set_has cache o) eqn:E; simpl.
  - rewrite IH. apply set_has_In in E. intuition (subst; auto).
  - rewrite IH, set_add_In. intuition.
Qed.

Lemma addMissing_unchanged (current : list jsstring) (cache : StringSet) (modified : bool) :
  (forall o, In o current -> In o cache) ->
  addMissing current cache modified = (cache, modified).
Proof.
  unfold addMissing. induction current as [| o current IH]; intros H; simpl; [reflexivity |].
  unfold addStep at 2. simpl.
  rewrite (proj2 (set_has_In cache o)) by (apply H; left; reflexivity). simpl.
  apply IH. intros x Hx. apply H. right. exact Hx.
Qed.

Lemma addMissing_false (current : list jsstring) :
  forall cache modified cache',
    addMissing current cache modified = (cache', false) ->
    cache' = cache /\ modified = false.
Proof.
  unfold addMissing.
  induction current as [| o current IH]; intros cache modified cache' H; simpl in H.
  - injection H as <- ->. auto.
  - unfold addStep at 2 in H. simpl in H. destruct (set_has cache o); simpl in H.
    + apply IH in H. exact H.
    + apply IH in H. destruct H as [_ H]. discriminate H.
Qed.

(** The second loop, over any list of visited elements. *)
Lemma deleteStale_fold_In (current : StringSet) (visited : list jsstring) :
  forall acc modified x,
    In x (fst (fold_left (deleteStep current) visited (acc, modified)))
    <-> In x acc /\ (In x visited -> In x current).
Proof.
  induction visited as [| o visited IH]; intros acc modified x; simpl; [tauto |].
  unfold deleteStep at 2. destruct (set_has current o) eqn:E; simpl.
  - rewrite IH. apply set_has_In in E. intuition (subst; auto).
  - rewrite IH, set_delete_In. apply set_has_false in E. split.
    + intros [[Hx Hne] Hv]. split; [exact Hx |].
      intros [Ho | Hin]; [congruence | apply Hv; exact Hin].
    + intros [Hx Hv]. split; [split; [exact Hx |] |].
      * intros ->. apply E, Hv. left. reflexivity.
      * intros Hin. apply Hv. right. exact Hin.
Qed.

Lemma deleteStale_fold_unchanged (current : StringSet) (visited : list jsstring) :
  forall acc modified,
    (forall o, In o visited -> In o current) ->
    fold_left (deleteStep current) visited (acc, modified) = (acc, modified).
Proof.
  induction visited as [| o visited IH]; intros acc modified H; simpl; [reflexivity |].
  unfold deleteStep at 2.
  rewrite (proj2 (set_has_In current o)) by (apply H; left; reflexivity). simpl.
  apply IH. intros x Hx. apply H. right. exact Hx.
Qed.

Lemma deleteStale_fold_false (current : StringSet) (visited : list jsstring) :
  forall acc modified acc',
    fold_left (deleteStep current) visited (acc, modified) = (acc', false) ->
    acc' = acc /\ modified = false.
Proof.
  induction visited as [| o visited IH]; intros acc modified acc' H; simpl in H.
  - injection H as <- ->. auto.
  - unfold deleteStep at 2 in H. destruct (set_has current o); simpl in H.
    + apply IH in H. exact H.
    + apply IH in H. destruct H as [_ H]. discriminate H.
Qed.

Lemma deleteStale_eq (current cache : StringSet) (modified : bool) :
  deleteStale current cache modified
  = fold_left (deleteStep current) cache (cache, modified).
Proof. reflexivity. Qed.

(** After the two loops the cache holds the current outputs, whatever it held. *)
Lemma detectChange_In (current cache : StringSet) (x : jsstring) :
  In x (fst (detectChange current cache)) <-> In x current.
Proof.
  unfold detectChange.
  destruct (addMissing current cache false) as [cache1 modified1] eqn:E.
  rewrite deleteStale_eq, deleteStale_fold_In.
  pose proof (addMissing_In current cache false x) as H. rewrite E in H. simpl in H.
  tauto.
Qed.

Lemma detectChange_unchanged (current cache : StringSet) :
  (forall o, In o current <-> In o cache) ->
  detectChange current cache = (cache, false).
Proof.
  intros H. unfold detectChange.
  rewrite addMissing_unchanged by (intros o; apply H).
  rewrite deleteStale_eq. apply deleteStale_fold_unchanged. intros o; apply H.
Qed.

Lemma detectChange_false (current cache cache' : StringSet) :
  detectChange current cache = (cache', false) -> cache' = cache.
Proof.
  unfold detectChange.
  destruct (addMissing current cache false) as [cache1 modified1] eqn:E.
  rewrite deleteStale_eq. intros H. apply deleteStale_fold_false in H.
  destruct H as [-> ->]. apply addMissing_false in E. apply E.
Qed.


(** ** Passes *)

Section Passes.

Variable host : Host.
Variable options : HtmlPluginOptions.
Variable ctx : Context.

Local Abbreviation pass := (onEnd host options ctx).
Local Abbreviation matched :=
  (fun outputPaths => cssOutputs host ctx outputPaths ++ jsOutputs host ctx outputPaths).

Lemma currentOutputs_In (outputPaths : list jsstring) (o : jsstring) :
  In o (currentOutputs host ctx outputPaths) <-> In o (matched outputPaths).
Proof. unfold currentOutputs. apply set_from_In. Qed.

Lemma state_eta (st : PluginState) : mkState (outputCache st) (copyLedger st) = st.
Proof. destruct st. reflexivity. Qed.

(** Tag synthesis and emission do not touch the output cache. *)
Lemma synthesizeAndEmit_cache (fs : FileSystem) (p : Prepared)
    (cssOutput jsOutput : list jsstring) (st : PluginState) :
  outputCache (fst (synthesizeAndEmit host options ctx fs p cssOutput jsOutput st))
  = outputCache st.
Proof.
  unfold synthesizeAndEmit.
  destruct (createAll _ _); [| reflexivity].
  destruct (createAll _ _); [| reflexivity].
  destruct (spliceTags _ _ _ _) as [head body].
  destruct (writeHTMLOutput _ _ _ _) as [writeOps writeOk].
  destruct (copyAssets _ _ _) as [[ledger copyOps] copyOk].
  reflexivity.
Qed.

(** It never ends as a throw before change detection or as "not modified". *)
Lemma synthesizeAndEmit_result (fs : FileSystem) (p : Prepared)
    (cssOutput jsOutput : list jsstring) (st : PluginState) :
  match snd (synthesizeAndEmit host options ctx fs p cssOutput jsOutput st) with
  | Threw _ | NotModified => False
  | _ => True
  end.
Proof.
  unfold synthesizeAndEmit.
  destruct (createAll _ _); [| exact I].
  destruct (createAll _ _); [| exact I].
  destruct (spliceTags _ _ _ _) as [head body].
  destruct (writeHTMLOutput _ _ _ _) as [writeOps writeOk].
  destruct (copyAssets _ _ _) as [[ledger copyOps] copyOk].
  exact I.
Qed.

(** A pass that does not reach change detection leaves the state as it is. *)
Lemma pass_threw (fs : FileSystem) (metafile : option (list jsstring)) (st : PluginState) :
  reachedDetection (snd (pass fs metafile st)) = false ->
  fst (pass fs metafile st) = st.
Proof.
  unfold onEnd. destruct metafile as [outputPaths |]; [| reflexivity].
  destruct (prepare host options ctx) as [p | e]; [| reflexivity].
  destruct (detectChange _ _) as [cache modified].
  destruct modified; cbn [negb]; [| discriminate].
  pose proof (synthesizeAndEmit_result fs p (cssOutputs host ctx outputPaths)
                (jsOutputs host ctx outputPaths) (mkState cache (copyLedger st))) as H.
  destruct (snd (synthesizeAndEmit _ _ _ _ _ _ _ _)); try contradiction; discriminate.
Qed.

(** A pass that reaches change detection had a build report, and leaves in
    the cache the matched outputs of that report. *)
Lemma pass_detected (fs : FileSystem) (metafile : option (list jsstring)) (st : PluginState) :
  reachedDetection (snd (pass fs metafile st)) = true ->
  exists outputPaths,
    metafile = Some outputPaths
    /\ forall o, In o (outputCache (fst (pass fs metafile st))) <-> In o (matched outputPaths).
Proof.
  unfold onEnd. destruct metafile as [outputPaths |]; [| discriminate].
  destruct (prepare host options ctx) as [p | e]; [| discriminate].
  intros _. exists outputPaths. split; [reflexivity |]. intros o.
  pose proof (detectChange_In (currentOutputs host ctx outputPaths) (outputCache st) o) as H.
  destruct (detectChange _ _) as [cache modified]. cbn [fst] in H.
  rewrite currentOutputs_In in H.
  destruct modified; cbn [negb]; [rewrite synthesizeAndEmit_cache |]; exact H.
Qed.

(** The pass over outputs that the cache already holds. *)
Lemma pass_unchanged (fs : FileSystem) (outputPaths : list jsstring) (st : PluginState) :
  (forall o, In o (matched outputPaths) <-> In o (outputCache st)) ->
  pass fs (Some outputPaths) st
  = (st, match prepare host options ctx with
         | Ok _ => NotModified
         | Throw e => Threw e
         end).
Proof.
  intros H. unfold onEnd.
  destruct (prepare host options ctx) as [p | e]; [| reflexivity].
  rewrite detectChange_unchanged.
  - cbn [negb]. rewrite state_eta. reflexivity.
  - intros o. rewrite currentOutputs_In. apply H.
Qed.

Lemma prepare_ignoring_assets :
  opt_ignoreAssets options = Some true ->
  exists p, prepare host options ctx = Ok p.
Proof.
  intros H. unfold prepare, ignoreAssets. rewrite H.
  destruct (findOrAddElement _ (js "html")) as [docKids hi].
  destruct (findOrAddElement _ (js "head")) as [htmlKids1 hdi].
  destruct (findOrAddElement _ (js "body")) as [htmlKids bdi].
  cbn [discoverAssets bind]. eexists. reflexivity.
Qed.

(** C1: a pass whose matched CSS and JS outputs are exactly the paths in the
    output cache leaves the state as it is, issues nothing to the file system
    and splices no tag: it returns at the "not modified" test, unless asset
    discovery has thrown before (which it cannot when assets are ignored).
    Hence the second of two passes over the same output paths writes nothing
    and splices nothing, whatever the first one did. *)
Theorem unchanged_outputs_skip_emission :
  (forall fs outputPaths st,
      (forall o, In o (matched outputPaths) <-> In o (outputCache st)) ->
      let r := pass fs (Some outputPaths) st in
      fst r = st
      /\ issuedOps (snd r) = []
      /\ splicedDocument (snd r) = None
      /\ (snd r = NotModified
          \/ exists e, prepare host options ctx = Throw e /\ snd r = Threw e)
      /\ (opt_ignoreAssets options = Some true -> snd r = NotModified))
  /\ (forall fs1 fs2 outputPaths st,
         let r1 := pass fs1 (Some outputPaths) st in
         let r2 := pass fs2 (Some outputPaths) (fst r1) in
         fst r2 = fst r1
         /\ issuedOps (snd r2) = []
         /\ splicedDocument (snd r2) = None).
Proof.
  split.
  - intros fs outputPaths st H r. subst r. rewrite (pass_unchanged fs outputPaths st H).
    cbn [fst snd].
    destruct (prepare host options ctx) as [p | e] eqn:Ep; cbn [issuedOps splicedDocument].
    + repeat split; auto.
    + repeat split; auto.
      * right. exists e. auto.
      * intros Hi. destruct (prepare_ignoring_assets Hi) as [p Hp]. congruence.
  - intros fs1 fs2 outputPaths st r1 r2.
    assert (Hr2 : r2 = (fst r1, match prepare host options ctx with
                                | Ok _ => NotModified
                                | Throw e => Threw e
                                end)).
    { subst r2. destruct (reachedDetection (snd r1)) eqn:Hd.
      - apply pass_unchanged. subst r1.
        destruct (pass_detected _ _ _ Hd) as (outputPaths' & [= <-] & Hcache).
        intros o. symmetry. apply Hcache.
      - subst r1. rewrite (pass_threw _ _ _ Hd).
        unfold onEnd in Hd |- *.
        destruct (prepare host options ctx) as [p | e]; [| reflexivity].
        destruct (detectChange _ _) as [cache modified].
        destruct modified; cbn [negb] in Hd; [| discriminate Hd].
        pose proof (synthesizeAndEmit_result fs1 p (cssOutputs host ctx outputPaths)
                      (jsOutputs host ctx outputPaths) (mkState cache (copyLedger st))) as H.
        destruct (snd (synthesizeAndEmit _ _ _ _ _ _ _ _));
          try contradiction; discriminate. }
    rewrite Hr2. cbn [fst snd].
    destruct (prepare host options ctx); repeat split; reflexivity.
Qed.

Lemma pass_not_modified (fs : FileSystem) (metafile : option (list jsstring))
    (st : PluginState) :
  snd (pass fs metafile st) = NotModified -> fst (pass fs metafile st) = st.
Proof.
  unfold onEnd. destruct metafile as [outputPaths |]; [| discriminate].
  destruct (prepare host options ctx) as [p | e]; [| discriminate].
  destruct (detectChange _ _) as [cache modified] eqn:E.
  destruct modified; cbn [negb].
  - pose proof (synthesizeAndEmit_result fs p (cssOutputs host ctx outputPaths)
                  (jsOutputs host ctx outputPaths) (mkState cache (copyLedger st))) as H.
    intros Hn. rewrite Hn in H. contradiction.
  - intros _. apply detectChange_false in E. subst cache. apply state_eta.
Qed.

Lemma run_follows_detection (passes : list (FileSystem * option (list jsstring))) :
  forall st initial,
    (forall o, In o (outputCache st) <-> In o initial) ->
    forall o,
      In o (outputCache (fst (runPasses host options ctx passes st)))
      <-> In o (lastDetected host ctx passes
                  (snd (runPasses host options ctx passes st)) initial).
Proof.
  induction passes as [| [fs metafile] passes IH]; intros st initial Hinit o;
    cbn [runPasses lastDetected]; [apply Hinit |].
  pose proof (pass_threw fs metafile st) as Hthrew.
  pose proof (pass_detected fs metafile st) as Hdet.
  destruct (pass fs metafile st) as [st1 r]. cbn [fst snd] in *.
  specialize (IH st1).
  destruct (runPasses host options ctx passes st1) as [st2 rs]. cbn [fst snd] in *.
  cbn [lastDetected]. apply IH.
  destruct (reachedDetection r).
  - destruct (Hdet eq_refl) as (outputPaths & -> & Hcache). exact Hcache.
  - rewrite (Hthrew eq_refl). destruct metafile; exact Hinit.
Qed.

Lemma run_follows_completion (passes : list (FileSystem * option (list jsstring))) :
  forall st initial,
    (forall o, In o (outputCache st) <-> In o initial) ->
    forallb (fun r => negb (emissionFailed r))
      (snd (runPasses host options ctx passes st)) = true ->
    forall o,
      In o (outputCache (fst (runPasses host options ctx passes st)))
      <-> In o (lastCompleted host ctx passes
                  (snd (runPasses host options ctx passes st)) initial).
Proof.
  induction passes as [| [fs metafile] passes IH]; intros st initial Hinit Hok o;
    cbn [runPasses lastCompleted] in *; [apply Hinit |].
  pose proof (pass_threw fs metafile st) as Hthrew.
  pose proof (pass_detected fs metafile st) as Hdet.
  pose proof (pass_not_modified fs metafile st) as Hsame.
  destruct (pass fs metafile st) as [st1 r]. cbn [fst snd] in *.
  specialize (IH st1).
  destruct (runPasses host options ctx passes st1) as [st2 rs]. cbn [fst snd] in *.
  cbn [lastCompleted forallb] in *. apply andb_prop in Hok. destruct Hok as [Hr Hrs].
  apply IH; [| exact Hrs].
  destruct r as [e | | ops | doc ops completed]; cbn [emissionFailed emissionCompleted] in *.
  - rewrite (Hthrew eq_refl). destruct metafile; exact Hinit.
  - rewrite (Hsame eq_refl). destruct metafile; exact Hinit.
  - discriminate Hr.
  - destruct completed; [| discriminate Hr].
    destruct (Hdet eq_refl) as (outputPaths & -> & Hcache). exact Hcache.
Qed.

(** C4, as amended: between passes the output cache holds exactly the
    matched CSS and JS outputs of the latest pass that reached change
    detection, whether or not the emission of that pass completed; a pass
    that throws before change detection leaves it as it was.  As long as no
    emission has failed, these are the outputs of the latest completed
    emission. *)
Theorem cache_follows_change_detection
    (passes : list (FileSystem * option (list jsstring))) (st : PluginState) :
  let run := runPasses host options ctx passes st in
  (forall o,
      In o (outputCache (fst run))
      <-> In o (lastDetected host ctx passes (snd run) (outputCache st)))
  /\ (forallb (fun r => negb (emissionFailed r)) (snd run) = true ->
      forall o,
        In o (outputCache (fst run))
        <-> In o (lastCompleted host ctx passes (snd run) (outputCache st))).
Proof.
  intros run. split.
  - apply run_follows_detection. tauto.
  - apply run_follows_completion. tauto.
Qed.

End Passes.


Lemma unchanged_outputs_skip_emission_witness :
  let r := onEnd sampleHost sampleOptions sampleContext goodFS appReport appCached in
  fst r = appCached
  /\ issuedOps (snd r) = []
  /\ splicedDocument (snd r) = None
  /\ (snd r = NotModified
      \/ exists e, prepare sampleHost sampleOptions sampleContext = Throw e
                   /\ snd r = Threw e)
  /\ (opt_ignoreAssets sampleOptions = Some true -> snd r = NotModified).
Proof.
  apply (proj1 (unchanged_outputs_skip_emission sampleHost sampleOptions sampleContext)
           goodFS [js "dist/app.js"] appCached).
  intros o. vm_compute. tauto.
Defined.

Lemma cache_follows_change_detection_witness :
  let run := runPasses sampleHost sampleOptions sampleContext goodRun initialState in
  forallb (fun r => negb (emissionFailed r)) (snd run) = true
  /\ (forall o,
         In o (outputCache (fst run))
         <-> In o (lastCompleted sampleHost sampleContext goodRun (snd run)
                     (outputCache initialState))).
Proof.
  assert (H : forallb (fun r => negb (emissionFailed r))
                (snd (runPasses sampleHost sampleOptions sampleContext goodRun
                        initialState)) = true)
    by (vm_compute; reflexivity).
  split; [exact H |].
  exact (proj2 (cache_follows_change_detection sampleHost sampleOptions sampleContext
                  goodRun initialState) H).
Defined.

(** C4 as stated fails: when the write of the HTML file fails, the cache
    already holds [dist/app.js] although no emission has completed, and the
    next pass over the same outputs returns "not modified". *)
Lemma failed_emission_fills_cache :
  let run := runPasses sampleHost sampleOptions sampleContext failingRun initialState in
  map emissionCompleted (snd run) = [false; false]
  /\ nth 1 (snd run) (Threw MissingMetafile) = NotModified
  /\ outputCache (fst run) = [js "dist/app.js"]
  /\ lastCompleted sampleHost sampleContext failingRun (snd run)
       (outputCache initialState) = [].
Proof.
  repeat split; vm_compute; reflexivity.
Qed.


(** * Further properties of the code *)

(** ** Placement next to existing tags *)

Section Placement.

Variable predicate : option Node -> bool.
Hypothesis predicate_undefined : predicate None = false.

Lemma findIndex_from_first {A : Type} (pred : A -> bool) (pre : list A) (x : A)
    (post : list A) :
  (forall y, In y pre -> pred y = false) ->
  pred x = true ->
  forall k, findIndex_from pred (pre ++ x :: post) k = k + Z.of_nat (length pre).
Proof.
  intros Hpre Hx. induction pre as [| y pre IH]; intros k; cbn [app findIndex_from].
  - rewrite Hx. cbn [length]. lia.
  - rewrite (Hpre y) by (left; reflexivity).
    rewrite IH by (intros z Hz; apply Hpre; right; exact Hz).
    cbn [length]. lia.
Qed.

Lemma findLastChildIndex_loop_last (pre : list Node) (n : Node) (post : list Node) :
  predicate (Some n) = true ->
  (forall m, In m post -> predicate (Some m) = false) ->
  forall j, findLastChildIndex_loop (pre ++ n :: post) predicate (length pre + j)
            = Z.of_nat (length pre).
Proof.
  intros Hn Hpost. induction j as [| j IH].
  - rewrite Nat.add_0_r.
    destruct (length pre) eqn:E; cbn [findLastChildIndex_loop];
      rewrite <- E, nth_error_app2, Nat.sub_diag by lia; cbn [nth_error];
      rewrite Hn; reflexivity.
  - rewrite Nat.add_succ_r. cbn [findLastChildIndex_loop].
    rewrite nth_error_app2 by lia.
    replace (S (length pre + j) - length pre)%nat with (S j) by lia.
    cbn [nth_error].
    destruct (nth_error post j) as [m |] eqn:E.
    + rewrite (Hpost m) by (eapply nth_error_In; eassumption). exact IH.
    + rewrite predicate_undefined. exact IH.
Qed.

Lemma findLastChildIndex_last (pre : list Node) (n : Node) (post : list Node) :
  predicate (Some n) = true ->
  (forall m, In m post -> predicate (Some m) = false) ->
  findLastChildIndex (pre ++ n :: post) predicate = Z.of_nat (length pre).
Proof.
  intros Hn Hpost. unfold findLastChildIndex.
  rewrite length_app. cbn [length].
  apply findLastChildIndex_loop_last; assumption.
Qed.

End Placement.

Lemma splice_insert_at {A : Type} (pre post items : list A) :
  splice_insert (pre ++ post) (Z.of_nat (length pre)) items = pre ++ items ++ post.
Proof.
  unfold splice_insert, rel_index.
  destruct (Z.ltb_spec (Z.of_nat (length pre)) 0); [lia |].
  rewrite length_app.
  replace (Z.to_nat (Z.min (Z.of_nat (length pre)) (Z.of_nat (length pre + length post))))
    with (length pre) by lia.
  rewrite firstn_app, firstn_all, Nat.sub_diag, skipn_app, skipn_all, Nat.sub_diag.
  cbn [firstn skipn app]. rewrite app_nil_r. reflexivity.
Qed.

(** X1: in a head that holds a link or style element, the policy "below"
    puts the new links right after the last such element and "above" puts
    them right before the first one; nothing else moves. *)
Theorem links_go_next_to_existing (pre post links : list Node) (n : Node) :
  isLinkOrStyle (Some n) = true ->
  ((forall m, In m post -> isLinkOrStyle (Some m) = false) ->
   splice_insert (pre ++ n :: post) (linkIndex Below (pre ++ n :: post)) links
   = pre ++ n :: links ++ post)
  /\ ((forall m, In m pre -> isLinkOrStyle (Some m) = false) ->
      splice_insert (pre ++ n :: post) (linkIndex Above (pre ++ n :: post)) links
      = pre ++ links ++ n :: post).
Proof.
  intros Hn. split; intros Hrest; unfold linkIndex.
  - rewrite findLastChildIndex_last by auto.
    replace (Z.of_nat (length pre) + 1) with (Z.of_nat (length (pre ++ [n])))
      by (rewrite length_app; cbn [length]; lia).
    replace (pre ++ n :: post) with ((pre ++ [n]) ++ post)
      by (rewrite <- app_assoc; reflexivity).
    rewrite splice_insert_at, <- app_assoc. reflexivity.
  - unfold findIndex.
    rewrite (findIndex_from_first (fun x => isLinkOrStyle (Some x)) pre n post Hrest Hn).
    apply (splice_insert_at pre (n :: post) links).
Qed.

Lemma links_go_next_to_existing_witness :
  splice_insert (sampleHead ++ styleLink :: sampleBody)
    (linkIndex Below (sampleHead ++ styleLink :: sampleBody)) [newLink]
  = sampleHead ++ styleLink :: [newLink] ++ sampleBody
  /\ splice_insert (sampleHead ++ styleLink :: sampleBody)
       (linkIndex Above (sampleHead ++ styleLink :: sampleBody)) [newLink]
     = sampleHead ++ [newLink] ++ styleLink :: sampleBody.
Proof.
  pose proof (links_go_next_to_existing sampleHead sampleBody [newLink] styleLink eq_refl)
    as [Hbelow Habove].
  split; [apply Hbelow | apply Habove];
    intros m Hm; cbn in Hm; intuition (subst; reflexivity).
Defined.

(** X2: the same for scripts, in whichever parent they are emitted to:
    "below" puts them right after the last existing script, "above" right
    before the first one. *)
Theorem scripts_go_next_to_existing (target : EmitTarget)
    (pre post scripts : list Node) (n : Node) :
  isScript (Some n) = true ->
  ((forall m, In m post -> isScript (Some m) = false) ->
   splice_insert (pre ++ n :: post)
     (scriptIndex (mkPlacement target Below) (pre ++ n :: post)) scripts
   = pre ++ n :: scripts ++ post)
  /\ ((forall m, In m pre -> isScript (Some m) = false) ->
      splice_insert (pre ++ n :: post)
        (scriptIndex (mkPlacement target Above) (pre ++ n :: post)) scripts
      = pre ++ scripts ++ n :: post).
Proof.
  intros Hn. split; intros Hrest; unfold scriptIndex; cbn [placement_endsWith_below emitPosition].
  - rewrite findLastChildIndex_last by auto.
    replace (Z.of_nat (length pre) + 1) with (Z.of_nat (length (pre ++ [n])))
      by (rewrite length_app; cbn [length]; lia).
    replace (pre ++ n :: post) with ((pre ++ [n]) ++ post)
      by (rewrite <- app_assoc; reflexivity).
    rewrite splice_insert_at, <- app_assoc. reflexivity.
  - unfold findIndex.
    rewrite (findIndex_from_first (fun x => isScript (Some x)) pre n post Hrest Hn).
    apply (splice_insert_at pre (n :: post) scripts).
Qed.

Lemma scripts_go_next_to_existing_witness :
  splice_insert (sampleBody ++ vendorScript :: [])
    (scriptIndex (mkPlacement Body Below) (sampleBody ++ vendorScript :: [])) [newScript]
  = sampleBody ++ vendorScript :: [newScript] ++ []
  /\ splice_insert (sampleBody ++ vendorScript :: [])
       (scriptIndex (mkPlacement Body Above) (sampleBody ++ vendorScript :: [])) [newScript]
     = sampleBody ++ [newScript] ++ vendorScript :: [].
Proof.
  pose proof (scripts_go_next_to_existing Body sampleBody [] [newScript] vendorScript eq_refl)
    as [Hbelow Habove].
  split; [apply Hbelow | apply Habove];
    intros m Hm; cbn in Hm; intuition (subst; reflexivity).
Defined.


(** ** The html, head and body elements *)

Lemma findIndex_from_found {A : Type} (pred : A -> bool) (l : list A) :
  forall k r,
    findIndex_from pred l k = r -> r <> -1 -> 0 <= k ->
    exists pre x post,
      l = pre ++ x :: post
      /\ (forall y, In y pre -> pred y = false)
      /\ pred x = true
      /\ r = k + Z.of_nat (length pre).
Proof.
  induction l as [| a l IH]; intros k r Hr Hne Hk; cbn [findIndex_from] in Hr.
  - congruence.
  - destruct (pred a) eqn:Ea.
    + exists [], a, l. repeat split; auto.
      * intros y [].
      * cbn [length]. lia.
    + destruct (IH (k + 1) r Hr Hne ltac:(lia)) as (pre & x & post & -> & Hpre & Hx & Hlen).
      exists (a :: pre), x, post. repeat split; auto.
      * intros y [<- | Hy]; auto.
      * cbn [length]. lia.
Qed.

Lemma findIndex_from_all_false {A : Type} (pred : A -> bool) (l : list A) :
  forall k, 0 <= k -> findIndex_from pred l k = -1 ->
            forall y, In y l -> pred y = false.
Proof.
  induction l as [| a l IH]; intros k Hk H y Hy; [destruct Hy |].
  cbn [findIndex_from] in H. destruct (pred a) eqn:Ea; [lia |].
  destruct Hy as [<- | Hy]; [exact Ea |]. eapply (IH (k + 1)); eauto. lia.
Qed.

Lemma update_nth_split {A : Type} (f : A -> A) (pre : list A) (x : A) (post : list A) :
  update_nth (length pre) f (pre ++ x :: post) = pre ++ f x :: post.
Proof.
  induction pre as [| a pre IH]; cbn [length app update_nth]; [reflexivity |].
  rewrite IH. reflexivity.
Qed.

Lemma nth_split {A : Type} (pre : list A) (x : A) (post : list A) (d : A) :
  nth (length pre) (pre ++ x :: post) d = x.
Proof.
  rewrite app_nth2, Nat.sub_diag by lia. reflexivity.
Qed.

Lemma nth_error_split {A : Type} (pre : list A) (x : A) (post : list A) :
  nth_error (pre ++ x :: post) (length pre) = Some x.
Proof.
  rewrite nth_error_app2, Nat.sub_diag by lia. reflexivity.
Qed.

Lemma findChildElement_eq (kids : list Node) (tag : jsstring) :
  findChildElement kids tag = findIndex_from (namedElement tag) kids 0.
Proof. reflexivity. Qed.

Lemma namedElement_inv (tag : jsstring) (n : Node) :
  namedElement tag n = true ->
  exists attrs kids, n = Element tag attrs kids.
Proof.
  unfold namedElement, tagIs. intros H. apply andb_prop in H. destruct H as [_ H].
  destruct n as [t attrs kids | | |]; cbn in H; try discriminate.
  apply eqb_eq in H. subst. eauto.
Qed.

Lemma namedElement_setChildNodes (tag : jsstring) (n : Node) (kids : list Node) :
  namedElement tag (setChildNodes n kids) = namedElement tag n.
Proof. destruct n; reflexivity. Qed.

Lemma findChildElement_split (tag : jsstring) (pre : list Node) (x : Node)
    (post : list Node) :
  (forall y, In y pre -> namedElement tag y = false) ->
  namedElement tag x = true ->
  findChildElement (pre ++ x :: post) tag = Z.of_nat (length pre).
Proof.
  intros Hpre Hx. rewrite findChildElement_eq.
  rewrite (findIndex_from_first (namedElement tag) pre x post Hpre Hx). lia.
Qed.

(** What [findChildElement(parent, tag) ?? addEmptyElement(parent, tag)]
    leaves: the child list split at the element it returns. *)
Lemma findOrAddElement_split (kids : list Node) (tag : jsstring) :
  namedElement tag (createElement tag []) = true ->
  exists pre x post,
    findOrAddElement kids tag = (pre ++ x :: post, length pre)
    /\ (forall y, In y pre -> namedElement tag y = false)
    /\ namedElement tag x = true
    /\ (kids = pre ++ x :: post
        \/ (kids = pre /\ x = createElement tag [] /\ post = [])).
Proof.
  intros Hnew. unfold findOrAddElement.
  destruct (Z.ltb_spec (findChildElement kids tag) 0) as [Hlt | Hge].
  - rewrite findChildElement_eq in Hlt.
    assert (Hnone : findIndex_from (namedElement tag) kids 0 = -1)
      by (destruct (findIndex_from_range (namedElement tag) kids 0); lia).
    exists kids, (createElement tag []), []. repeat split; auto.
    apply (findIndex_from_all_false (namedElement tag) kids 0); [lia | exact Hnone].
  - rewrite findChildElement_eq in *.
    destruct (findIndex_from_found (namedElement tag) kids 0 _ eq_refl)
      as (pre & x & post & -> & Hpre & Hx & Hlen); [lia | lia |].
    exists pre, x, post. rewrite Hlen.
    replace (Z.to_nat (0 + Z.of_nat (length pre))) with (length pre) by lia.
    repeat split; auto.
Qed.

(** X3: for a tag name that names an element, [findChildElement ?? addEmptyElement]
    returns the position of the first child element of that name; the
    existing children stay as they are, an empty element is appended only
    when there was none, and asking again adds nothing. *)
Theorem findOrAddElement_ensures (kids : list Node) (tag : jsstring) :
  namedElement tag (createElement tag []) = true ->
  let kids' := fst (findOrAddElement kids tag) in
  let i := snd (findOrAddElement kids tag) in
  findChildElement kids' tag = Z.of_nat i
  /\ (exists attrs children, nth_error kids' i = Some (Element tag attrs children))
  /\ (kids' = kids
      \/ (findChildElement kids tag = -1 /\ kids' = kids ++ [createElement tag []]))
  /\ findOrAddElement kids' tag = (kids', i).
Proof.
  intros Hnew kids' i. subst kids' i.
  destruct (findOrAddElement_split kids tag Hnew)
    as (pre & x & post & -> & Hpre & Hx & Hkids).
  cbn [fst snd].
  assert (Hfind : findChildElement (pre ++ x :: post) tag = Z.of_nat (length pre))
    by (apply findChildElement_split; assumption).
  split; [exact Hfind |]. split.
  { rewrite nth_error_split. destruct (namedElement_inv _ _ Hx) as (a & c & ->). eauto. }
  split.
  { destruct Hkids as [-> | (-> & -> & ->)]; [left; reflexivity | right].
    split; [| reflexivity].
    rewrite findChildElement_eq. apply findIndex_from_none. exact Hpre. }
  unfold findOrAddElement. rewrite Hfind.
  destruct (Z.ltb_spec (Z.of_nat (length pre)) 0); [lia |].
  rewrite Nat2Z.id. reflexivity.
Qed.

Lemma findOrAddElement_ensures_witness :
  findChildElement (fst (findOrAddElement fragmentKids (js "html"))) (js "html")
  = Z.of_nat (snd (findOrAddElement fragmentKids (js "html")))
  /\ fst (findOrAddElement fragmentKids (js "html"))
     = fragmentKids ++ [createElement (js "html") []].
Proof.
  pose proof (findOrAddElement_ensures fragmentKids (js "html") eq_refl) as H.
  cbv zeta in H. destruct H as (Hfind & _ & Hkids & _).
  split; [exact Hfind |].
  destruct Hkids as [Hsame | [_ Hadd]]; [| exact Hadd].
  vm_compute in Hsame. discriminate Hsame.
Defined.


Lemma update_nth_pred {A : Type} (pred : A -> bool) (f : A -> A) :
  (forall x, pred (f x) = pred x) ->
  forall l i k, findIndex_from pred (update_nth i f l) k = findIndex_from pred l k.
Proof.
  intros Hf. induction l as [| a l IH]; intros i k; [destruct i; reflexivity |].
  destruct i as [| i]; cbn [update_nth findIndex_from].
  - rewrite Hf. reflexivity.
  - rewrite IH. reflexivity.
Qed.

Lemma existsb_update_nth {A : Type} (pred : A -> bool) (f : A -> A) :
  (forall x, pred (f x) = pred x) ->
  forall l i, existsb pred (update_nth i f l) = existsb pred l.
Proof.
  intros Hf. induction l as [| a l IH]; intros i; [destruct i; reflexivity |].
  destruct i as [| i]; cbn [update_nth existsb].
  - rewrite Hf. reflexivity.
  - rewrite IH. reflexivity.
Qed.

Lemma nth_error_update_nth {A : Type} (f : A -> A) :
  forall (l : list A) i j,
    nth_error (update_nth i f l) j
    = if Nat.eqb j i then option_map f (nth_error l j) else nth_error l j.
Proof.
  induction l as [| a l IH]; intros i j.
  - destruct i, j; cbn; try reflexivity; destruct (Nat.eqb _ _); reflexivity.
  - destruct i as [| i], j as [| j]; cbn [update_nth nth_error Nat.eqb option_map];
      try reflexivity.
    apply IH.
Qed.

Lemma isDocumentType_setChildNodes (n : Node) (kids : list Node) :
  isDocumentType (setChildNodes n kids) = isDocumentType n.
Proof. destruct n; reflexivity. Qed.

(** X4: the document handed to the serializer always has a document type
    node: the one of the template, or the default one put first. *)
Theorem assembled_document_has_doctype (p : Prepared) (head body : list Node) :
  existsb isDocumentType (assemble p head body) = true
  /\ (existsb isDocumentType (p_docKids p) = false ->
      nth_error (assemble p head body) 0 = Some defaultDoctype).
Proof.
  unfold assemble.
  destruct (find _ (p_docKids p)) as [n |] eqn:E.
  - apply find_some in E. destruct E as [Hin Hn].
    assert (Hex : existsb isDocumentType (p_docKids p) = true)
      by (apply existsb_exists; exists n; split; assumption).
    split; [| congruence].
    rewrite existsb_update_nth; [exact Hex |].
    intros x. apply isDocumentType_setChildNodes.
  - split; reflexivity.
Qed.

Lemma assembled_document_has_doctype_witness :
  existsb isDocumentType
    (assemble (mkPrepared fragmentKids 1 [] 0 0 [] [] []) sampleHead sampleBody) = true
  /\ nth_error (assemble (mkPrepared fragmentKids 1 [] 0 0 [] [] []) sampleHead sampleBody) 0
     = Some defaultDoctype.
Proof.
  pose proof (assembled_document_has_doctype
                (mkPrepared fragmentKids 1 [] 0 0 [] [] []) sampleHead sampleBody)
    as [Hhas Hfirst].
  split; [exact Hhas | apply Hfirst; reflexivity].
Defined.

Section Prepare.

Variable host : Host.
Variable options : HtmlPluginOptions.
Variable ctx : Context.

(** The tree that [prepare] leaves: the html element in the document, and the
    head and body elements among the children of html. *)
Lemma prepare_shape (p : Prepared) :
  prepare host options ctx = Ok p ->
  (exists dpre html dpost,
      p_docKids p = dpre ++ html :: dpost
      /\ p_hi p = length dpre
      /\ (forall y, In y dpre -> namedElement (js "html") y = false)
      /\ namedElement (js "html") html = true)
  /\ (exists pre h post,
         p_htmlKids p = pre ++ h :: post
         /\ p_hdi p = length pre
         /\ (forall y, In y pre -> namedElement (js "head") y = false)
         /\ namedElement (js "head") h = true)
  /\ (exists pre b post,
         p_htmlKids p = pre ++ b :: post
         /\ p_bdi p = length pre
         /\ (forall y, In y pre -> namedElement (js "body") y = false)
         /\ namedElement (js "body") b = true).
Proof.
  unfold prepare.
  destruct (findOrAddElement_split (html_parse host (ctx_templateContent ctx)) (js "html")
              eq_refl) as (dpre & html & dpost & -> & Hd1 & Hd2 & _).
  rewrite nth_split.
  destruct (findOrAddElement_split (childNodesOf html) (js "head") eq_refl)
    as (pre1 & h & post1 & -> & Hh1 & Hh2 & _).
  destruct (findOrAddElement_split (pre1 ++ h :: post1) (js "body") eq_refl)
    as (pre2 & b & post2 & -> & Hb1 & Hb2 & Hkids).
  destruct (discoverAssets _ _ _ _ _ _ _) as [[[head body] assets] | e]; cbn [bind];
    [| discriminate].
  intros [= <-]. cbn [p_docKids p_hi p_htmlKids p_hdi p_bdi].
  split; [exists dpre, html, dpost; auto |].
  split; [| exists pre2, b, post2; auto].
  destruct Hkids as [<- | (<- & -> & ->)].
  - exists pre1, h, post1. auto.
  - exists pre1, h, (post1 ++ [createElement (js "body") []]).
    rewrite <- app_assoc. auto.
Qed.

(** X5: in the document that a pass assembles, looking up html, then head
    and body, as the pass itself does, finds head and body with exactly the
    child lists the pass has given them. *)
Theorem assembled_document_reads_back (p : Prepared) (head body : list Node) :
  prepare host options ctx = Ok p ->
  exists htmlKids,
    childrenOfChild (assemble p head body) (js "html") = Some htmlKids
    /\ childrenOfChild htmlKids (js "head") = Some head
    /\ childrenOfChild htmlKids (js "body") = Some body
    /\ length htmlKids = length (p_htmlKids p).
Proof.
  intros Hp.
  destruct (prepare_shape p Hp)
    as ((dpre & html & dpost & Hdoc & Hhi & Hd1 & Hd2)
        & (pre1 & h & post1 & Hk1 & Hhdi & Hh1 & Hh2)
        & (pre2 & b & post2 & Hk2 & Hbdi & Hb1 & Hb2)).
  destruct (namedElement_inv _ _ Hd2) as (ha & hk & ->).
  destruct (namedElement_inv _ _ Hh2) as (a1 & k1 & ->).
  destruct (namedElement_inv _ _ Hb2) as (a2 & k2 & ->).
  set (K := update_nth (p_hdi p) (fun n => setChildNodes n head)
              (update_nth (p_bdi p) (fun n => setChildNodes n body) (p_htmlKids p))).
  assert (Hne : p_hdi p <> p_bdi p).
  { intros Heq.
    assert (H1 : nth_error (p_htmlKids p) (p_hdi p) = Some (Element (js "head") a1 k1))
      by (rewrite Hk1, Hhdi; apply nth_error_split).
    assert (H2 : nth_error (p_htmlKids p) (p_bdi p) = Some (Element (js "body") a2 k2))
      by (rewrite Hk2, Hbdi; apply nth_error_split).
    rewrite Heq, H2 in H1. injection H1 as H1 _ _. vm_compute in H1. discriminate H1. }
  assert (Hlookup : forall tag,
             findChildElement K tag = findChildElement (p_htmlKids p) tag).
  { intros tag. subst K. rewrite !findChildElement_eq.
    rewrite !update_nth_pred; auto; intros x; apply namedElement_setChildNodes. }
  exists K. split; [| split; [| split]].
  - unfold childrenOfChild, assemble. rewrite Hdoc, Hhi, update_nth_split. fold K.
    cbn [setChildNodes].
    destruct (find _ (dpre ++ Element (js "html") ha hk :: dpost)).
    + rewrite findChildElement_split by auto.
      destruct (Z.ltb_spec (Z.of_nat (length dpre)) 0); [lia |].
      rewrite Nat2Z.id, nth_error_split. reflexivity.
    + rewrite app_comm_cons.
      rewrite (findChildElement_split (js "html") (defaultDoctype :: dpre)).
      * destruct (Z.ltb_spec (Z.of_nat (length (defaultDoctype :: dpre))) 0); [lia |].
        rewrite Nat2Z.id.
        rewrite (nth_error_split (defaultDoctype :: dpre)). reflexivity.
      * intros y [<- | Hy]; [reflexivity | auto].
      * reflexivity.
  - unfold childrenOfChild. rewrite Hlookup, Hk1, findChildElement_split by auto.
    destruct (Z.ltb_spec (Z.of_nat (length pre1)) 0); [lia |].
    rewrite Nat2Z.id, <- Hhdi. subst K. rewrite nth_error_update_nth, Nat.eqb_refl.
    rewrite nth_error_update_nth.
    destruct (Nat.eqb_spec (p_hdi p) (p_bdi p)); [contradiction |].
    rewrite Hk1, Hhdi, nth_error_split. reflexivity.
  - unfold childrenOfChild. rewrite Hlookup, Hk2, findChildElement_split by auto.
    destruct (Z.ltb_spec (Z.of_nat (length pre2)) 0); [lia |].
    rewrite Nat2Z.id, <- Hbdi. subst K. rewrite nth_error_update_nth.
    destruct (Nat.eqb_spec (p_bdi p) (p_hdi p)); [congruence |].
    rewrite nth_error_update_nth, Nat.eqb_refl.
    rewrite Hk2, Hbdi, nth_error_split. reflexivity.
  - subst K. clear. generalize (p_htmlKids p) (p_hdi p) (p_bdi p).
    assert (Hlen : forall (f : Node -> Node) l i, length (update_nth i f l) = length l).
    { intros f. induction l as [| a l IH]; intros [| i]; cbn [update_nth length];
        try reflexivity. rewrite IH. reflexivity. }
    intros l i j. rewrite !Hlen. reflexivity.
Qed.

End Prepare.


Lemma assembled_document_reads_back_witness :
  exists htmlKids,
    childrenOfChild (assemble samplePrepared (newLink :: sampleHead) sampleBody) (js "html")
      = Some htmlKids
    /\ childrenOfChild htmlKids (js "head") = Some (newLink :: sampleHead)
    /\ childrenOfChild htmlKids (js "body") = Some sampleBody
    /\ length htmlKids = length (p_htmlKids samplePrepared).
Proof.
  apply (assembled_document_reads_back sampleHost sampleOptions sampleContext).
  vm_compute. reflexivity.
Defined.

(** ** Change detection and the matched outputs *)

Lemma css_is_not_js (o : jsstring) :
  endsWith o (js ".css") = true -> endsWith o (js ".js") = false.
Proof.
  unfold endsWith. change (rev (js ".css")) with [115; 115; 99; 46]%N.
  change (rev (js ".js")) with [115; 106; 46]%N.
  destruct (rev o) as [| a [| b r]]; cbn [isPrefix]; try reflexivity;
    try (rewrite andb_false_r; reflexivity).
  unfold char_eqb.
  destruct (N.eqb_spec 115 a); [| reflexivity].
  destruct (N.eqb_spec 115 b); [| discriminate]. subst b. reflexivity.
Qed.

(** X6: an output path gets into the current set exactly when the build
    report lists it, its name without extension is the name of a configured
    entry point, and it ends in [.css] or [.js]; and no path is both a CSS
    and a JS output, so no file gets both a link and a script. *)
Theorem current_outputs_are_matched (host : Host) (ctx : Context)
    (outputPaths : list jsstring) (o : jsstring) :
  (In o (currentOutputs host ctx outputPaths)
   <-> In o outputPaths
       /\ existsb (eqb (path_basename_ext host o (path_extname host o))) (ctx_entries ctx)
          = true
       /\ (endsWith o (js ".css") = true \/ endsWith o (js ".js") = true))
  /\ ~ (In o (cssOutputs host ctx outputPaths) /\ In o (jsOutputs host ctx outputPaths)).
Proof.
  split.
  - unfold currentOutputs. rewrite set_from_In, in_app_iff.
    unfold cssOutputs, jsOutputs, matchedOutputs, entryName.
    rewrite !filter_In. tauto.
  - unfold cssOutputs, jsOutputs. rewrite !filter_In.
    intros [[_ Hcss] [_ Hjs]]. apply css_is_not_js in Hcss. congruence.
Qed.

Example current_outputs_of_mixed_report :
  currentOutputs sampleHost sampleContext mixedReport = [js "dist/app.css"; js "dist/app.js"].
Proof. vm_compute. reflexivity. Qed.

Lemma detectChange_modified_iff (current cache : StringSet) :
  snd (detectChange current cache) = false
  <-> (forall o, In o current <-> In o cache).
Proof.
  split.
  - intros H o. destruct (detectChange current cache) as [cache' modified] eqn:E.
    cbn [snd] in H. subst modified.
    pose proof (detectChange_In current cache o) as Hin. rewrite E in Hin. cbn [fst] in Hin.
    apply detectChange_false in E. subst cache'. symmetry. exact Hin.
  - intros H. rewrite (detectChange_unchanged current cache H). reflexivity.
Qed.

(** X7: a pass with a build report whose asset discovery does not throw
    returns "not modified" exactly when the matched outputs and the cache are
    the same set; an added or a removed output path sends it on to tag
    synthesis.  The order of the paths and repetitions play no part. *)
Theorem pass_skips_iff_same_outputs (host : Host) (options : HtmlPluginOptions)
    (ctx : Context) (fs : FileSystem) (outputPaths : list jsstring) (st : PluginState)
    (p : Prepared) :
  prepare host options ctx = Ok p ->
  (snd (onEnd host options ctx fs (Some outputPaths) st) = NotModified
   <-> forall o,
       In o (cssOutputs host ctx outputPaths ++ jsOutputs host ctx outputPaths)
       <-> In o (outputCache st)).
Proof.
  intros Hp. split.
  - unfold onEnd. rewrite Hp.
    pose proof (detectChange_modified_iff (currentOutputs host ctx outputPaths)
                  (outputCache st)) as Hiff.
    destruct (detectChange _ _) as [cache modified]. cbn [snd] in Hiff.
    destruct modified; cbn [negb].
    + pose proof (synthesizeAndEmit_result host options ctx fs p
                    (cssOutputs host ctx outputPaths) (jsOutputs host ctx outputPaths)
                    (mkState cache (copyLedger st))) as H.
      intros Hn. rewrite Hn in H. contradiction.
    + intros _ o. rewrite <- currentOutputs_In. apply Hiff. reflexivity.
  - intros H. rewrite (pass_unchanged host options ctx fs outputPaths st H), Hp.
    reflexivity.
Qed.

Lemma pass_skips_iff_same_outputs_witness :
  snd (onEnd sampleHost sampleOptions sampleContext goodFS (Some mixedReport)
         (mkState [js "dist/app.js"; js "dist/app.css"] []))
  = NotModified.
Proof.
  apply (pass_skips_iff_same_outputs sampleHost sampleOptions sampleContext goodFS
           mixedReport (mkState [js "dist/app.js"; js "dist/app.css"] []) samplePrepared).
  - vm_compute. reflexivity.
  - intros o. vm_compute. tauto.
Defined.

Lemma set_add_NoDup (s : StringSet) (x : jsstring) : NoDup s -> NoDup (set_add s x).
Proof.
  intros H. unfold set_add. destruct (set_has s x) eqn:E; [exact H |].
  apply set_has_false in E.
  apply NoDup_app; [exact H | constructor; [intros [] | constructor] |].
  intros y Hy [<- | []]. contradiction.
Qed.

Lemma set_delete_NoDup (s : StringSet) (x : jsstring) : NoDup s -> NoDup (set_delete s x).
Proof. intros H. unfold set_delete. apply NoDup_filter. exact H. Qed.

Lemma addMissing_NoDup (current : list jsstring) :
  forall cache modified, NoDup cache -> NoDup (fst (addMissing current cache modified)).
Proof.
  unfold addMissing. induction current as [| o current IH]; intros cache modified H;
    cbn [fold_left]; [exact H |].
  unfold addStep at 2. cbn [fst]. destruct (negb (set_has cache o)); apply IH.
  - apply set_add_NoDup. exact H.
  - exact H.
Qed.

Lemma deleteStale_fold_NoDup (current : StringSet) (visited : list jsstring) :
  forall acc modified,
    NoDup acc -> NoDup (fst (fold_left (deleteStep current) visited (acc, modified))).
Proof.
  induction visited as [| o visited IH]; intros acc modified H; cbn [fold_left];
    [exact H |].
  unfold deleteStep at 2. cbn [fst]. destruct (negb (set_has current o)); apply IH.
  - apply set_delete_NoDup. exact H.
  - exact H.
Qed.

Lemma detectChange_NoDup (current cache : StringSet) :
  NoDup cache -> NoDup (fst (detectChange current cache)).
Proof.
  intros H. unfold detectChange.
  pose proof (addMissing_NoDup current cache false H) as H1.
  destruct (addMissing current cache false) as [cache1 modified1]. cbn [fst] in H1.
  rewrite deleteStale_eq. apply deleteStale_fold_NoDup. exact H1.
Qed.


Lemma onEnd_NoDup (host : Host) (options : HtmlPluginOptions) (ctx : Context)
    (fs : FileSystem) (metafile : option (list jsstring)) (st : PluginState) :
  NoDup (outputCache st) ->
  NoDup (outputCache (fst (onEnd host options ctx fs metafile st))).
Proof.
  intros H. unfold onEnd. destruct metafile as [outputPaths |]; [| exact H].
  destruct (prepare host options ctx) as [p | e]; [| exact H].
  pose proof (detectChange_NoDup (currentOutputs host ctx outputPaths) (outputCache st) H)
    as Hd.
  destruct (detectChange _ _) as [cache modified]. cbn [fst] in Hd.
  destruct modified; cbn [negb]; [rewrite synthesizeAndEmit_cache |]; exact Hd.
Qed.

(** X8: the output cache never holds a path twice, across any sequence of
    passes, whatever the build reports list and whether or not passes fail. *)
Theorem cache_has_no_duplicates (host : Host) (options : HtmlPluginOptions)
    (ctx : Context) (passes : list (FileSystem * option (list jsstring)))
    (st : PluginState) :
  NoDup (outputCache st) ->
  NoDup (outputCache (fst (runPasses host options ctx passes st))).
Proof.
  revert st. induction passes as [| [fs metafile] passes IH]; intros st H;
    cbn [runPasses]; [exact H |].
  pose proof (onEnd_NoDup host options ctx fs metafile st H) as H1.
  destruct (onEnd host options ctx fs metafile st) as [st1 r]. cbn [fst] in H1.
  specialize (IH st1 H1).
  destruct (runPasses host options ctx passes st1) as [st2 rs]. exact IH.
Qed.

Lemma cache_has_no_duplicates_witness :
  NoDup (outputCache
           (fst (runPasses sampleHost sampleOptions sampleContext failingRun initialState))).
Proof.
  apply (cache_has_no_duplicates sampleHost sampleOptions sampleContext failingRun
           initialState).
  constructor.
Defined.

(** ** The copy ledger *)

Lemma eqb_refl (a : jsstring) : eqb a a = true.
Proof. apply eqb_eq. reflexivity. Qed.

Lemma eqb_neq (a b : jsstring) : a <> b -> eqb a b = false.
Proof.
  intros H. destruct (eqb a b) eqn:E; [apply eqb_eq in E; contradiction | reflexivity].
Qed.

Lemma ledger_get_set_same (m : Ledger) (k : jsstring) (v : Z) :
  ledger_get (ledger_set m k v) k = Some v.
Proof.
  induction m as [| [k' v'] m IH]; cbn [ledger_set ledger_get].
  - rewrite eqb_refl. reflexivity.
  - destruct (eqb k' k) eqn:E; cbn [ledger_get]; rewrite E; [reflexivity | exact IH].
Qed.

Lemma ledger_get_set_other (m : Ledger) (k k0 : jsstring) (v : Z) :
  k <> k0 -> ledger_get (ledger_set m k v) k0 = ledger_get m k0.
Proof.
  intros Hne. induction m as [| [k' v'] m IH]; cbn [ledger_set ledger_get].
  - rewrite (eqb_neq k k0 Hne). reflexivity.
  - destruct (eqb k' k) eqn:E; cbn [ledger_get].
    + apply eqb_eq in E. subst k'. rewrite (eqb_neq k k0 Hne). reflexivity.
    + destruct (eqb k' k0); [reflexivity | exact IH].
Qed.

(** X9: once the modification time of a file could be read, the ledger holds
    it; the file is copied exactly when the ledger did not hold that very
    time before; and the next call for the same file, while its time is
    unchanged, only stats it and reports success.  This is so even when the
    copy itself failed: the time is recorded before the copy is awaited. *)
Theorem copyFile_records_then_skips (fs : FileSystem) (ledger : Ledger)
    (input output : jsstring) (mtimeMs : Z) :
  fs_mtimeMs fs input = Some mtimeMs ->
  let ledger1 := fst (fst (copyFile fs ledger input output)) in
  let ops1 := snd (fst (copyFile fs ledger input output)) in
  ledger_get ledger1 input = Some mtimeMs
  /\ (In (CopyFile input output) ops1 <-> ledger_get ledger input <> Some mtimeMs)
  /\ (forall k, k <> input -> ledger_get ledger1 k = ledger_get ledger k)
  /\ forall output', copyFile fs ledger1 input output' = (ledger1, [Stat input], true).
Proof.
  intros Hstat. cbv zeta.
  assert (Hskip : forall l, ledger_get l input = Some mtimeMs ->
                            forall output', copyFile fs l input output'
                                            = (l, [Stat input], true)).
  { intros l Hl output'. unfold copyFile. rewrite Hstat, Hl, Z.eqb_refl. reflexivity. }
  assert (Hres : (ledger_get ledger input = Some mtimeMs
                  /\ copyFile fs ledger input output = (ledger, [Stat input], true))
                 \/ (ledger_get ledger input <> Some mtimeMs
                     /\ copyFile fs ledger input output
                        = (ledger_set ledger input mtimeMs,
                           [Stat input; CopyFile input output],
                           fs_copyFile fs input output))).
  { unfold copyFile. rewrite Hstat.
    destruct (ledger_get ledger input) as [seen |];
      [destruct (Z.eqb_spec seen mtimeMs) |].
    - left. subst. auto.
    - right. split; [congruence | reflexivity].
    - right. split; [discriminate | reflexivity]. }
  destruct Hres as [[Hseen Hres] | [Hseen Hres]]; rewrite Hres; cbn [fst snd].
  - split; [exact Hseen |]. split; [| split; [reflexivity | apply Hskip; exact Hseen]].
    split; [intros [H | []]; discriminate H | contradiction].
  - split; [apply ledger_get_set_same |]. split; [| split].
    + split; [intros _; exact Hseen | intros _; right; left; reflexivity].
    + intros k Hk. apply ledger_get_set_other. congruence.
    + apply Hskip, ledger_get_set_same.
Qed.


Lemma copyFile_records_then_skips_witness :
  ledger_get (fst (fst (copyFile readOnlyFS [] (js "/proj/img/cat.png")
                          (js "/proj/dist/cat.png")))) (js "/proj/img/cat.png")
  = Some 1
  /\ snd (copyFile readOnlyFS [] (js "/proj/img/cat.png") (js "/proj/dist/cat.png")) = false
  /\ copyFile readOnlyFS
       (fst (fst (copyFile readOnlyFS [] (js "/proj/img/cat.png") (js "/proj/dist/cat.png"))))
       (js "/proj/img/cat.png") (js "/proj/dist/cat.png")
     = ([(js "/proj/img/cat.png", 1)], [Stat (js "/proj/img/cat.png")], true).
Proof.
  pose proof (copyFile_records_then_skips readOnlyFS [] (js "/proj/img/cat.png")
                (js "/proj/dist/cat.png") 1 eq_refl) as H.
  cbv zeta in H. destruct H as (Hget & _ & _ & Hnext).
  split; [exact Hget |]. split; [reflexivity |].
  exact (Hnext (js "/proj/dist/cat.png")).
Defined.

Lemma copyFile_result (fs : FileSystem) (ledger : Ledger) (input output : jsstring) :
  (snd (fst (copyFile fs ledger input output)) = [Stat input]
   /\ fst (fst (copyFile fs ledger input output)) = ledger)
  \/ (exists mtimeMs,
         fs_mtimeMs fs input = Some mtimeMs
         /\ ledger_get ledger input <> Some mtimeMs
         /\ copyFile fs ledger input output
            = (ledger_set ledger input mtimeMs, [Stat input; CopyFile input output],
               fs_copyFile fs input output)).
Proof.
  unfold copyFile. destruct (fs_mtimeMs fs input) as [m |]; [| left; auto].
  destruct (ledger_get ledger input) as [seen |];
    [destruct (Z.eqb_spec seen m); [left; auto |] |];
    right; exists m; repeat split; congruence.
Qed.

Lemma filter_isCopyOf_app (input : jsstring) (a b : list FsOp) :
  length (filter (isCopyOf input) (a ++ b))
  = (length (filter (isCopyOf input) a) + length (filter (isCopyOf input) b))%nat.
Proof. rewrite filter_app, length_app. reflexivity. Qed.

(** While the ledger holds the time that a stat of [input] gives, or while
    [input] cannot be stat'ed, no copy of [input] is issued. *)
Lemma copyAssets_settled (fs : FileSystem) (input : jsstring) (assets : list Asset) :
  forall ledger,
    (fs_mtimeMs fs input = None \/ ledger_get ledger input = fs_mtimeMs fs input) ->
    filter (isCopyOf input) (snd (fst (copyAssets fs ledger assets))) = [].
Proof.
  induction assets as [| [i o] assets IH]; intros ledger H; cbn [copyAssets];
    [reflexivity |].
  pose proof (copyFile_result fs ledger i o) as Hres.
  destruct (copyFile fs ledger i o) as [[ledger1 ops1] ok1]. cbn [fst snd] in Hres.
  specialize (IH ledger1).
  destruct (copyAssets fs ledger1 assets) as [[ledger2 ops2] ok2]. cbn [fst snd] in *.
  rewrite filter_app.
  destruct Hres as [[-> ->] | (m & Hstat & Hseen & [= -> -> _])].
  - rewrite IH by exact H. reflexivity.
  - assert (Hne : i <> input).
    { intros ->. destruct H as [H | H]; congruence. }
    rewrite IH.
    + cbn [filter isCopyOf]. rewrite (eqb_neq i input Hne). reflexivity.
    + destruct H as [H | H]; [left; exact H | right].
      rewrite ledger_get_set_other by exact Hne. exact H.
Qed.

(** X10: in one pass, a file is copied at most once however many tags or
    style rules refer to it: the first call records its modification time and
    the later ones find it in the ledger. *)
Theorem copyAssets_copies_each_file_once (fs : FileSystem) (ledger : Ledger)
    (assets : list Asset) (input : jsstring) :
  (length (filter (isCopyOf input) (snd (fst (copyAssets fs ledger assets)))) <= 1)%nat
  /\ (ledger_get ledger input = fs_mtimeMs fs input ->
      filter (isCopyOf input) (snd (fst (copyAssets fs ledger assets))) = []).
Proof.
  split; [| intros H; apply copyAssets_settled; right; exact H].
  revert ledger. induction assets as [| [i o] assets IH]; intros ledger; cbn [copyAssets];
    [cbn; lia |].
  pose proof (copyFile_result fs ledger i o) as Hres.
  destruct (copyFile fs ledger i o) as [[ledger1 ops1] ok1]. cbn [fst snd] in Hres.
  specialize (IH ledger1).
  pose proof (copyAssets_settled fs input assets ledger1) as Hsettled.
  destruct (copyAssets fs ledger1 assets) as [[ledger2 ops2] ok2]. cbn [fst snd] in *.
  rewrite filter_isCopyOf_app.
  destruct Hres as [[-> ->] | (m & Hstat & Hseen & [= -> -> _])].
  - cbn [filter isCopyOf length]. lia.
  - cbn [filter isCopyOf]. destruct (eqb i input) eqn:E; cbn [length]; [| lia].
    apply eqb_eq in E. subst i.
    rewrite Hsettled; [cbn; lia |].
    right. rewrite ledger_get_set_same. symmetry. exact Hstat.
Qed.

Lemma copyAssets_copies_each_file_once_witness :
  snd (fst (copyAssets goodFS [(js "/proj/img/cat.png", 1)] twiceQueued))
  = [ Stat (js "/proj/img/cat.png");
      Stat (js "/proj/src/favicon.ico");
      CopyFile (js "/proj/src/favicon.ico") (js "/proj/dist/favicon.ico");
      Stat (js "/proj/img/cat.png") ]
  /\ filter (isCopyOf (js "/proj/img/cat.png"))
       (snd (fst (copyAssets goodFS [(js "/proj/img/cat.png", 1)] twiceQueued))) = [].
Proof.
  split; [vm_compute; reflexivity |].
  apply (copyAssets_copies_each_file_once goodFS [(js "/proj/img/cat.png", 1)] twiceQueued
           (js "/proj/img/cat.png")).
  reflexivity.
Defined.


(** ** What a pass issues to the file system *)

Section PassOperations.

Variable host : Host.
Variable options : HtmlPluginOptions.
Variable ctx : Context.

Local Abbreviation queuedFor :=
  (queuedAs host (ctx_templatePath ctx) (ctx_absOutDir ctx) (ctx_publicPath ctx)).
Local Abbreviation htmlFile :=
  (path_resolve host (ctx_absOutDir ctx) (filename host options)).
Local Abbreviation optionsFor :=
  (fun o => mkCreate (ctx_basedir ctx) (opt_crossorigin options) (opt_defer options)
              (opt_integrity options) o (ctx_publicPath ctx) (ctx_useModuleType ctx)).
Local Abbreviation linkOf :=
  (fun fs o el => createLinkElement host fs (optionsFor o) = Some el).
Local Abbreviation scriptOf :=
  (fun fs o el => createScriptElement host fs (optionsFor o) = Some el).

(** The queue of a pass holds one pair per URL of the template that is not
    skipped. *)
Lemma prepare_assets_tracked (p : Prepared) :
  prepare host options ctx = Ok p ->
  Forall2 queuedFor (templateURLs host options ctx) (p_assets p).
Proof.
  unfold prepare, templateURLs, templateParts.
  destruct (findOrAddElement _ (js "html")) as [docKids hi].
  destruct (findOrAddElement _ (js "head")) as [htmlKids1 hdi].
  destruct (findOrAddElement _ (js "body")) as [htmlKids bdi]. cbn [fst snd].
  destruct (ignoreAssets options).
  - cbn [discoverAssets bind]. intros [= <-]. constructor.
  - destruct (discoverAssets _ _ _ _ _ _ _) as [[[head body] assets] | e] eqn:E;
      cbn [bind]; [| discriminate].
    intros [= <-]. cbn [p_assets]. apply discoverAssets_outcome in E. apply E.
Qed.

Lemma createAll_each (create : CreateElementOptions -> option Node)
    (outputs : list jsstring) :
  forall els,
    createAll create (map (createOptions options ctx) outputs) = Some els ->
    Forall2 (fun o el => create (createOptions options ctx o) = Some el) outputs els.
Proof.
  induction outputs as [| o rest IH]; intros els; cbn [map createAll].
  - intros [= <-]. constructor.
  - destruct (create (createOptions options ctx o)) as [el |] eqn:E; [| discriminate].
    destruct (createAll create (map (createOptions options ctx) rest)) as [els' |];
      [| discriminate].
    intros [= <-]. constructor; auto.
Qed.

Lemma copyAssets_ops (fs : FileSystem) (assets : list Asset) :
  forall ledger op,
    In op (snd (fst (copyAssets fs ledger assets))) ->
    (exists i o, op = Stat i /\ In (i, o) assets)
    \/ (exists i o, op = CopyFile i o /\ In (i, o) assets).
Proof.
  induction assets as [| [i o] assets IH]; intros ledger op; cbn [copyAssets];
    [intros [] |].
  pose proof (copyFile_result fs ledger i o) as Hres.
  destruct (copyFile fs ledger i o) as [[ledger1 ops1] ok1]. cbn [fst snd] in Hres.
  specialize (IH ledger1 op).
  destruct (copyAssets fs ledger1 assets) as [[ledger2 ops2] ok2]. cbn [fst snd] in *.
  rewrite in_app_iff. intros [Hop | Hop].
  - destruct Hres as [[-> _] | (m & _ & _ & [= _ -> _])].
    + destruct Hop as [<- | []]. left. exists i, o. split; [reflexivity | left; reflexivity].
    + destruct Hop as [<- | [<- | []]]; [left | right]; exists i, o;
        (split; [reflexivity | left; reflexivity]).
  - destruct (IH Hop) as [(i' & o' & -> & Hin) | (i' & o' & -> & Hin)];
      [left | right]; exists i', o'; (split; [reflexivity | right; exact Hin]).
Qed.

Lemma digestOps_In (filePaths : list jsstring) (op : FsOp) :
  In op (digestOps host options ctx filePaths) ->
  opt_integrity options <> None
  /\ exists f, In f filePaths /\ op = HashFile (path_resolve host (ctx_basedir ctx) f).
Proof.
  unfold digestOps. destruct (opt_integrity options); [| intros []].
  rewrite in_map_iff. intros (f & <- & Hf). split; [discriminate | eauto].
Qed.

Lemma digestOps_no_write (filePaths : list jsstring) :
  Forall (fun op => isWrite op = false) (digestOps host options ctx filePaths).
Proof.
  apply Forall_forall. intros op Hop. apply digestOps_In in Hop.
  destruct Hop as (_ & f & _ & ->). reflexivity.
Qed.

(** X11: every operation a pass issues is one of these: the digest of a
    matched output (only with the [integrity] option), the creation of the
    output directory, the write to [path.resolve(absOutDir, filename)] of the
    serialized template with the links created for the matched CSS outputs
    and the scripts created for the matched JS outputs spliced in, and the
    stat or the copy of the pair of a URL that asset discovery visits in the
    template and does not skip.  A pass reads no other file and writes
    nowhere else. *)
Theorem pass_operations (fs : FileSystem) (metafile : option (list jsstring))
    (st : PluginState) (op : FsOp) :
  In op (issuedOps (snd (onEnd host options ctx fs metafile st))) ->
  match op with
  | ReadFile _ => False
  | HashFile f =>
      opt_integrity options <> None
      /\ exists outputPaths o,
          metafile = Some outputPaths
          /\ In o (matchedOutputs host ctx outputPaths)
          /\ f = path_resolve host (ctx_basedir ctx) o
  | Stat i =>
      exists o d, In d (templateURLs host options ctx) /\ queuedFor d (i, o)
  | Mkdir d => d = ctx_absOutDir ctx
  | WriteFile f content =>
      f = htmlFile
      /\ exists outputPaths p links scripts,
          metafile = Some outputPaths
          /\ prepare host options ctx = Ok p
          /\ Forall2 (linkOf fs) (cssOutputs host ctx outputPaths) links
          /\ Forall2 (scriptOf fs) (jsOutputs host ctx outputPaths) scripts
          /\ content = html_serialize host (splicedWith options p links scripts)
  | CopyFile i o =>
      exists d, In d (templateURLs host options ctx) /\ queuedFor d (i, o)
  end.
Proof.
  unfold onEnd. destruct metafile as [outputPaths |]; [| intros []].
  destruct (prepare host options ctx) as [p | e] eqn:Hp; [| intros []].
  destruct (detectChange _ _) as [cache modified].
  destruct modified; cbn [negb]; [| intros []].
  assert (Hdigest : forall filePaths,
             (forall f, In f filePaths -> In f (matchedOutputs host ctx outputPaths)) ->
             In op (digestOps host options ctx filePaths) ->
             match op with
             | HashFile f =>
                 opt_integrity options <> None
                 /\ exists outputPaths' o,
                     Some outputPaths = Some outputPaths'
                     /\ In o (matchedOutputs host ctx outputPaths')
                     /\ f = path_resolve host (ctx_basedir ctx) o
             | _ => False
             end).
  { intros filePaths Hsub Hop. apply digestOps_In in Hop.
    destruct Hop as (Hint & f & Hf & ->). split; [exact Hint |].
    exists outputPaths, f. auto. }
  assert (Hcss : forall f, In f (cssOutputs host ctx outputPaths) ->
                           In f (matchedOutputs host ctx outputPaths))
    by (intros f Hf; apply filter_In in Hf; apply Hf).
  assert (Hjs : forall f, In f (jsOutputs host ctx outputPaths) ->
                          In f (matchedOutputs host ctx outputPaths))
    by (intros f Hf; apply filter_In in Hf; apply Hf).
  unfold synthesizeAndEmit.
  destruct (createAll _ _) as [links |] eqn:Hlinks; cbn [snd issuedOps].
  2: { intros Hop. specialize (Hdigest _ Hcss Hop). destruct op; tauto. }
  destruct (createAll (createScriptElement host fs) _) as [scripts |] eqn:Hscripts;
    cbn [snd issuedOps].
  2: { rewrite in_app_iff. intros [Hop | Hop];
       [specialize (Hdigest _ Hcss Hop) | specialize (Hdigest _ Hjs Hop)];
       destruct op; tauto. }
  apply createAll_each in Hlinks, Hscripts.
  assert (Hdoc : forall content,
             content = html_serialize host (splicedWith options p links scripts) ->
             exists outputPaths' p' links' scripts',
               Some outputPaths = Some outputPaths'
               /\ Ok p = Ok p'
               /\ Forall2 (linkOf fs) (cssOutputs host ctx outputPaths') links'
               /\ Forall2 (scriptOf fs) (jsOutputs host ctx outputPaths') scripts'
               /\ content = html_serialize host (splicedWith options p' links' scripts')).
  { intros content ->. exists outputPaths, p, links, scripts. auto. }
  unfold splicedWith in Hdoc.
  destruct (spliceTags _ _ _ _) as [head body].
  unfold writeHTMLOutput.
  pose proof (copyAssets_ops fs (p_assets p) (copyLedger (mkState cache (copyLedger st))) op)
    as Hcopy.
  pose proof (prepare_assets_tracked p Hp) as Hq.
  assert (Hpair : forall i o, In (i, o) (p_assets p) ->
                              exists d, In d (templateURLs host options ctx)
                                        /\ queuedFor d (i, o)).
  { intros i o Hin. eapply Forall2_In_r; eassumption. }
  destruct (copyAssets _ _ _) as [[ledger copyOps] copyOk]. cbn [fst snd] in Hcopy.
  destruct (fs_mkdir fs (ctx_absOutDir ctx)); cbn [snd issuedOps];
    rewrite !in_app_iff; intros [Hop | [Hop | [Hop | Hop]]];
    try (specialize (Hdigest _ Hcss Hop); destruct op; tauto);
    try (specialize (Hdigest _ Hjs Hop); destruct op; tauto);
    try (destruct (Hcopy Hop) as [(i & o & -> & Hin) | (i & o & -> & Hin)];
         [exists o; apply Hpair; exact Hin | apply Hpair; exact Hin]).
  - destruct Hop as [<- | [<- | []]]; [reflexivity |].
    split; [reflexivity |]. apply Hdoc. reflexivity.
  - destruct Hop as [<- | []]. reflexivity.
Qed.

(** X12: when the emission of a pass completed, the output directory was
    created and the document written to [path.resolve(absOutDir, filename)]
    is the serialized template with the links created for the matched CSS
    outputs and the scripts created for the matched JS outputs spliced in;
    both operations succeeded. *)
Theorem completed_emission_wrote_html (fs : FileSystem)
    (metafile : option (list jsstring)) (st : PluginState) :
  emissionCompleted (snd (onEnd host options ctx fs metafile st)) = true ->
  exists outputPaths p links scripts,
    metafile = Some outputPaths
    /\ prepare host options ctx = Ok p
    /\ Forall2 (linkOf fs) (cssOutputs host ctx outputPaths) links
    /\ Forall2 (scriptOf fs) (jsOutputs host ctx outputPaths) scripts
    /\ splicedDocument (snd (onEnd host options ctx fs metafile st))
       = Some (splicedWith options p links scripts)
    /\ fs_mkdir fs (ctx_absOutDir ctx) = true
    /\ fs_writeFile fs htmlFile
         (html_serialize host (splicedWith options p links scripts)) = true
    /\ In (Mkdir (ctx_absOutDir ctx))
         (issuedOps (snd (onEnd host options ctx fs metafile st)))
    /\ In (WriteFile htmlFile (html_serialize host (splicedWith options p links scripts)))
         (issuedOps (snd (onEnd host options ctx fs metafile st))).
Proof.
  unfold onEnd. destruct metafile as [outputPaths |]; [| discriminate].
  destruct (prepare host options ctx) as [p | e]; [| discriminate].
  destruct (detectChange _ _) as [cache modified].
  destruct modified; cbn [negb]; [| discriminate].
  unfold synthesizeAndEmit.
  destruct (createAll _ _) as [links |] eqn:Hlinks; [| discriminate].
  destruct (createAll (createScriptElement host fs) _) as [scripts |] eqn:Hscripts;
    [| discriminate].
  apply createAll_each in Hlinks, Hscripts.
  intros H. exists outputPaths, p, links, scripts.
  split; [reflexivity |]. split; [reflexivity |].
  split; [exact Hlinks |]. split; [exact Hscripts |].
  revert H. unfold splicedWith.
  destruct (spliceTags _ _ _ _) as [head body].
  unfold writeHTMLOutput.
  destruct (copyAssets _ _ _) as [[ledger copyOps] copyOk].
  destruct (fs_mkdir fs (ctx_absOutDir ctx)); cbn [snd emissionCompleted andb];
    [| discriminate].
  intros H. apply andb_prop in H. destruct H as [Hwrite _].
  cbn [splicedDocument issuedOps].
  repeat split; auto; rewrite !in_app_iff; right; right; left;
    [left | right; left]; reflexivity.
Qed.

(** X13: a pass that splices no tag (it threw, returned "not modified", or a
    digest was rejected) writes nothing and leaves the copy ledger as it is. *)
Theorem pass_without_splice_writes_nothing (fs : FileSystem)
    (metafile : option (list jsstring)) (st : PluginState) :
  splicedDocument (snd (onEnd host options ctx fs metafile st)) = None ->
  Forall (fun op => isWrite op = false)
    (issuedOps (snd (onEnd host options ctx fs metafile st)))
  /\ copyLedger (fst (onEnd host options ctx fs metafile st)) = copyLedger st.
Proof.
  unfold onEnd. destruct metafile as [outputPaths |]; [| intros _; split; [constructor | reflexivity]].
  destruct (prepare host options ctx) as [p | e];
    [| intros _; split; [constructor | reflexivity]].
  destruct (detectChange _ _) as [cache modified].
  destruct modified; cbn [negb]; [| intros _; split; [constructor | reflexivity]].
  unfold synthesizeAndEmit.
  destruct (createAll _ _) as [links |];
    [| intros _; split; [apply digestOps_no_write | reflexivity]].
  destruct (createAll _ _) as [scripts |].
  - destruct (spliceTags _ _ _ _) as [head body].
    destruct (writeHTMLOutput _ _ _ _) as [writeOps writeOk].
    destruct (copyAssets _ _ _) as [[ledger copyOps] copyOk]. discriminate.
  - intros _. split; [| reflexivity]. cbn [snd issuedOps].
    apply Forall_app. split; apply digestOps_no_write.
Qed.

End PassOperations.


Lemma pass_operations_witness :
  (js "/proj/dist/index.html"
   = path_resolve iconHost (ctx_absOutDir sampleContext) (filename iconHost sampleOptions)
   /\ exists outputPaths p links scripts,
       appReport = Some outputPaths
       /\ prepare iconHost sampleOptions sampleContext = Ok p
       /\ Forall2
            (fun o el =>
               createLinkElement iconHost goodFS
                 (mkCreate (js "/proj") None None None o None false) = Some el)
            (cssOutputs iconHost sampleContext outputPaths) links
       /\ Forall2
            (fun o el =>
               createScriptElement iconHost goodFS
                 (mkCreate (js "/proj") None None None o None false) = Some el)
            (jsOutputs iconHost sampleContext outputPaths) scripts
       /\ iconPage = html_serialize iconHost (splicedWith sampleOptions p links scripts))
  /\ exists d,
      In d (templateURLs iconHost sampleOptions sampleContext)
      /\ queuedAs iconHost (ctx_templatePath sampleContext) (ctx_absOutDir sampleContext)
           (ctx_publicPath sampleContext) d
           (js "/proj/src/favicon.ico", js "/proj/dist/favicon.ico").
Proof.
  split.
  - apply (pass_operations iconHost sampleOptions sampleContext goodFS appReport
             initialState (WriteFile (js "/proj/dist/index.html") iconPage)).
    vm_compute. right. left. reflexivity.
  - apply (pass_operations iconHost sampleOptions sampleContext goodFS appReport
             initialState
             (CopyFile (js "/proj/src/favicon.ico") (js "/proj/dist/favicon.ico"))).
    vm_compute. right. right. right. left. reflexivity.
Defined.

Lemma completed_emission_wrote_html_witness :
  In (WriteFile (js "/proj/dist/index.html") iconPage)
    (issuedOps (snd (onEnd iconHost sampleOptions sampleContext goodFS appReport
                       initialState)))
  /\ exists outputPaths p links scripts,
      appReport = Some outputPaths
      /\ prepare iconHost sampleOptions sampleContext = Ok p
      /\ Forall2
           (fun o el =>
              createLinkElement iconHost goodFS
                (mkCreate (js "/proj") None None None o None false) = Some el)
           (cssOutputs iconHost sampleContext outputPaths) links
      /\ Forall2
           (fun o el =>
              createScriptElement iconHost goodFS
                (mkCreate (js "/proj") None None None o None false) = Some el)
           (jsOutputs iconHost sampleContext outputPaths) scripts
      /\ splicedDocument
           (snd (onEnd iconHost sampleOptions sampleContext goodFS appReport initialState))
         = Some (splicedWith sampleOptions p links scripts)
      /\ fs_mkdir goodFS (ctx_absOutDir sampleContext) = true
      /\ fs_writeFile goodFS
           (path_resolve iconHost (ctx_absOutDir sampleContext)
              (filename iconHost sampleOptions))
           (html_serialize iconHost (splicedWith sampleOptions p links scripts)) = true
      /\ In (Mkdir (ctx_absOutDir sampleContext))
           (issuedOps
              (snd (onEnd iconHost sampleOptions sampleContext goodFS appReport
                      initialState)))
      /\ In (WriteFile
               (path_resolve iconHost (ctx_absOutDir sampleContext)
                  (filename iconHost sampleOptions))
               (html_serialize iconHost (splicedWith sampleOptions p links scripts)))
           (issuedOps
              (snd (onEnd iconHost sampleOptions sampleContext goodFS appReport
                      initialState))).
Proof.
  split; [vm_compute; right; left; reflexivity |].
  apply (completed_emission_wrote_html iconHost sampleOptions sampleContext goodFS
           appReport initialState).
  vm_compute. reflexivity.
Defined.

Lemma pass_without_splice_writes_nothing_witness :
  Forall (fun op => isWrite op = false)
    (issuedOps (snd (onEnd sampleHost sampleOptions sampleContext goodFS appReport appCached)))
  /\ copyLedger (fst (onEnd sampleHost sampleOptions sampleContext goodFS appReport appCached))
     = copyLedger appCached.
Proof.
  apply (pass_without_splice_writes_nothing sampleHost sampleOptions sampleContext goodFS
           appReport appCached).
  vm_compute. reflexivity.
Defined.

(** ** More on rebasing *)

Lemma pathPart_of_clean (url : jsstring) :
  Forall (fun c => isQueryOrHash c = false) url ->
  pathPart url = url /\ suffixPart url = [].
Proof.
  induction 1 as [| c url Hc _ [IH1 IH2]]; cbn [pathPart suffixPart]; [auto |].
  rewrite Hc, IH1, IH2. auto.
Qed.

Lemma pathPart_of_app (url suffix : jsstring) :
  Forall (fun c => isQueryOrHash c = false) url ->
  match suffix with
  | c :: _ => isQueryOrHash c = true
  | [] => True
  end ->
  pathPart (url ++ suffix) = url /\ suffixPart (url ++ suffix) = suffix.
Proof.
  intros Hclean Hs. induction Hclean as [| c url Hc _ [IH1 IH2]]; cbn [app pathPart suffixPart].
  - destruct suffix as [| c rest]; [auto |]. cbn [pathPart suffixPart]. rewrite Hs. auto.
  - rewrite Hc, IH1, IH2. auto.
Qed.

(** X14: a query or fragment is carried through untouched.  For a URL
    without [?] and [#] and a suffix that starts with one of them, rebasing
    the URL with the suffix gives the same base name and input path as
    rebasing the URL alone, and the same rebased URL followed by the suffix
    (or the same throw). *)
Theorem rebase_carries_suffix (host : Host) (url suffix templatePath : jsstring)
    (publicPath : option jsstring) :
  Forall (fun c => isQueryOrHash c = false) url ->
  match suffix with
  | c :: _ => isQueryOrHash c = true
  | [] => True
  end ->
  rebaseAssetURL host (url ++ suffix) templatePath publicPath
  = match rebaseAssetURL host url templatePath publicPath with
    | Ok r => Ok (mkRebased (basename r) (rebasedURL r ++ suffix) (inputPath r))
    | Throw e => Throw e
    end.
Proof.
  intros Hclean Hs. rewrite !rebaseAssetURL_eq.
  destruct (pathPart_of_clean url Hclean) as [-> ->].
  destruct (pathPart_of_app url suffix Hclean Hs) as [-> ->].
  destruct publicPath as [[| c p] |]; try (rewrite app_nil_r; reflexivity).
  destruct (includes (c :: p) (js "://")); [| rewrite app_nil_r; reflexivity].
  destruct (URL_href host _ _); [rewrite app_nil_r |]; reflexivity.
Qed.

Lemma rebase_carries_suffix_witness :
  rebaseAssetURL sampleHost (js "../img/cat.png" ++ js "?v=1#top")
    (js "/proj/src/index.html") (Some (js "/public"))
  = match rebaseAssetURL sampleHost (js "../img/cat.png") (js "/proj/src/index.html")
            (Some (js "/public")) with
    | Ok r => Ok (mkRebased (basename r) (rebasedURL r ++ js "?v=1#top") (inputPath r))
    | Throw e => Throw e
    end.
Proof.
  apply (rebase_carries_suffix sampleHost (js "../img/cat.png") (js "?v=1#top")).
  - repeat constructor.
  - reflexivity.
Defined.

(** X15: the rebaser throws in one situation only: the public path is
    non-empty, contains [://], and [new URL(basename, publicPath)] rejects
    it.  The error is that of the URL constructor. *)
Theorem rebase_throws_only_for_invalid_public_URL (host : Host)
    (inputURL templatePath : jsstring) (publicPath : option jsstring) (e : Error) :
  rebaseAssetURL host inputURL templatePath publicPath = Throw e
  <-> exists p,
      publicPath = Some p
      /\ p <> []
      /\ includes p (js "://") = true
      /\ URL_href host (path_basename host (pathPart inputURL)) p = None
      /\ e = InvalidURL.
Proof.
  rewrite rebaseAssetURL_eq. split.
  - destruct publicPath as [[| c p] |]; try discriminate.
    destruct (includes (c :: p) (js "://")) eqn:Ei; [| discriminate].
    destruct (URL_href host _ (c :: p)) eqn:Eu; [discriminate |].
    intros [= <-]. exists (c :: p). repeat split; auto. discriminate.
  - intros (p & -> & Hne & Hi & Hu & ->).
    destruct p as [| c p]; [congruence |]. rewrite Hi, Hu. reflexivity.
Qed.

Example rebase_rejects_scheme_less_public_path :
  rebaseAssetURL sampleHost (js "cat.png") (js "/proj/src/index.html") (Some (js "://cdn"))
  = Throw InvalidURL.
Proof. vm_compute. reflexivity. Qed.


(** ** Asset discovery keeps the shape of the tree *)

Section Shape.

Variable host : Host.
Variable templatePath absOutDir : jsstring.
Variable publicPath : option jsstring.

Lemma rebaseAttrs_names (attrs attrs' : list Attribute) (assets : list Asset) :
  rebaseAttrs host templatePath absOutDir publicPath attrs = Ok (attrs', assets) ->
  map attr_name attrs' = map attr_name attrs /\ (length assets <= 1)%nat.
Proof.
  revert attrs' assets. induction attrs as [| a rest IH]; intros attrs' assets H;
    cbn [rebaseAttrs] in H.
  - injection H as <- <-. auto.
  - destruct (isUrlAttr a).
    + destruct (isAbsoluteOrURL host (attr_value a)).
      * injection H as <- <-. cbn [length]. auto.
      * destruct (rebaseAssetURL host (attr_value a) templatePath publicPath) as [r |];
          cbn [bind] in H; [| discriminate H].
        injection H as <- <-. cbn [map attr_name length]. auto.
    + destruct (rebaseAttrs host templatePath absOutDir publicPath rest)
        as [[rest' assets'] |] eqn:E; cbn [bind] in H; [| discriminate H].
      injection H as <- <-. destruct (IH _ _ eq_refl) as [IH1 IH2].
      cbn [map]. rewrite IH1. auto.
Qed.

Lemma rebaseTag_skeleton (n n' : Node) (assets : list Asset) :
  rebaseTag host templatePath absOutDir publicPath n = Ok (n', assets) ->
  skeleton n' = skeleton n /\ childNodesOf n' = childNodesOf n.
Proof.
  unfold rebaseTag. destruct n as [t attrs kids | | |];
    try (intros [= <- <-]; auto).
  destruct (isElement _); [| intros [= <- <-]; auto].
  destruct (rebaseAttrs host templatePath absOutDir publicPath attrs)
    as [[attrs' assets'] |] eqn:E; cbn [bind]; [| discriminate].
  intros [= <- <-]. apply rebaseAttrs_names in E. destruct E as [E _].
  unfold skeleton. cbn [nodeName attrsOf childNodesOf]. rewrite E. auto.
Qed.

Lemma rebaseTags_skeleton (name : jsstring) (kids kids' : list Node) (assets : list Asset) :
  rebaseTags host templatePath absOutDir publicPath name kids = Ok (kids', assets) ->
  map skeleton kids' = map skeleton kids.
Proof.
  revert kids' assets. induction kids as [| n rest IH]; intros kids' assets H;
    cbn [rebaseTags] in H.
  - injection H as <- <-. reflexivity.
  - destruct (if eqb (nodeName n) name
              then rebaseTag host templatePath absOutDir publicPath n
              else Ok (n, [])) as [[n' a1] |] eqn:E1; cbn [bind] in H; [| discriminate H].
    destruct (rebaseTags host templatePath absOutDir publicPath name rest)
      as [[rest' a2] |] eqn:E2; cbn [bind] in H; [| discriminate H].
    injection H as <- <-. cbn [map]. rewrite (IH _ _ eq_refl). f_equal.
    destruct (eqb (nodeName n) name).
    + apply rebaseTag_skeleton in E1. apply E1.
    + injection E1 as <- <-. reflexivity.
Qed.

Lemma rebaseFirstText_names (kids kids' : list Node) (assets : list Asset) :
  rebaseFirstText host templatePath absOutDir publicPath kids = Ok (kids', assets) ->
  map nodeName kids' = map nodeName kids.
Proof.
  revert kids' assets. induction kids as [| n rest IH]; intros kids' assets H;
    cbn [rebaseFirstText] in H.
  - injection H as <- <-. reflexivity.
  - destruct (isTextNode n) eqn:Et.
    + destruct (valueOf n) as [v |]; [| discriminate H].
      destruct (rebaseStyleText host templatePath absOutDir publicPath v)
        as [[v' assets'] |]; cbn [bind] in H; [| discriminate H].
      injection H as <- <-. cbn [map nodeName]. f_equal.
      unfold isTextNode in Et. apply eqb_eq in Et. symmetry. exact Et.
    + destruct (rebaseFirstText host templatePath absOutDir publicPath rest)
        as [[rest' assets'] |] eqn:E; cbn [bind] in H; [| discriminate H].
      injection H as <- <-. cbn [map]. rewrite (IH _ _ eq_refl). reflexivity.
Qed.

Lemma rebaseStyle_skeleton (n n' : Node) (assets : list Asset) :
  rebaseStyle host templatePath absOutDir publicPath n = Ok (n', assets) ->
  skeleton n' = skeleton n /\ attrsOf n' = attrsOf n.
Proof.
  unfold rebaseStyle. destruct n as [t attrs kids | | |];
    try (intros [= <- <-]; auto).
  destruct (isElement _); [| intros [= <- <-]; auto].
  destruct (rebaseFirstText host templatePath absOutDir publicPath kids)
    as [[kids' assets'] |] eqn:E; cbn [bind]; [| discriminate].
  intros [= <- <-]. apply rebaseFirstText_names in E.
  unfold skeleton. cbn [nodeName attrsOf childNodesOf]. rewrite E. auto.
Qed.

Lemma rebaseStyles_skeleton (kids kids' : list Node) (assets : list Asset) :
  rebaseStyles host templatePath absOutDir publicPath kids = Ok (kids', assets) ->
  map skeleton kids' = map skeleton kids.
Proof.
  revert kids' assets. induction kids as [| n rest IH]; intros kids' assets H;
    cbn [rebaseStyles] in H.
  - injection H as <- <-. reflexivity.
  - destruct (if eqb (nodeName n) (js "style")
              then rebaseStyle host templatePath absOutDir publicPath n
              else Ok (n, [])) as [[n' a1] |] eqn:E1; cbn [bind] in H; [| discriminate H].
    destruct (rebaseStyles host templatePath absOutDir publicPath rest)
      as [[rest' a2] |] eqn:E2; cbn [bind] in H; [| discriminate H].
    injection H as <- <-. cbn [map]. rewrite (IH _ _ eq_refl). f_equal.
    destruct (eqb (nodeName n) (js "style")).
    + apply rebaseStyle_skeleton in E1. apply E1.
    + injection E1 as <- <-. reflexivity.
Qed.

(** X16: asset discovery rewrites attribute values and style text only.
    The children of head and body keep their number, order and names, every
    node keeps the names and order of its attributes and the names and order
    of its children; with [ignoreAssets] nothing at all changes and nothing
    is queued. *)
Theorem discovery_keeps_shape (ignore : bool) (head body head' body' : list Node)
    (assets : list Asset) :
  discoverAssets host templatePath absOutDir publicPath ignore head body
    = Ok (head', body', assets) ->
  map skeleton head' = map skeleton head
  /\ map skeleton body' = map skeleton body
  /\ (ignore = true -> head' = head /\ body' = body /\ assets = []).
Proof.
  unfold discoverAssets. destruct ignore; [intros [= <- <- <-]; auto |].
  intros H.
  destruct (rebaseTags _ _ _ _ (js "link") head) as [[head1 a1] |] eqn:E1;
    cbn [bind] in H; [| discriminate H].
  destruct (rebaseTags _ _ _ _ (js "script") head1) as [[head2 a2] |] eqn:E2;
    cbn [bind] in H; [| discriminate H].
  destruct (rebaseTags _ _ _ _ (js "script") body) as [[body1 a3] |] eqn:E3;
    cbn [bind] in H; [| discriminate H].
  destruct (rebaseStyles _ _ _ _ head2) as [[head3 a4] |] eqn:E4;
    cbn [bind] in H; [| discriminate H].
  injection H as <- <- <-.
  apply rebaseTags_skeleton in E1, E2, E3. apply rebaseStyles_skeleton in E4.
  split; [congruence |]. split; [exact E3 | discriminate].
Qed.

End Shape.

Lemma discovery_keeps_shape_witness :
  exists head' assets,
    discoverAssets sampleHost (js "/proj/src/index.html") (js "/proj/dist")
      (Some (js "/public")) false styledHead sampleBody
    = Ok (head', sampleBody, assets)
    /\ head' <> styledHead
    /\ map skeleton head' = map skeleton styledHead.
Proof.
  destruct (discoverAssets sampleHost (js "/proj/src/index.html") (js "/proj/dist")
              (Some (js "/public")) false styledHead sampleBody)
    as [[[head' body'] assets] | e] eqn:E; [| vm_compute in E; discriminate E].
  pose proof (discovery_keeps_shape sampleHost (js "/proj/src/index.html") (js "/proj/dist")
                (Some (js "/public")) false styledHead sampleBody head' body' assets E)
    as (Hhead & _ & _).
  vm_compute in E. injection E as <- <- <-.
  eexists. eexists. split; [reflexivity |]. split; [discriminate | exact Hhead].
Defined.


(** ** What the scanner returns *)

Lemma parseURLs_loop_Forall (P : jsstring -> Prop) (text : jsstring) :
  (forall a b, P (trim (slice text a b))) ->
  forall gas index stack urls ticks r,
    Forall P urls ->
    parseURLs_loop gas text index stack urls ticks = Some r ->
    Forall P (fst r).
Proof.
  intros HP. induction gas as [| gas IH]; intros index stack urls ticks r Hurls H;
    [discriminate |].
  cbn [parseURLs_loop] in H.
  destruct (negb (indexOf text (js "url") index >? 0)); [injection H as <-; exact Hurls |].
  destruct (skipWhitespace gas text _ (S ticks)) as [[ws1 t1] |]; [| discriminate].
  destruct (negb (strict_eq (charAt text _) (Some (ch "(")))); [eapply IH; eassumption |].
  destruct (skipWhitespace gas text _ t1) as [[ws2 t2] |]; [| discriminate].
  destruct (match charAt text _ with Some q => _ | None => _ end) as [stack' i3].
  destruct (skipWhitespace gas text i3 t2) as [[ws3 t3] |]; [| discriminate].
  destruct (capture_loop gas text _) as [c |]; [| discriminate].
  eapply IH; [| exact H].
  apply Forall_app. split; [exact Hurls |]. constructor; [apply HP | constructor].
Qed.

Lemma parseURLs_Forall (P : jsstring -> Prop) (text : jsstring) :
  (forall a b, P (trim (slice text a b))) -> Forall P (parseURLs text).
Proof.
  intros HP. unfold parseURLs, parseURLs_run.
  destruct (parseURLs_loop (scan_gas text) text 0 [] [] 0) as [[urls ticks] |] eqn:E;
    [| constructor].
  apply (parseURLs_loop_Forall P text HP _ _ _ _ _ _ (Forall_nil P) E).
Qed.

Lemma trimStart_suffix (s : jsstring) :
  exists pre, s = pre ++ trimStart s /\ Forall (fun c => isWhiteSpace c = true) pre.
Proof.
  induction s as [| c s (pre & IH & Hpre)]; cbn [trimStart].
  - exists []. split; [reflexivity | constructor].
  - destruct (isWhiteSpace c) eqn:E.
    + exists (c :: pre). split; [cbn [app]; congruence | constructor; assumption].
    + exists []. split; [reflexivity | constructor].
Qed.

Lemma trimStart_head (s : jsstring) :
  match trimStart s with
  | c :: _ => isWhiteSpace c = false
  | [] => True
  end.
Proof.
  induction s as [| c s IH]; cbn [trimStart]; [exact I |].
  destruct (isWhiteSpace c) eqn:E; [exact IH | exact E].
Qed.

Lemma trimStart_fixed (s : jsstring) :
  match s with
  | c :: _ => isWhiteSpace c = false
  | [] => True
  end ->
  trimStart s = s.
Proof. destruct s as [| c s]; cbn [trimStart]; [reflexivity | intros ->; reflexivity]. Qed.

(** What [trim] leaves is a piece of the text, between white space, that
    neither starts nor ends with white space. *)
Lemma trim_spec (s : jsstring) :
  (exists pre post,
      s = pre ++ trim s ++ post
      /\ Forall (fun c => isWhiteSpace c = true) pre
      /\ Forall (fun c => isWhiteSpace c = true) post)
  /\ match trim s with
     | c :: _ => isWhiteSpace c = false
     | [] => True
     end
  /\ match rev (trim s) with
     | c :: _ => isWhiteSpace c = false
     | [] => True
     end.
Proof.
  unfold trim, trimEnd.
  destruct (trimStart_suffix s) as (pre & Hs & Hpre).
  destruct (trimStart_suffix (rev (trimStart s))) as (post & Hr & Hpost).
  pose proof (trimStart_head s) as Hhead.
  pose proof (trimStart_head (rev (trimStart s))) as Hlast.
  set (t1 := trimStart s) in *. set (t2 := trimStart (rev t1)) in *.
  assert (Ht1 : t1 = rev t2 ++ rev post).
  { rewrite <- rev_app_distr, <- Hr, rev_involutive. reflexivity. }
  split; [| split].
  - exists pre, (rev post). split; [congruence |]. split; [exact Hpre |].
    apply Forall_rev. exact Hpost.
  - rewrite Ht1 in Hhead. destruct (rev t2); [exact I | exact Hhead].
  - rewrite rev_involutive. exact Hlast.
Qed.

Lemma trim_fixed (s : jsstring) :
  match s with c :: _ => isWhiteSpace c = false | [] => True end ->
  match rev s with c :: _ => isWhiteSpace c = false | [] => True end ->
  trim s = s.
Proof.
  intros H1 H2. unfold trim, trimEnd.
  rewrite (trimStart_fixed s H1), (trimStart_fixed (rev s) H2). apply rev_involutive.
Qed.

Lemma slice_is_piece (text : jsstring) (a b : Z) :
  exists pre post, text = pre ++ slice text a b ++ post.
Proof.
  unfold slice.
  set (m := Z.to_nat (rel_index (len text) a)).
  set (n := Z.to_nat (Z.max (rel_index (len text) b - rel_index (len text) a) 0)).
  exists (firstn m text), (skipn n (skipn m text)).
  rewrite (firstn_skipn n (skipn m text)), (firstn_skipn m text). reflexivity.
Qed.

(** X17: every payload the scanner returns is a contiguous piece of the
    scanned text, and it neither starts nor ends with white space: the
    scanner invents no character and trims what it captured. *)
Theorem parseURLs_returns_trimmed_pieces (text : jsstring) :
  Forall
    (fun url =>
       (exists pre post, text = pre ++ url ++ post)
       /\ trim url = url
       /\ match url with c :: _ => isWhiteSpace c = false | [] => True end
       /\ match rev url with c :: _ => isWhiteSpace c = false | [] => True end)
    (parseURLs text).
Proof.
  apply parseURLs_Forall. intros a b.
  destruct (trim_spec (slice text a b)) as ((pre & post & Hs & _ & _) & Hhead & Hlast).
  destruct (slice_is_piece text a b) as (pre0 & post0 & Ht).
  split; [| split; [apply trim_fixed; assumption | split; assumption]].
  exists (pre0 ++ pre), (post ++ post0).
  rewrite Ht at 1. rewrite Hs at 1. rewrite <- !app_assoc. reflexivity.
Qed.

(** X18: a text whose first [url] is at position 0, or that has none, gives
    no payload at all: the loop goes on only while [indexOf] is positive. *)
Theorem parseURLs_needs_url_past_start (text : jsstring) :
  indexOf text (js "url") 0 <= 0 -> parseURLs text = [].
Proof.
  intros H. unfold parseURLs, parseURLs_run, scan_gas. cbn [parseURLs_loop].
  destruct (Z.gtb_spec (indexOf text (js "url") 0) 0); [lia |]. reflexivity.
Qed.

Lemma parseURLs_needs_url_past_start_witness :
  parseURLs (js "url(img/a.png) no-repeat") = []
  /\ parseURLs (js "color: red") = [].
Proof.
  split.
  - apply (parseURLs_needs_url_past_start (js "url(img/a.png) no-repeat")).
    vm_compute. discriminate.
  - apply (parseURLs_needs_url_past_start (js "color: red")).
    vm_compute. discriminate.
Defined.


(** ** Well-formed tokens *)

Lemma charAt_app_r (a b : jsstring) (i : Z) :
  0 <= i -> charAt (a ++ b) (len a + i) = charAt b i.
Proof.
  intros Hi. unfold charAt, len.
  destruct (Z.ltb_spec (Z.of_nat (length a) + i) 0); [lia |].
  destruct (Z.ltb_spec i 0); [lia |].
  rewrite nth_error_app2 by lia. f_equal. lia.
Qed.

Lemma len_app (a b : jsstring) : len (a ++ b) = len a + len b.
Proof. unfold len. rewrite length_app. lia. Qed.

Lemma isPrefix_app (p s r : jsstring) :
  isPrefix p s = true -> isPrefix p (s ++ r) = true.
Proof.
  revert s. induction p as [| x p IH]; intros [| y s] H; cbn [isPrefix app] in *;
    try reflexivity; try discriminate.
  apply andb_prop in H. destruct H as [-> H]. rewrite (IH s H). reflexivity.
Qed.

Lemma isPrefix_app_long (p s r : jsstring) :
  (length p <= length s)%nat -> isPrefix p (s ++ r) = isPrefix p s.
Proof.
  revert s. induction p as [| x p IH]; intros [| y s] H; cbn [isPrefix app length] in *;
    try reflexivity; try lia.
  rewrite IH by lia. reflexivity.
Qed.

Lemma indexOf_from_length (p s : jsstring) :
  forall k, indexOf_from p s k <> -1 -> 0 <= k -> (length p <= length s)%nat.
Proof.
  intros k H Hk. destruct (indexOf_from_range p s k) as [Hr | [_ Hr]]; [contradiction |].
  destruct (indexOf_from_range p s k) as [Hn | [Hlo _]]; [contradiction |].
  unfold len in Hr. lia.
Qed.

(** A match found in a text is the match found in any extension of it. *)
Lemma indexOf_from_app (p s r : jsstring) :
  forall k, 0 <= k -> indexOf_from p s k <> -1 ->
            indexOf_from p (s ++ r) k = indexOf_from p s k.
Proof.
  induction s as [| c s IH]; intros k Hk H.
  - cbn [indexOf_from app] in *. destruct (isPrefix p []) eqn:E; [| contradiction].
    destruct p; [| discriminate]. destruct r; reflexivity.
  - cbn [indexOf_from] in H. change ((c :: s) ++ r) with (c :: (s ++ r)).
    cbn [indexOf_from]. destruct (isPrefix p (c :: s)) eqn:E.
    + change (c :: s ++ r) with ((c :: s) ++ r). rewrite (isPrefix_app _ _ r E). reflexivity.
    + change (c :: s ++ r) with ((c :: s) ++ r).
      rewrite isPrefix_app_long, E.
      * apply IH; [lia | exact H].
      * apply indexOf_from_length in H; [| lia]. cbn [length]. lia.
Qed.

Lemma skipWhitespace_stop (text : jsstring) (gas : nat) (index : Z) (ticks : nat) :
  test_ws (charAt text index) = false ->
  skipWhitespace (S gas) text index ticks = Some (0, S ticks).
Proof.
  intros H. unfold skipWhitespace. cbn [skipWhitespace_loop].
  rewrite Z.add_0_r, H. reflexivity.
Qed.

(** The capturing loop runs through characters that do not close the
    innermost open token, one iteration each. *)
Lemma capture_run (cl : char) (stack : list char) (rest : jsstring) :
  closingToken (top stack) = Some cl ->
  forall (body head : jsstring) (e : Z) (ticks gas k : nat),
    Forall (fun c => c <> cl) body ->
    gas = (length body + k)%nat ->
    capture_loop gas (head ++ body ++ rest) (mkCapture (len head) e stack ticks)
    = capture_loop k (head ++ body ++ rest)
        (mkCapture (len head + len body) (e + len body) stack (ticks + length body)).
Proof.
  intros Hcl. induction body as [| c body IH]; intros head e ticks gas k Hbody ->.
  - cbn [length Nat.add app]. unfold len at 2 3. cbn [length].
    rewrite !Z.add_0_r, Nat.add_0_r. reflexivity.
  - inversion Hbody as [| c' body' Hc Hrest]; subst.
    cbn [length Nat.add capture_loop c_stack c_index c_end c_ticks].
    assert (Hstack : (0 <? Z.of_nat (length stack)) = true).
    { destruct stack as [| x stack]; [discriminate Hcl |]. cbn [length]. apply Z.ltb_lt. lia. }
    assert (Hin : (len head <? len (head ++ (c :: body) ++ rest)) = true).
    { apply Z.ltb_lt. rewrite !len_app. unfold len. cbn [length]. lia. }
    rewrite Hstack, Hin. cbn [negb orb].
    replace (len head) with (len head + 0) at 1 by lia.
    rewrite charAt_app_r by lia. cbn [app]. change (charAt (c :: body ++ rest) 0) with (Some c).
    rewrite Hcl. cbn [strict_eq]. unfold char_eqb.
    destruct (N.eqb_spec c cl); [contradiction |].
    replace (head ++ c :: body ++ rest) with ((head ++ [c]) ++ body ++ rest)
      by (rewrite <- app_assoc; reflexivity).
    replace (len head + 1) with (len (head ++ [c])) by (rewrite len_app; reflexivity).
    rewrite (IH (head ++ [c]) (e + 1) (S ticks) _ k Hrest eq_refl).
    f_equal. f_equal; rewrite ?len_app; unfold len; cbn [length]; lia.
Qed.

(** The step at the closing token of the innermost open token. *)
Lemma capture_close (cl : char) (stack : list char) (text : jsstring)
    (i e : Z) (ticks k : nat) :
  closingToken (top stack) = Some cl ->
  charAt text i = Some cl ->
  capture_loop (S (S k)) text (mkCapture i e stack ticks)
  = capture_loop (S k) text (mkCapture (i + 1) e (pop stack) (S (S ticks))).
Proof.
  intros Hcl Hat.
  pose proof (charAt_Some text i cl Hat) as Hi.
  cbn [capture_loop c_stack c_index c_end c_ticks].
  assert (Hstack : (0 <? Z.of_nat (length stack)) = true).
  { destruct stack as [| x stack]; [discriminate Hcl |]. cbn [length]. apply Z.ltb_lt. lia. }
  rewrite Hstack. destruct (Z.ltb_spec i (len text)); [| lia]. cbn [negb orb].
  assert (Heq : strict_eq (charAt text i) (closingToken (top stack)) = true).
  { rewrite Hat, Hcl. cbn [strict_eq]. apply N.eqb_refl. }
  rewrite Heq.
  rewrite (skipWhitespace_at_closing text k i (S ticks) (top stack) Heq)
    by (rewrite Hat; discriminate).
  replace (i + 0 + 1) with (i + 1) by lia. reflexivity.
Qed.

Lemma slice_middle (head body rest : jsstring) :
  slice (head ++ body ++ rest) (len head) (len head + len body) = body.
Proof.
  unfold slice, rel_index. rewrite !len_app.
  pose proof (len_nonneg head). pose proof (len_nonneg body). pose proof (len_nonneg rest).
  destruct (Z.ltb_spec (len head) 0); [lia |].
  destruct (Z.ltb_spec (len head + len body) 0); [lia |].
  replace (Z.min (len head) (len head + (len body + len rest))) with (len head) by lia.
  replace (Z.min (len head + len body) (len head + (len body + len rest)))
    with (len head + len body) by lia.
  replace (Z.to_nat (Z.max (len head + len body - len head) 0)) with (length body)
    by (unfold len; lia).
  replace (Z.to_nat (len head)) with (length head) by (unfold len; lia).
  rewrite skipn_app, skipn_all, Nat.sub_diag. cbn [skipn app].
  rewrite firstn_app, firstn_all, Nat.sub_diag. cbn [firstn]. apply app_nil_r.
Qed.

Lemma indexOf_at_end (text : jsstring) : indexOf text (js "url") (len text) = -1.
Proof.
  unfold indexOf. pose proof (len_nonneg text).
  replace (Z.min (Z.max (len text) 0) (len text)) with (len text) by lia.
  unfold len. rewrite Nat2Z.id, skipn_all. reflexivity.
Qed.

Lemma indexOf_first_url (pre rest : jsstring) :
  indexOf (pre ++ js "url") (js "url") 0 = len pre ->
  indexOf (pre ++ js "url" ++ rest) (js "url") 0 = len pre.
Proof.
  intros first_url. unfold indexOf in *.
  pose proof (len_nonneg (pre ++ js "url" ++ rest)). pose proof (len_nonneg (pre ++ js "url")).
  replace (Z.min (Z.max 0 0) (len (pre ++ js "url" ++ rest))) with 0 by lia.
  replace (Z.min (Z.max 0 0) (len (pre ++ js "url"))) with 0 in first_url by lia.
  cbn [Z.to_nat skipn] in *. rewrite app_assoc.
  rewrite indexOf_from_app; [exact first_url | lia |].
  rewrite first_url. pose proof (len_nonneg pre). lia.
Qed.

Lemma len_positive (pre : jsstring) : pre <> [] -> (len pre >? 0) = true.
Proof.
  intros pre_nonempty. destruct pre as [| c p]; [contradiction |]. unfold len. cbn [length]. apply Z.gtb_lt. lia.
Qed.


(** X19: an unquoted token is scanned as written.  When the first [url] of
    the text is the one of a token [url(payload)], not at position 0, whose
    payload has no closing parenthesis and starts neither with white space
    nor with a quote, the scanner returns the payload, trimmed, and nothing
    else. *)
Theorem parseURLs_unquoted (pre payload : jsstring) :
  pre <> [] ->
  indexOf (pre ++ js "url") (js "url") 0 = len pre ->
  Forall (fun c => c <> ch ")") payload ->
  match payload with
  | c :: _ => isWhiteSpace c = false /\ c <> ch "'" /\ c <> dquote
  | [] => True
  end ->
  parseURLs (pre ++ js "url(" ++ payload ++ js ")") = [trim payload].
Proof.
  intros Hpre Hfirst Hpayload Hhead.
  set (text := pre ++ js "url(" ++ payload ++ js ")").
  assert (Hrun : exists ticks,
             parseURLs_loop (S (S (S (length payload)))) text 0 [] [] 0
             = Some ([trim payload], ticks)).
  { remember (S (S (length payload))) as G eqn:HG.
    cbn [parseURLs_loop].
    assert (Hidx : indexOf text (js "url") 0 = len pre)
      by (apply (indexOf_first_url pre (js "(" ++ payload ++ js ")") Hfirst)).
    rewrite Hidx, (len_positive pre Hpre). cbn [negb]. subst G.
    assert (Hparen : charAt text (len pre + 3) = Some (ch "(")).
    { unfold text. rewrite charAt_app_r by lia. reflexivity. }
    assert (Hc0 : exists c0, charAt text (len pre + 4) = Some c0
                            /\ isWhiteSpace c0 = false /\ isQuote (Some c0) = false).
    { unfold text. rewrite charAt_app_r by lia.
      change (js "url(" ++ payload ++ js ")")
        with (ch "u" :: ch "r" :: ch "l" :: ch "(" :: payload ++ js ")").
      destruct payload as [| c p].
      - exists (ch ")"). repeat split; reflexivity.
      - exists c. destruct Hhead as (Hws & Hq1 & Hq2). split; [reflexivity |].
        split; [exact Hws |]. unfold isQuote. cbn [strict_eq]. unfold char_eqb.
        destruct (N.eqb_spec c (ch "'")); [contradiction |].
        destruct (N.eqb_spec c dquote); [contradiction |]. reflexivity. }
    destruct Hc0 as (c0 & Hat & Hws & Hquote).
    rewrite (skipWhitespace_stop text (S (length payload)) (len pre + 3))
      by (rewrite Hparen; reflexivity).
    rewrite Z.add_0_r, Hparen. cbn [strict_eq]. unfold char_eqb at 1.
    rewrite N.eqb_refl. cbn [negb].
    replace (len pre + 3 + 1) with (len pre + 4) by lia.
    rewrite (skipWhitespace_stop text (S (length payload)) (len pre + 4))
      by (rewrite Hat; exact Hws).
    rewrite Z.add_0_r, Hat, Hquote.
    rewrite (skipWhitespace_stop text (S (length payload)) (len pre + 4))
      by (rewrite Hat; exact Hws).
    rewrite Z.add_0_r.
    set (head := pre ++ js "url(").
    assert (Htext : text = head ++ payload ++ js ")")
      by (unfold text, head; rewrite <- app_assoc; reflexivity).
    assert (Hlen : len pre + 4 = len head)
      by (unfold head; rewrite len_app; reflexivity).
    rewrite Hlen, Htext.
    rewrite (capture_run (ch ")") (push [] (ch "(")) (js ")") eq_refl payload head
               (len head) 4 (S (S (length payload))) 2 Hpayload) by lia.
    rewrite (capture_close (ch ")") (push [] (ch "(")) (head ++ payload ++ js ")")
               (len head + len payload) (len head + len payload) (4 + length payload) 0
               eq_refl)
      by (rewrite app_assoc, <- len_app;
          replace (len (head ++ payload)) with (len (head ++ payload) + 0) by lia;
          rewrite charAt_app_r by lia; reflexivity).
    cbn [capture_loop c_stack c_index c_end c_ticks pop push removelast app length].
    change (0 <? Z.of_nat 0) with false. cbn [negb orb c_index c_stack c_end c_ticks].
    rewrite slice_middle.
    replace (len head + len payload + 1) with (len (head ++ payload ++ js ")"))
      by (rewrite !len_app; change (len (js ")")) with 1; lia).
    remember (S (length payload)) as G eqn:HG. cbn [parseURLs_loop].
    rewrite indexOf_at_end. change (negb (-1 >? 0)) with true. cbv iota.
    eexists. reflexivity. }
  destruct Hrun as [ticks Hrun].
  unfold parseURLs, parseURLs_run.
  rewrite (parseURLs_loop_more_gas (S (S (S (length payload)))) (scan_gas text)
             text 0 [] [] 0 ([trim payload], ticks)); [reflexivity | | exact Hrun].
  unfold scan_gas, text. rewrite !length_app. cbn [length js map list_ascii_of_string]. lia.
Qed.

(** X20: a quoted token whose closing quote is directly followed by the
    closing parenthesis loses its quotes: for [url('payload')] or the same
    with double quotes, with a payload free of that quote (it may hold
    parentheses) that does not start with white space, the scanner returns
    the payload, trimmed. *)
Theorem parseURLs_quoted_token (pre payload : jsstring) (q : char) :
  pre <> [] ->
  indexOf (pre ++ js "url") (js "url") 0 = len pre ->
  q = ch "'" \/ q = dquote ->
  Forall (fun c => c <> q) payload ->
  match payload with
  | c :: _ => isWhiteSpace c = false
  | [] => True
  end ->
  parseURLs (pre ++ js "url(" ++ q :: payload ++ q :: js ")") = [trim payload].
Proof.
  intros Hpre Hfirst Hq Hpayload Hhead.
  set (text := pre ++ js "url(" ++ q :: payload ++ q :: js ")").
  assert (Hquote : isQuote (Some q) = true /\ isWhiteSpace q = false
                   /\ closingToken (top (push (push [] (ch "(")) q)) = Some q).
  { destruct Hq as [-> | ->]; repeat split; reflexivity. }
  destruct Hquote as (Hisq & Hqws & Hcl).
  assert (Hrun : exists ticks,
             parseURLs_loop (S (S (S (S (length payload))))) text 0 [] [] 0
             = Some ([trim payload], ticks)).
  { remember (S (S (S (length payload)))) as G eqn:HG.
    cbn [parseURLs_loop].
    assert (Hidx : indexOf text (js "url") 0 = len pre)
      by (apply (indexOf_first_url pre (js "(" ++ q :: payload ++ q :: js ")") Hfirst)).
    rewrite Hidx, (len_positive pre Hpre). cbn [negb]. subst G.
    assert (Hparen : charAt text (len pre + 3) = Some (ch "(")).
    { unfold text. rewrite charAt_app_r by lia. reflexivity. }
    assert (Hat : charAt text (len pre + 4) = Some q).
    { unfold text. rewrite charAt_app_r by lia. reflexivity. }
    assert (Hc0 : exists c0, charAt text (len pre + 5) = Some c0 /\ isWhiteSpace c0 = false).
    { unfold text. rewrite charAt_app_r by lia.
      change (js "url(" ++ q :: payload ++ q :: js ")")
        with (ch "u" :: ch "r" :: ch "l" :: ch "(" :: q :: payload ++ q :: js ")").
      destruct payload as [| c p]; [exists q | exists c]; split; auto. }
    destruct Hc0 as (c0 & Hat5 & Hws).
    rewrite (skipWhitespace_stop text (S (S (length payload))) (len pre + 3))
      by (rewrite Hparen; reflexivity).
    rewrite Z.add_0_r, Hparen. cbn [strict_eq]. unfold char_eqb at 1.
    rewrite N.eqb_refl. cbn [negb].
    replace (len pre + 3 + 1) with (len pre + 4) by lia.
    rewrite (skipWhitespace_stop text (S (S (length payload))) (len pre + 4))
      by (rewrite Hat; exact Hqws).
    rewrite Z.add_0_r, Hat, Hisq.
    replace (len pre + 4 + 1) with (len pre + 5) by lia.
    rewrite (skipWhitespace_stop text (S (S (length payload))) (len pre + 5))
      by (rewrite Hat5; exact Hws).
    rewrite Z.add_0_r.
    set (head := pre ++ js "url(" ++ [q]).
    assert (Htext : text = head ++ payload ++ q :: js ")")
      by (unfold text, head; rewrite <- !app_assoc; reflexivity).
    assert (Hlen : len pre + 5 = len head)
      by (unfold head; rewrite !len_app; reflexivity).
    rewrite Hlen, Htext.
    rewrite (capture_run q (push (push [] (ch "(")) q) (q :: js ")") Hcl payload head
               (len head) 4 (S (S (S (length payload)))) 3 Hpayload) by lia.
    rewrite (capture_close q (push (push [] (ch "(")) q) (head ++ payload ++ q :: js ")")
               (len head + len payload) (len head + len payload) (4 + length payload) 1
               Hcl)
      by (rewrite app_assoc, <- len_app;
          replace (len (head ++ payload)) with (len (head ++ payload) + 0) by lia;
          rewrite charAt_app_r by lia; reflexivity).
    rewrite (capture_close (ch ")") (pop (push (push [] (ch "(")) q))
               (head ++ payload ++ q :: js ")")
               (len head + len payload + 1) (len head + len payload)
               (S (S (4 + length payload))) 0 eq_refl)
      by (replace (head ++ payload ++ q :: js ")") with ((head ++ payload ++ [q]) ++ js ")")
            by (rewrite <- !app_assoc; reflexivity);
          replace (len head + len payload + 1) with (len (head ++ payload ++ [q]) + 0)
            by (rewrite !len_app; change (len [q]) with 1; lia);
          rewrite charAt_app_r by lia; reflexivity).
    cbn [capture_loop c_stack c_index c_end c_ticks pop push removelast app length].
    change (0 <? Z.of_nat 0) with false. cbn [negb orb c_index c_stack c_end c_ticks].
    rewrite slice_middle.
    replace (len head + len payload + 1 + 1) with (len (head ++ payload ++ q :: js ")"))
      by (rewrite !len_app; change (len (q :: js ")")) with 2; lia).
    remember (S (S (length payload))) as G eqn:HG. cbn [parseURLs_loop].
    rewrite indexOf_at_end. change (negb (-1 >? 0)) with true. cbv iota.
    eexists. reflexivity. }
  destruct Hrun as [ticks Hrun].
  unfold parseURLs, parseURLs_run.
  rewrite (parseURLs_loop_more_gas (S (S (S (S (length payload))))) (scan_gas text)
             text 0 [] [] 0 ([trim payload], ticks)); [reflexivity | | exact Hrun].
  unfold scan_gas, text. rewrite !length_app.
  cbn [length js map list_ascii_of_string app]. rewrite !length_app. cbn [length]. lia.
Qed.

Lemma skipWhitespace_stop_any (text : jsstring) (gas : nat) (index : Z) (ticks : nat) :
  (0 < gas)%nat ->
  test_ws (charAt text index) = false ->
  skipWhitespace gas text index ticks = Some (0, S ticks).
Proof.
  intros Hgas. destruct gas as [| gas]; [lia |]. apply skipWhitespace_stop.
Qed.

Lemma trimStart_app_ws (ws s : jsstring) :
  Forall (fun c => isWhiteSpace c = true) ws -> trimStart (ws ++ s) = trimStart s.
Proof.
  induction 1 as [| c ws Hc _ IH]; cbn [app trimStart]; [reflexivity |].
  rewrite Hc. exact IH.
Qed.

Lemma trim_quote_then_space (payload ws : jsstring) (q : char) :
  isWhiteSpace q = false ->
  match payload with c :: _ => isWhiteSpace c = false | [] => True end ->
  Forall (fun c => isWhiteSpace c = true) ws ->
  trim (payload ++ q :: ws) = payload ++ [q].
Proof.
  intros Hq Hhead Hws. unfold trim, trimEnd.
  rewrite (trimStart_fixed (payload ++ q :: ws))
    by (destruct payload; [exact Hq | exact Hhead]).
  rewrite rev_app_distr. cbn [rev]. rewrite <- app_assoc. cbn [app].
  rewrite trimStart_app_ws by (apply Forall_rev; exact Hws).
  cbn [trimStart]. rewrite Hq. cbn [rev]. rewrite rev_involutive. reflexivity.
Qed.

(** X21: with white space between the closing quote and the closing
    parenthesis, the payload is returned with its closing quote.  The white
    space is counted into the captured span, whose end then lies past the
    quote; trimming removes the white space and leaves the quote. *)
Theorem parseURLs_quote_then_space (pre payload ws : jsstring) (q w : char) :
  pre <> [] ->
  indexOf (pre ++ js "url") (js "url") 0 = len pre ->
  q = ch "'" \/ q = dquote ->
  Forall (fun c => c <> q) payload ->
  match payload with
  | c :: _ => isWhiteSpace c = false
  | [] => True
  end ->
  Forall (fun c => isWhiteSpace c = true) (ws ++ [w]) ->
  parseURLs (pre ++ js "url(" ++ q :: payload ++ q :: ws ++ w :: js ")")
  = [payload ++ [q]].
Proof.
  intros Hpre Hfirst Hq Hpayload Hhead Hws.
  set (text := pre ++ js "url(" ++ q :: payload ++ q :: ws ++ w :: js ")").
  assert (Hquote : isQuote (Some q) = true /\ isWhiteSpace q = false
                   /\ closingToken (top (push (push [] (ch "(")) q)) = Some q).
  { destruct Hq as [-> | ->]; repeat split; reflexivity. }
  destruct Hquote as (Hisq & Hqws & Hcl).
  assert (Hnotparen : Forall (fun c => c <> ch ")") (ws ++ [w])).
  { eapply Forall_impl; [| exact Hws]. cbv beta. intros c Hc ->. discriminate Hc. }
  assert (Hrun : exists ticks,
             parseURLs_loop (S (S (S (S (length payload + length (ws ++ [w])))))) text
               0 [] [] 0
             = Some ([payload ++ [q]], ticks)).
  { remember (S (S (S (length payload + length (ws ++ [w]))))) as G eqn:HG.
    cbn [parseURLs_loop].
    assert (Hidx : indexOf text (js "url") 0 = len pre)
      by (apply (indexOf_first_url pre (js "(" ++ q :: payload ++ q :: ws ++ w :: js ")")
                   Hfirst)).
    rewrite Hidx, (len_positive pre Hpre). cbn [negb].
    assert (Hparen : charAt text (len pre + 3) = Some (ch "(")).
    { unfold text. rewrite charAt_app_r by lia. reflexivity. }
    assert (Hat : charAt text (len pre + 4) = Some q).
    { unfold text. rewrite charAt_app_r by lia. reflexivity. }
    assert (Hc0 : exists c0, charAt text (len pre + 5) = Some c0 /\ isWhiteSpace c0 = false).
    { unfold text. rewrite charAt_app_r by lia.
      change (js "url(" ++ q :: payload ++ q :: ws ++ w :: js ")")
        with (ch "u" :: ch "r" :: ch "l" :: ch "(" :: q :: payload ++ q :: ws ++ w :: js ")").
      destruct payload as [| c p]; [exists q | exists c]; split; auto. }
    destruct Hc0 as (c0 & Hat5 & Hws0).
    assert (HG' : (0 < G)%nat) by lia.
    rewrite (skipWhitespace_stop_any text G (len pre + 3) 1 HG')
      by (rewrite Hparen; reflexivity).
    rewrite Z.add_0_r, Hparen. cbn [strict_eq]. unfold char_eqb at 1.
    rewrite N.eqb_refl. cbn [negb].
    replace (len pre + 3 + 1) with (len pre + 4) by lia.
    rewrite (skipWhitespace_stop_any text G (len pre + 4) 2 HG')
      by (rewrite Hat; exact Hqws).
    rewrite Z.add_0_r, Hat, Hisq.
    replace (len pre + 4 + 1) with (len pre + 5) by lia.
    rewrite (skipWhitespace_stop_any text G (len pre + 5) 3 HG')
      by (rewrite Hat5; exact Hws0).
    rewrite Z.add_0_r.
    set (head := pre ++ js "url(" ++ [q]).
    set (space := ws ++ [w]) in *.
    assert (Htext : text = head ++ payload ++ q :: space ++ js ")")
      by (unfold text, head, space; rewrite <- !app_assoc; reflexivity).
    assert (Hlen : len pre + 5 = len head)
      by (unfold head; rewrite !len_app; reflexivity).
    rewrite Hlen, Htext.
    rewrite (capture_run q (push (push [] (ch "(")) q) (q :: space ++ js ")") Hcl payload
               head (len head) 4 G (S (S (S (length space)))) Hpayload) by lia.
    rewrite (capture_close q (push (push [] (ch "(")) q)
               (head ++ payload ++ q :: space ++ js ")")
               (len head + len payload) (len head + len payload) (4 + length payload)
               (S (length space)) Hcl)
      by (rewrite app_assoc, <- len_app;
          replace (len (head ++ payload)) with (len (head ++ payload) + 0) by lia;
          rewrite charAt_app_r by lia; reflexivity).
    set (head2 := head ++ payload ++ [q]).
    assert (Htext2 : head ++ payload ++ q :: space ++ js ")" = head2 ++ space ++ js ")")
      by (unfold head2; rewrite <- !app_assoc; reflexivity).
    assert (Hlen2 : len head + len payload + 1 = len head2)
      by (unfold head2; rewrite !len_app; change (len [q]) with 1; lia).
    rewrite Htext2, Hlen2.
    rewrite (capture_run (ch ")") (pop (push (push [] (ch "(")) q)) (js ")") eq_refl space
               head2 (len head + len payload) (S (S (4 + length payload)))
               (S (S (length space))) 2 Hnotparen) by lia.
    rewrite (capture_close (ch ")") (pop (push (push [] (ch "(")) q))
               (head2 ++ space ++ js ")")
               (len head2 + len space) (len head + len payload + len space)
               (S (S (4 + length payload)) + length space) 0 eq_refl)
      by (rewrite app_assoc, <- len_app;
          replace (len (head2 ++ space)) with (len (head2 ++ space) + 0) by lia;
          rewrite charAt_app_r by lia; reflexivity).
    cbn [capture_loop c_stack c_index c_end c_ticks pop push removelast app length].
    change (0 <? Z.of_nat 0) with false. cbn [negb orb c_index c_stack c_end c_ticks].
    assert (Hslice : slice (head2 ++ space ++ js ")") (len head)
                       (len head + len payload + len space)
                     = payload ++ q :: ws).
    { replace (head2 ++ space ++ js ")") with (head ++ (payload ++ q :: ws) ++ w :: js ")")
        by (unfold head2, space; rewrite <- !app_assoc; reflexivity).
      replace (len head + len payload + len space)
        with (len head + len (payload ++ q :: ws))
        by (unfold space; rewrite !len_app; unfold len; cbn [length]; lia).
      apply slice_middle. }
    rewrite Hslice.
    rewrite trim_quote_then_space;
      [| exact Hqws | exact Hhead | apply Forall_app in Hws; apply Hws].
    replace (len head2 + len space + 1) with (len (head2 ++ space ++ js ")"))
      by (rewrite !len_app; change (len (js ")")) with 1; lia).
    destruct G as [| G]; [lia |]. cbn [parseURLs_loop].
    rewrite indexOf_at_end. change (negb (-1 >? 0)) with true. cbv iota.
    eexists. reflexivity. }
  destruct Hrun as [ticks Hrun].
  unfold parseURLs, parseURLs_run.
  rewrite (parseURLs_loop_more_gas
             (S (S (S (S (length payload + length (ws ++ [w])))))) (scan_gas text)
             text 0 [] [] 0 ([payload ++ [q]], ticks)); [reflexivity | | exact Hrun].
  unfold scan_gas, text.
  repeat (rewrite length_app || cbn [length]).
  change (length (js "url(")) with 4%nat. change (length (js ")")) with 1%nat. lia.
Qed.

Lemma parseURLs_unquoted_witness :
  parseURLs (js "a{background:" ++ js "url(" ++ js "img/a.png" ++ js ")")
  = [trim (js "img/a.png")].
Proof.
  apply (parseURLs_unquoted (js "a{background:") (js "img/a.png")).
  - discriminate.
  - vm_compute. reflexivity.
  - repeat (constructor; [discriminate |]). constructor.
  - repeat split; discriminate.
Defined.

Lemma parseURLs_quoted_token_witness :
  parseURLs (js "a{background:" ++ js "url(" ++ dquote :: js "img/a(1).png"
               ++ dquote :: js ")")
  = [trim (js "img/a(1).png")].
Proof.
  apply (parseURLs_quoted_token (js "a{background:") (js "img/a(1).png") dquote).
  - discriminate.
  - vm_compute. reflexivity.
  - right. reflexivity.
  - repeat (constructor; [discriminate |]). constructor.
  - reflexivity.
Defined.

Lemma parseURLs_quote_then_space_witness :
  parseURLs (js "background: " ++ js "url(" ++ ch "'" :: js "a/b.png"
               ++ ch "'" :: [] ++ ch " " :: js ")")
  = [js "a/b.png" ++ [ch "'"]].
Proof.
  apply (parseURLs_quote_then_space (js "background: ") (js "a/b.png") [] (ch "'") (ch " ")).
  - discriminate.
  - vm_compute. reflexivity.
  - left. reflexivity.
  - repeat (constructor; [discriminate |]). constructor.
  - reflexivity.
  - repeat constructor.
Defined.


(** ** Optional attributes of synthesized tags *)

Lemma element_attrs (host : Host) (fs : FileSystem) (o : CreateElementOptions) (el : Node) :
  createLinkElement host fs o = Some el \/ createScriptElement host fs o = Some el ->
  exists fixed ia,
    integrityAttr fs (path_resolve host (ce_basedir o) (ce_outputPath o)) (ce_integrity o)
    = Some ia
    /\ attrsOf el
       = fixed
         ++ match crossoriginAttr (ce_crossorigin o) with Some a => [a] | None => [] end
         ++ match ia with Some a => [a] | None => [] end
    /\ forall a, In a fixed ->
                 attr_name a <> js "crossorigin" /\ attr_name a <> js "integrity".
Proof.
  intros [H | H]; [unfold createLinkElement in H | unfold createScriptElement in H];
    destruct (integrityAttr fs _ (ce_integrity o)) as [ia |]; try discriminate;
    injection H as <-; cbn [attrsOf createElement collect flat_map].
  - exists [mkAttr (js "href")
              (tagURL host (ce_publicPath o)
                 (path_basename host (path_resolve host (ce_basedir o) (ce_outputPath o))));
            mkAttr (js "rel") (js "stylesheet")], ia.
    split; [reflexivity |]. split; [rewrite app_nil_r; reflexivity |].
    intros a [<- | [<- | []]]; split; discriminate.
  - eexists (_ :: match and_then _ _ with Some a => [a] | None => [] end
               ++ match and_then _ _ with Some a => [a] | None => [] end), ia.
    split; [reflexivity |]. split.
    + cbn [app]. rewrite app_nil_r, <- !app_assoc. reflexivity.
    + intros a [<- | Ha]; [split; discriminate |].
      apply in_app_or in Ha.
      destruct Ha as [Ha | Ha];
        [destruct (ce_useModuleType o) | destruct (_ && _)];
        cbn [and_then] in Ha; attr_members; split; discriminate.
Qed.

(** X22: a link or a script cannot be created exactly when an integrity
    algorithm is configured and the digest of the resolved output file cannot
    be read.  A created element has a [crossorigin] attribute exactly when
    the option is set, with the option's value, and an [integrity] attribute
    exactly when an algorithm is configured, with the value
    [<algorithm>-<digest>] of the resolved output file. *)
Theorem optional_attributes (host : Host) (fs : FileSystem) (o : CreateElementOptions) :
  let file := path_resolve host (ce_basedir o) (ce_outputPath o) in
  let unreadable := exists alg, ce_integrity o = Some alg /\ fs_digest fs alg file = None in
  (createLinkElement host fs o = None <-> unreadable)
  /\ (createScriptElement host fs o = None <-> unreadable)
  /\ forall el,
      createLinkElement host fs o = Some el \/ createScriptElement host fs o = Some el ->
      (forall a, In a (attrsOf el) -> attr_name a = js "crossorigin" ->
                 exists c, ce_crossorigin o = Some c /\ attr_value a = crossoriginText c)
      /\ (forall c, ce_crossorigin o = Some c ->
                    In (mkAttr (js "crossorigin") (crossoriginText c)) (attrsOf el))
      /\ (forall a, In a (attrsOf el) -> attr_name a = js "integrity" ->
                    exists alg d,
                      ce_integrity o = Some alg /\ fs_digest fs alg file = Some d
                      /\ attr_value a = hashAlgorithmText alg ++ js "-" ++ d)
      /\ (forall alg, ce_integrity o = Some alg ->
                      exists d, fs_digest fs alg file = Some d
                                /\ In (mkAttr (js "integrity")
                                         (hashAlgorithmText alg ++ js "-" ++ d))
                                     (attrsOf el)).
Proof.
  intros file unreadable.
  pose proof (integrityAttr_cases fs file (ce_integrity o)) as Hia.
  split; [| split].
  - unfold createLinkElement. fold file.
    destruct (integrityAttr fs file (ce_integrity o)) as [[a |] |].
    + split; [discriminate |]. intros (alg & Ha & Hd).
      destruct Hia as (alg' & d & Ha' & Hd' & _). congruence.
    + split; [discriminate |]. intros (alg & Ha & _). congruence.
    + split; [intros _; exact Hia | reflexivity].
  - unfold createScriptElement. fold file.
    destruct (integrityAttr fs file (ce_integrity o)) as [[a |] |].
    + split; [discriminate |]. intros (alg & Ha & Hd).
      destruct Hia as (alg' & d & Ha' & Hd' & _). congruence.
    + split; [discriminate |]. intros (alg & Ha & _). congruence.
    + split; [intros _; exact Hia | reflexivity].
  - intros el Hel.
    destruct (element_attrs host fs o el Hel) as (fixed & ia & Hint & Hattrs & Hfixed).
    fold file in Hint. rewrite Hint in Hia. rewrite Hattrs.
    assert (Hcross : forall a, crossoriginAttr (ce_crossorigin o) = Some a ->
                               exists c, ce_crossorigin o = Some c
                                         /\ a = mkAttr (js "crossorigin") (crossoriginText c)).
    { unfold crossoriginAttr. destruct (ce_crossorigin o) as [c |]; [| discriminate].
      intros a [= <-]. eauto. }
    repeat split.
    + intros a Ha Hn. rewrite !in_app_iff in Ha. destruct Ha as [Ha | [Ha | Ha]].
      * apply Hfixed in Ha. tauto.
      * destruct (crossoriginAttr (ce_crossorigin o)) as [a' |]; [| destruct Ha].
        destruct Ha as [<- | []]. destruct (Hcross a' eq_refl) as (c & Hc & ->). eauto.
      * destruct ia as [a' |]; [| destruct Ha]. destruct Ha as [<- | []].
        destruct Hia as (alg & d & _ & _ & ->). vm_compute in Hn. discriminate Hn.
    + intros c Hc. rewrite !in_app_iff. right. left.
      unfold crossoriginAttr. rewrite Hc. left. reflexivity.
    + intros a Ha Hn. rewrite !in_app_iff in Ha. destruct Ha as [Ha | [Ha | Ha]].
      * apply Hfixed in Ha. tauto.
      * destruct (crossoriginAttr (ce_crossorigin o)) as [a' |]; [| destruct Ha].
        destruct Ha as [<- | []]. destruct (Hcross a' eq_refl) as (c & _ & ->).
        vm_compute in Hn. discriminate Hn.
      * destruct ia as [a' |]; [| destruct Ha]. destruct Ha as [<- | []].
        destruct Hia as (alg & d & Halg & Hd & ->). eauto.
    + intros alg Halg. destruct ia as [a' |]; [| congruence].
      destruct Hia as (alg' & d & Halg' & Hd & ->).
      assert (alg' = alg) by congruence. subst alg'.
      exists d. split; [exact Hd |]. rewrite !in_app_iff. right. right. left. reflexivity.
Qed.

Lemma optional_attributes_witness :
  createLinkElement sampleHost goodFS
    (mkCreate (js "/proj") (Some Anonymous) None (Some Sha384) (js "dist/app.css") None false)
  = Some (Element (js "link")
            [ mkAttr (js "href") (js "app.css");
              mkAttr (js "rel") (js "stylesheet");
              mkAttr (js "crossorigin") (js "anonymous");
              mkAttr (js "integrity") (js "sha384-AAAA") ] [])
  /\ (createLinkElement sampleHost
        (mkFS (fun _ => None) (fun _ => None) (fun _ _ => None)
           (fun _ => true) (fun _ _ => true) (fun _ _ => true))
        (mkCreate (js "/proj") None None (Some Sha384) (js "dist/app.css") None false)
      = None).
Proof.
  split; [vm_compute; reflexivity |].
  apply (proj1 (optional_attributes sampleHost
                  (mkFS (fun _ => None) (fun _ => None) (fun _ _ => None)
                     (fun _ => true) (fun _ _ => true) (fun _ _ => true))
                  (mkCreate (js "/proj") None None (Some Sha384) (js "dist/app.css")
                     None false))).
  exists Sha384. split; reflexivity.
Defined.

(** ** The outcomes of setup *)

(** X23: [setup] touches the file system at most once, to read the template
    at [path.resolve(basedir, template)], and never writes.  It registers the
    handler exactly when entry points and a non-empty output directory are
    configured and the template can be read; the handler then works on the
    text that was read, under the public path of the build, and in module
    mode exactly when the format is [esm].  An unreadable template is a throw
    that names the resolved path. *)
Theorem setup_outcomes (host : Host) (options : HtmlPluginOptions) (fs : FileSystem)
    (build : BuildOptions) :
  let basedir :=
    match absWorkingDir build with Some d => d | None => process_cwd host end in
  let templatePath := path_resolve host basedir (opt_template options) in
  let r := setup host options fs build in
  (fst r = [] \/ fst r = [ReadFile templatePath])
  /\ ((exists ctx, snd r = Ok (Some ctx))
      <-> entryPoints build <> None
          /\ truthy (outdir build) = true
          /\ fs_readFile fs templatePath <> None)
  /\ (forall ctx,
         snd r = Ok (Some ctx) ->
         fst r = [ReadFile templatePath]
         /\ fs_readFile fs templatePath = Some (ctx_templateContent ctx)
         /\ ctx_templatePath ctx = templatePath
         /\ ctx_publicPath ctx = publicPath build
         /\ (ctx_useModuleType ctx = true <-> format build = Some Esm))
  /\ (entryPoints build <> None ->
      truthy (outdir build) = true ->
      fs_readFile fs templatePath = None ->
      r = ([ReadFile templatePath], Throw (TemplateUnreadable templatePath))).
Proof.
  intros basedir templatePath r. subst r. unfold setup. fold basedir. fold templatePath.
  destruct (entryPoints build) as [entries |].
  2: { cbn [fst snd]. split; [left; reflexivity |]. split; [| split].
       - split; [intros [ctx Hctx]; discriminate Hctx | intros [Hne _]; congruence].
       - discriminate.
       - congruence. }
  destruct (truthy (outdir build)) eqn:Hout; cbn [negb].
  2: { cbn [fst snd]. split; [left; reflexivity |]. split; [| split].
       - split; [intros [ctx Hctx]; discriminate Hctx | intros (_ & Ht & _); discriminate Ht].
       - discriminate.
       - discriminate. }
  destruct (fs_readFile fs templatePath) as [content |] eqn:Hread; cbn [fst snd].
  - split; [right; reflexivity |]. split; [| split].
    + split; [intros _ | intros _; eauto].
      split; [discriminate | split; [reflexivity | discriminate]].
    + intros ctx [= <-].
      cbn [ctx_templateContent ctx_templatePath ctx_publicPath ctx_useModuleType].
      split; [reflexivity |]. split; [reflexivity |]. split; [reflexivity |].
      split; [reflexivity |].
      destruct (format build) as [[| |] |]; split; congruence.
    + discriminate.
  - split; [right; reflexivity |]. split; [| split].
    + split; [intros [ctx Hctx]; discriminate Hctx | intros (_ & _ & Hr); congruence].
    + discriminate.
    + reflexivity.
Qed.

Lemma setup_outcomes_witness :
  setup sampleHost sampleOptions
    (mkFS (fun _ => None) (fun _ => None) (fun _ _ => None)
       (fun _ => true) (fun _ _ => true) (fun _ _ => true))
    sampleBuild
  = ([ReadFile (js "/proj/src/index.html")],
     Throw (TemplateUnreadable (js "/proj/src/index.html"))).
Proof.
  apply (setup_outcomes sampleHost sampleOptions
           (mkFS (fun _ => None) (fun _ => None) (fun _ _ => None)
              (fun _ => true) (fun _ _ => true) (fun _ _ => true))
           sampleBuild).
  - discriminate.
  - reflexivity.
  - reflexivity.
Defined.


(** ** The splices keep every child *)

Lemma splice_insert_split {A : Type} (l : list A) (start : Z) (items : list A) :
  exists pre post, l = pre ++ post /\ splice_insert l start items = pre ++ items ++ post.
Proof.
  unfold splice_insert.
  set (a := Z.to_nat (rel_index (Z.of_nat (length l)) start)).
  exists (firstn a l), (skipn a l). split; [symmetry; apply firstn_skipn | reflexivity].
Qed.

(** X24: whatever the placement policy and whatever indices it computes, the
    two splices drop, duplicate and reorder nothing: the links go into head
    in one block, in the order they were created in, between two parts
    of the old child list; the scripts go likewise into the head that holds
    the links, or into body, and the other parent is left as it is. *)
Theorem splices_keep_children (options : HtmlPluginOptions) (p : Prepared)
    (links scripts : list Node) :
  exists a b pre post,
    p_head p = a ++ b
    /\ if placement_startsWith_head (scriptPlacement options)
       then a ++ links ++ b = pre ++ post
            /\ spliceTags options p links scripts = (pre ++ scripts ++ post, p_body p)
       else p_body p = pre ++ post
            /\ spliceTags options p links scripts
               = (a ++ links ++ b, pre ++ scripts ++ post).
Proof.
  unfold spliceTags.
  destruct (splice_insert_split (p_head p) (linkIndex (linkPosition options) (p_head p)) links)
    as (a & b & Hhead & Hlinks).
  rewrite Hlinks.
  destruct (placement_startsWith_head (scriptPlacement options)).
  - destruct (splice_insert_split (a ++ links ++ b)
                (scriptIndex (scriptPlacement options) (a ++ links ++ b)) scripts)
      as (pre & post & Hsplit & Hscripts).
    exists a, b, pre, post. rewrite Hscripts. auto.
  - destruct (splice_insert_split (p_body p)
                (scriptIndex (scriptPlacement options) (p_body p)) scripts)
      as (pre & post & Hsplit & Hscripts).
    exists a, b, pre, post. rewrite Hscripts. auto.
Qed.

Example splices_of_the_sample :
  spliceTags sampleOptions samplePrepared [newLink] [newScript]
  = (match sampleHead with
     | meta :: rest => meta :: newScript :: newLink :: rest
     | [] => []
     end, sampleBody).
Proof. vm_compute. reflexivity. Qed.
